(** * SimQ-ai: link models, path simulators, routing engine, repeater
    optimizer and decoy-state BB84 session, embedded from the Python sources.

    Conventions of the embedding.
    - Python floats are kept behind the interface [Float]: every function is
      written once, over any carrier [F] that provides the float operations
      the source uses.  No algebraic law is assumed of them.  Two carriers
      are provided: the rationals [Q] (executable) and the reals [R] (on
      which [math.exp] is the real exponential).
    - The pseudo-random generators ([random.Random] in [link_models.py],
      [numpy.random.Generator] in [repeater_env.py] and [part6.py]) are
      explicit states threaded through every stochastic function.
    - A Python call either returns a value or raises; [Res] records which. *)

From Stdlib Require Import ZArith QArith Qabs Qround Qreals Reals Lra Lia Bool.
From stdpp Require Import gmap strings list.

Local Open Scope Z_scope.

(** ** Python results: a value, or an exception. *)

Inductive Exn : Type :=
| KeyError
| IndexError
| TypeError
| ValueError
| ZeroDivisionError
| NetworkXNoPath
| NodeNotFound
| OtherError (name : string).

(** [Diverges] is the outcome of a loop whose fuel ran out in the model; the
    only unbounded loop of the modelled code is the [while] of [hybrid]. *)
Inductive Res (A : Type) : Type :=
| Ok (a : A)
| Raise (e : Exn)
| Diverges.
Arguments Ok {A} a.
Arguments Raise {A} e.
Arguments Diverges {A}.

Definition res_bind {A B} (r : Res A) (k : A -> Res B) : Res B :=
  match r with
  | Ok a => k a
  | Raise e => Raise e
  | Diverges => Diverges
  end.

(** A computation that reads and advances a generator state [S]. *)
Definition M (S A : Type) : Type := S -> Res (A * S).

Definition ret {S A} (a : A) : M S A := fun s => Ok (a, s).
Definition bind {S A B} (c : M S A) (k : A -> M S B) : M S B :=
  fun s => match c s with
           | Ok (a, s') => k a s'
           | Raise e => Raise e
           | Diverges => Diverges
           end.
Definition lift {S A} (r : Res A) : M S A :=
  fun s => match r with
           | Ok a => Ok (a, s)
           | Raise e => Raise e
           | Diverges => Diverges
           end.
(** A draw never raises. *)
Definition draw {S A} (f : S -> A * S) : M S A := fun s => Ok (f s).

Declare Scope py_scope.
Delimit Scope py_scope with py.
Notation "x <- c ;; k" := (bind c (fun x => k))
  (at level 100, c at next level, right associativity) : py_scope.
Local Open Scope py_scope.

(** ** Floats *)

Class Float (F : Type) : Type := {
  f_lit : Q -> F;            (* a decimal literal such as 0.85 *)
  f_of_Z : Z -> F;           (* int -> float conversion *)
  f_add : F -> F -> F;
  f_sub : F -> F -> F;
  f_mul : F -> F -> F;
  f_div : F -> F -> F;
  f_neg : F -> F;
  f_abs : F -> F;
  f_ltb : F -> F -> bool;    (* a < b *)
  f_exp : F -> F;            (* math.exp *)
  f_log : F -> F;            (* math.log *)
  f_trunc : F -> Z           (* int(x): truncation toward zero *)
}.

(** Python's [max(a, b)] keeps [a] unless [b > a]; [min(a, b)] keeps [a]
    unless [b < a]. *)
Definition py_max {F} `{Float F} (a b : F) : F := if f_ltb a b then b else a.
Definition py_min {F} `{Float F} (a b : F) : F := if f_ltb b a then b else a.

(** *** The rational carrier.
    The rationals have no exponential or logarithm; [exp_Q] is the Taylor
    polynomial of degree 12 and [log_Q] the matching series in
    [(x-1)/(x+1)].  They make the rational carrier executable and are used
    for evaluation on concrete inputs only. *)

Fixpoint exp_terms (n : nat) (k : Z) (term x : Q) : Q :=
  match n with
  | O => term
  | S n' => (term + exp_terms n' (k + 1) (term * x / inject_Z k) x)%Q
  end.
Definition exp_Q (x : Q) : Q := Qred (exp_terms 12 1 1%Q x).

Fixpoint atanh_terms (n : nat) (k : Z) (pow y2 : Q) : Q :=
  match n with
  | O => (pow / inject_Z k)%Q
  | S n' => (pow / inject_Z k + atanh_terms n' (k + 2) (pow * y2) y2)%Q
  end.
Definition log_Q (x : Q) : Q :=
  let y := ((x - 1) / (x + 1))%Q in
  Qred (2 * atanh_terms 6 1 y (y * y))%Q.

Definition Q_trunc (x : Q) : Z := Z.quot (Qnum x) (QDen x).

Definition Qltb (a b : Q) : bool := (Qnum a * QDen b <? Qnum b * QDen a)%Z.

#[export] Instance Float_Q : Float Q := {|
  f_lit := fun q => q;
  f_of_Z := inject_Z;
  f_add := fun a b => Qred (a + b);
  f_sub := fun a b => Qred (a - b);
  f_mul := fun a b => Qred (a * b);
  f_div := fun a b => Qred (a / b);
  f_neg := fun a => Qred (- a);
  f_abs := Qabs;
  f_ltb := Qltb;
  f_exp := exp_Q;
  f_log := log_Q;
  f_trunc := Q_trunc
|}.

(** *** The real carrier. *)

Definition Rltb (a b : R) : bool := if Rlt_dec a b then true else false.
Definition R_trunc (x : R) : Z :=
  if Rle_dec 0 x then Int_part x else (- Int_part (- x))%Z.

#[export] Instance Float_R : Float R := {|
  f_lit := Q2R;
  f_of_Z := IZR;
  f_add := Rplus;
  f_sub := Rminus;
  f_mul := Rmult;
  f_div := Rdiv;
  f_neg := Ropp;
  f_abs := Rabs;
  f_ltb := Rltb;
  f_exp := exp;
  f_log := ln;
  f_trunc := R_trunc
|}.

(** ** Generators *)

(** [random.Random]: [random()] and [gauss(mu, sigma)]. *)
Class RandomSource (F Rng : Type) : Type := {
  rng_random : Rng -> F * Rng;
  rng_gauss : F -> F -> Rng -> F * Rng
}.

(** [numpy.random.Generator].  [gen_int] is the raw integer behind one call
    of [integers(lo, hi)]; [gen_bits] and [gen_uniform] give the elements of
    the arrays returned by [integers(0, 2, n)] and [random(n)], by index;
    [gen_choice m k] is the sample returned by
    [choice(m, k, replace=False)]. *)
Class NumpyGenerator (F Gen : Type) : Type := {
  gen_int : Gen -> Z * Gen;
  gen_bits : Gen -> (nat -> bool) * Gen;
  gen_uniform : Gen -> (nat -> F) * Gen;
  gen_choice : nat -> nat -> Gen -> list nat * Gen
}.

(** Evaluation generators: a list of pending samples, read from the head;
    an exhausted list yields zeros. *)
#[export] Instance RandomSource_list : RandomSource Q (list Q) := {|
  rng_random := fun s => match s with
                         | [] => (0%Q, [])
                         | x :: s' => (x, s')
                         end;
  rng_gauss := fun mu sigma s => match s with
                                 | [] => (mu, [])
                                 | x :: s' => (Qred (mu + sigma * x), s')
                                 end
|}.

(** ** config.py *)

Section Config.
Context {F : Type} `{Float F}.

Definition COHERENCE_LENGTH_KM : F := f_lit 50.
Definition ENTANGLEMENT_SWAP_SUCCESS : F := f_lit 0.85.
Definition CLASSICAL_INTERCEPT_QUANTUM_FAIL_PROB : F := f_lit 0.5.
Definition BASE_CLASSICAL_PACKET_LOSS : F := f_lit 0.01.
Definition CONGESTION_NOISE_STD : F := f_lit 0.02.
Definition BASE_LATENCY_MS_PER_KM : F := f_lit 0.005.
Definition JITTER_MS_STD : F := f_lit 0.2.
End Config.

(** ** The annotated graph (a [networkx.Graph]).
    [adj] is the adjacency dictionary, [nodes] the node attribute
    dictionaries.  Attribute dictionaries are records: an attribute read
    with [.get(key, False)] and absent from the dictionary is the field
    value [false]. *)

Record NodeData : Type := {
  node_quantum : bool;
  can_store_entanglement : bool
}.

Record EdgeData (F : Type) : Type := {
  distance_km : F;
  quantum : bool
}.
Arguments distance_km {F} _.
Arguments quantum {F} _.

Record Graph (F : Type) : Type := {
  nodes : gmap Z NodeData;
  adj : gmap Z (gmap Z (EdgeData F))
}.
Arguments nodes {F} _.
Arguments adj {F} _.

(** [G.edges[u, v]] and [G.nodes[n]]: KeyError when absent. *)
Definition edges_get {F} (G : Graph F) (u v : Z) : Res (EdgeData F) :=
  match adj G !! u ≫= (fun row => row !! v) with
  | Some d => Ok d
  | None => Raise KeyError
  end.

Definition nodes_get {F} (G : Graph F) (n : Z) : Res NodeData :=
  match nodes G !! n with
  | Some d => Ok d
  | None => Raise KeyError
  end.

(** ** link_models.py *)

Section LinkModels.
Context {F Rng : Type} `{Float F} `{RandomSource F Rng}.

Definition quantum_survival_prob (distance_km : F) : F :=
  let L := COHERENCE_LENGTH_KM in
  let p := f_exp (f_div (f_neg distance_km) L) in
  py_max (f_lit 0) (py_min (f_lit 1) p).

Record QuantumHopMetrics : Type := {
  qh_p_survive : F;
  qh_distance_km : F;
  qh_mode : string
}.

Definition simulate_quantum_hop (edge_data : EdgeData F)
  : M Rng (bool * QuantumHopMetrics) :=
  let dist := distance_km edge_data in
  if negb (quantum edge_data) then
    let fail_prob := CLASSICAL_INTERCEPT_QUANTUM_FAIL_PROB in
    r <- draw rng_random ;;
    let success := f_ltb fail_prob r in
    ret (success, {| qh_p_survive := f_sub (f_lit 1) fail_prob;
                     qh_distance_km := dist;
                     qh_mode := "quantum_over_classical" |})
  else
    let p_survive := quantum_survival_prob dist in
    r <- draw rng_random ;;
    let success := f_ltb r p_survive in
    ret (success, {| qh_p_survive := p_survive;
                     qh_distance_km := dist;
                     qh_mode := "quantum" |}).

Definition simulate_entanglement_swap (can_swap : bool) : M Rng (bool * F) :=
  if negb can_swap then ret (false, f_lit 0)
  else
    let p := ENTANGLEMENT_SWAP_SUCCESS in
    r <- draw rng_random ;;
    ret (f_ltb r p, p).

Definition classical_loss_prob (distance_km : F) : M Rng F :=
  let base := BASE_CLASSICAL_PACKET_LOSS in
  g <- draw (rng_gauss (f_lit 0) CONGESTION_NOISE_STD) ;;
  let noisy := f_add base g in
  let noisy := py_max (f_lit 0) (py_min (f_lit 1) noisy) in
  ret noisy.

Definition classical_latency_ms (distance_km : F) : M Rng F :=
  let base := f_mul distance_km BASE_LATENCY_MS_PER_KM in
  jitter <- draw (rng_gauss (f_lit 0) JITTER_MS_STD) ;;
  ret (py_max (f_lit 0) (f_add base jitter)).

Record ClassicalHopMetrics : Type := {
  ch_p_loss : F;
  ch_latency_ms : F;
  ch_distance_km : F;
  ch_mode : string
}.

Definition simulate_classical_hop (edge_data : EdgeData F)
  : M Rng (bool * ClassicalHopMetrics) :=
  let dist := distance_km edge_data in
  p_loss <- classical_loss_prob dist ;;
  r <- draw rng_random ;;
  let success := f_ltb p_loss r in
  latency <- classical_latency_ms dist ;;
  ret (success, {| ch_p_loss := p_loss;
                   ch_latency_ms := latency;
                   ch_distance_km := dist;
                   ch_mode := "classical" |}).
End LinkModels.

(** ** simulator.py *)

Section Simulator.
Context {F Rng : Type} `{Float F} `{RandomSource F Rng}.

Definition _nodes_support_quantum (G : Graph F) (u v : Z) : Res bool :=
  res_bind (nodes_get G u) (fun nu =>
    if node_quantum nu
    then res_bind (nodes_get G v) (fun nv => Ok (node_quantum nv))
    else Ok false).

Definition _node_can_swap (G : Graph F) (n : Z) : Res bool :=
  res_bind (nodes_get G n) (fun d => Ok (can_store_entanglement d)).

Record QuantumMetrics : Type := {
  q_hops : Z;
  q_mode : string;
  q_total_distance_km : F;
  q_success : bool
}.

Definition q_add_distance (m : QuantumMetrics) (d : F) : QuantumMetrics :=
  {| q_hops := q_hops m; q_mode := q_mode m;
     q_total_distance_km := f_add (q_total_distance_km m) d;
     q_success := q_success m |}.

Definition q_set_success (m : QuantumMetrics) (b : bool) : QuantumMetrics :=
  {| q_hops := q_hops m; q_mode := q_mode m;
     q_total_distance_km := q_total_distance_km m;
     q_success := b |}.

(** The [for i in range(len(path) - 1)] loop, by recursion on the part of
    the path that is still ahead: [u :: v :: rest] is [path[i:]], and
    [i < len(path) - 2] holds exactly when [rest] is not empty. *)
Fixpoint quantum_loop (G : Graph F) (path : list Z) (metrics : QuantumMetrics)
  : M Rng QuantumMetrics :=
  match path with
  | u :: tl =>
      match tl with
      | v :: rest =>
          edge_data <- lift (edges_get G u v) ;;
          sm <- simulate_quantum_hop edge_data ;;
          let metrics := q_add_distance metrics (qh_distance_km (snd sm)) in
          if negb (fst sm) then ret metrics
          else
            match rest with
            | _ :: _ =>
                can_swap <- lift (_node_can_swap G v) ;;
                sp <- simulate_entanglement_swap can_swap ;;
                if negb (fst sp) then ret metrics
                else quantum_loop G tl metrics
            | [] => quantum_loop G tl metrics
            end
      | [] => ret (q_set_success metrics true)
      end
  | [] => ret (q_set_success metrics true)
  end.

Definition simulate_path_quantum (G : Graph F) (path : list Z)
  : M Rng QuantumMetrics :=
  let metrics := {| q_hops := Z.of_nat (length path) - 1;
                    q_mode := "quantum_path";
                    q_total_distance_km := f_lit 0;
                    q_success := false |} in
  quantum_loop G path metrics.

Record ClassicalMetrics : Type := {
  c_hops : Z;
  c_mode : string;
  c_total_distance_km : F;
  c_total_latency_ms : F;
  c_success : bool;
  c_lost_hop : option (Z * Z)
}.

(** The body of the loop once the hop [(u, v)] has been simulated: both
    totals grow, and the first lost hop is recorded. *)
Definition classical_update (metrics : ClassicalMetrics) (u v : Z)
  (sm : bool * ClassicalHopMetrics) : ClassicalMetrics :=
  let lost := negb (fst sm) && c_success metrics in
  {| c_hops := c_hops metrics;
     c_mode := c_mode metrics;
     c_total_distance_km :=
       f_add (c_total_distance_km metrics) (ch_distance_km (snd sm));
     c_total_latency_ms :=
       f_add (c_total_latency_ms metrics) (ch_latency_ms (snd sm));
     c_success := if lost then false else c_success metrics;
     c_lost_hop := if lost then Some (u, v) else c_lost_hop metrics |}.

Fixpoint classical_loop (G : Graph F) (path : list Z) (metrics : ClassicalMetrics)
  : M Rng ClassicalMetrics :=
  match path with
  | u :: tl =>
      match tl with
      | v :: _ =>
          edge_data <- lift (edges_get G u v) ;;
          sm <- simulate_classical_hop edge_data ;;
          classical_loop G tl (classical_update metrics u v sm)
      | [] => ret metrics
      end
  | [] => ret metrics
  end.

Definition simulate_path_classical (G : Graph F) (path : list Z)
  : M Rng ClassicalMetrics :=
  let metrics := {| c_hops := Z.of_nat (length path) - 1;
                    c_mode := "classical_path";
                    c_total_distance_km := f_lit 0;
                    c_total_latency_ms := f_lit 0;
                    c_success := true;
                    c_lost_hop := None |} in
  classical_loop G path metrics.

(** *** Reference runs, used to state what the simulators compute. *)

(** The edges of a path, in order. *)
Fixpoint path_edges (path : list Z) : list (Z * Z) :=
  match path with
  | u :: tl =>
      match tl with
      | v :: _ => (u, v) :: path_edges tl
      | [] => []
      end
  | [] => []
  end.

(** Consecutive nodes of the path are joined by an edge of the graph. *)
Definition edges_present (G : Graph F) (path : list Z) : bool :=
  forallb (fun uv => match edges_get G uv.1 uv.2 with
                     | Ok _ => true
                     | _ => false
                     end) (path_edges path).

(** Every node of the path is a node of the graph. *)
Definition nodes_present (G : Graph F) (path : list Z) : bool :=
  forallb (fun n => match nodes_get G n with
                    | Ok _ => true
                    | _ => false
                    end) path.

(** The distances of the edges of a path, in order (edges missing from
    the graph are skipped). *)
Definition edge_distances (G : Graph F) (path : list Z) : list F :=
  omap (fun uv => match edges_get G uv.1 uv.2 with
                  | Ok d => Some (distance_km d)
                  | _ => None
                  end) (path_edges path).

(** The float sum of a list, accumulated in order from [acc], as the
    [+=] of the loops does. *)
Definition float_sum (acc : F) (l : list F) : F := fold_left f_add l acc.

(** One record per hop of a complete, never interrupted walk of the path
    in quantum mode: the hop draw, the swap draw at the node reached when
    the hop is not the last one, and the generator state after each. *)
Record QuantumAttempt : Type := {
  qa_edge : Z * Z;
  qa_distance_km : F;
  qa_hop_ok : bool;
  qa_after_hop : Rng;
  qa_swap_ok : option bool;
  qa_after_swap : Rng
}.

Definition qa_ok (a : QuantumAttempt) : bool :=
  qa_hop_ok a && default true (qa_swap_ok a).

Fixpoint quantum_attempts (G : Graph F) (path : list Z) (rng : Rng)
  : list QuantumAttempt :=
  match path with
  | u :: tl =>
      match tl with
      | v :: rest =>
          match (edge_data <- lift (edges_get G u v) ;;
                 simulate_quantum_hop edge_data) rng with
          | Ok (sm, rng1) =>
              match rest with
              | _ :: _ =>
                  match (can_swap <- lift (_node_can_swap G v) ;;
                         simulate_entanglement_swap can_swap) rng1 with
                  | Ok (sp, rng2) =>
                      {| qa_edge := (u, v);
                         qa_distance_km := qh_distance_km (snd sm);
                         qa_hop_ok := fst sm; qa_after_hop := rng1;
                         qa_swap_ok := Some (fst sp); qa_after_swap := rng2 |}
                      :: quantum_attempts G tl rng2
                  | _ => []
                  end
              | [] =>
                  [{| qa_edge := (u, v);
                      qa_distance_km := qh_distance_km (snd sm);
                      qa_hop_ok := fst sm; qa_after_hop := rng1;
                      qa_swap_ok := None; qa_after_swap := rng1 |}]
              end
          | _ => []
          end
      | [] => []
      end
  | [] => []
  end.

(** The attempts up to and including the first one that fails (all of
    them when none fails). *)
Fixpoint upto_first_failure (l : list QuantumAttempt) : list QuantumAttempt :=
  match l with
  | [] => []
  | a :: l' => if qa_ok a then a :: upto_first_failure l' else [a]
  end.

(** The generator state at which a walk that stops at the first failed
    draw leaves the generator. *)
Definition state_after (rng : Rng) (l : list QuantumAttempt) : Rng :=
  match last l with
  | Some a => if qa_hop_ok a then qa_after_swap a else qa_after_hop a
  | None => rng
  end.

(** What the returned [hops] would be if it counted only the hops
    attempted up to and including the failing one. *)
Definition hops_count_attempted (G : Graph F) (path : list Z) (rng : Rng) : Prop :=
  forall m rng',
    simulate_path_quantum G path rng = Ok (m, rng') ->
    q_success m = false ->
    q_hops m =
      Z.of_nat (length (upto_first_failure (quantum_attempts G path rng))).

(** One record per hop of a walk of the path in classical mode. *)
Record ClassicalAttempt : Type := {
  ca_edge : Z * Z;
  ca_distance_km : F;
  ca_latency_ms : F;
  ca_ok : bool;
  ca_after : Rng
}.

Fixpoint classical_attempts (G : Graph F) (path : list Z) (rng : Rng)
  : list ClassicalAttempt :=
  match path with
  | u :: tl =>
      match tl with
      | v :: _ =>
          match (edge_data <- lift (edges_get G u v) ;;
                 simulate_classical_hop edge_data) rng with
          | Ok (sm, rng1) =>
              {| ca_edge := (u, v);
                 ca_distance_km := ch_distance_km (snd sm);
                 ca_latency_ms := ch_latency_ms (snd sm);
                 ca_ok := fst sm; ca_after := rng1 |}
              :: classical_attempts G tl rng1
          | _ => []
          end
      | [] => []
      end
  | [] => []
  end.

Definition final_state (rng : Rng) (l : list ClassicalAttempt) : Rng :=
  match last l with
  | Some a => ca_after a
  | None => rng
  end.
End Simulator.

(** ** networkx, as far as the sources call it.
    [nx_shortest_path G src dst weight] is [nx.shortest_path]; [weight] is
    [None] for hop count, or the function giving the weight of an edge.  It
    returns a path or raises [NetworkXNoPath] or [NodeNotFound]. *)
Class NetworkX (F : Type) : Type := {
  nx_shortest_path : Graph F -> Z -> Z -> option (EdgeData F -> F) -> Res (list Z)
}.

(** [nx.has_path]: [shortest_path] guarded by [except NetworkXNoPath]. *)
Definition nx_has_path {F} `{NetworkX F} (G : Graph F) (src dst : Z) : Res bool :=
  match nx_shortest_path G src dst None with
  | Ok _ => Ok true
  | Raise NetworkXNoPath => Ok false
  | Raise e => Raise e
  | Diverges => Diverges
  end.

(** The graph made of the quantum edges and of the nodes they touch:
    [G.edge_subgraph([... if d["quantum"]])] and
    [nx.Graph(... if d["quantum"])]. *)
Definition quantum_subgraph {F} (G : Graph F) : Graph F :=
  let rows := omap (fun row : gmap Z (EdgeData F) =>
                      let r := filter (fun kv => quantum kv.2 = true) row in
                      if decide (size r = 0%nat) then None else Some r) (adj G) in
  {| nodes := filter (fun kv => is_Some (rows !! kv.1)) (nodes G);
     adj := rows |}.

(** ** policy_registry.py *)

(** A routing policy: [(G, src, dst) -> path or None], or an exception. *)
Abbreviation Policy F := (Graph F -> Z -> Z -> Res (option (list Z))) (only parsing).

Definition register {F} (name : string) (fn : Policy F)
  (POLICIES : gmap string (Policy F)) : gmap string (Policy F) :=
  <[name := fn]> POLICIES.

Definition get_policy {F} (POLICIES : gmap string (Policy F)) (name : string)
  : Res (Policy F) :=
  match POLICIES !! name with
  | Some fn => Ok fn
  | None => Raise KeyError
  end.

(** ** Python values and dictionaries, for the history records. *)

Inductive PyVal (F : Type) : Type :=
| VNone
| VBool (b : bool)
| VInt (z : Z)
| VFloat (x : F)
| VStr (s : string)
| VList (l : list Z)
| VTuple (p : Z * Z).
Arguments VNone {F}.
Arguments VBool {F} b.
Arguments VInt {F} z.
Arguments VFloat {F} x.
Arguments VStr {F} s.
Arguments VList {F} l.
Arguments VTuple {F} p.

(** The items of a dictionary display [{k: v, **d, ...}]. *)
Inductive DictItem (F : Type) : Type :=
| KV (k : string) (v : PyVal F)
| Unpack (d : gmap string (PyVal F)).
Arguments KV {F} k v.
Arguments Unpack {F} d.

(** Items are evaluated from left to right and a later item replaces an
    earlier one with the same key. *)
Definition dict_display {F} (items : list (DictItem F)) : gmap string (PyVal F) :=
  fold_left (fun acc it => match it with
                           | KV k v => <[k := v]> acc
                           | Unpack d => d ∪ acc
                           end) items ∅.

(** Truth value of a policy's result: [None] and [[]] are false. *)
Definition py_not_path (p : option (list Z)) : bool :=
  match p with
  | None | Some [] => true
  | Some (_ :: _) => false
  end.

(** ** routing.py *)

Module Routing.
Section Routing.
Context {F Rng : Type} `{Float F} `{RandomSource F Rng} `{NetworkX F}.

(** Bound on the iterations of the [while] loop of [hybrid]. *)
Variable fuel : nat.

Definition quantum_survival_prob (dist_km : F) (L : F) : F :=
  f_exp (f_div (f_neg dist_km) L).

Definition q_weight (dist_km : F) : F :=
  let p := quantum_survival_prob dist_km (f_lit 50) in
  f_neg (f_log (py_max p (f_lit (1 # 1000000000)))).

Definition c_latency_weight (dist_km : F) : F :=
  f_mul dist_km (f_lit 0.005).

Definition quantum_only : Policy F := fun G src dst =>
  let sub := quantum_subgraph G in
  let absent (n : Z) := negb (bool_decide (is_Some (nodes sub !! n))) in
  if absent src || absent dst then Ok None
  else
    res_bind (nx_has_path sub src dst) (fun connected =>
      if negb connected then Ok None
      else
        res_bind (nx_shortest_path sub src dst
                    (Some (fun d => q_weight (distance_km d))))
                 (fun p => Ok (Some p))).

Definition classical_latency : Policy F := fun G src dst =>
  match nx_shortest_path G src dst
          (Some (fun d => c_latency_weight (distance_km d))) with
  | Ok p => Ok (Some p)
  | Raise NetworkXNoPath => Ok None
  | Raise e => Raise e
  | Diverges => Diverges
  end.

Fixpoint hybrid_loop (n : nat) (G : Graph F) (dst here : Z) (path : list Z)
  : Res (list Z) :=
  if bool_decide (here = dst) then Ok path
  else
    match n with
    | O => Diverges
    | S n' =>
        let Q := quantum_subgraph G in
        let qpath :=
          match nx_shortest_path Q here dst
                  (Some (fun d => q_weight (distance_km d))) with
          | Ok p => Ok (Some p)
          | Raise NetworkXNoPath | Raise NodeNotFound => Ok None
          | Raise e => Raise e
          | Diverges => Diverges
          end in
        res_bind qpath (fun qpath =>
          match qpath with
          | Some (_ :: next_hop :: _) =>
              hybrid_loop n' G dst next_hop (path ++ [next_hop])
          | _ =>
              res_bind (classical_latency G here dst) (fun c_tail =>
                if py_not_path c_tail then Ok path
                else Ok (path ++ drop 1 (default [] c_tail)))
          end)
    end.

Definition hybrid : Policy F := fun G src dst =>
  res_bind (hybrid_loop fuel G dst src [src]) (fun p => Ok (Some p)).

(** The registry once [routing.py] is imported. *)
Definition default_POLICIES : gmap string (Policy F) :=
  register "hybrid" hybrid
    (register "classical_latency" classical_latency
       (register "quantum_only" quantum_only ∅)).

(** *** send_message *)

(** The returned dictionaries; a key that a dictionary does not have is
    [None]. *)
Record SendResult : Type := {
  s_success : bool;
  s_reason : option string;
  s_policy : option string;
  s_mode : option string;
  s_path : option (list Z)
}.

Definition send_message (POLICIES : gmap string (Policy F))
  (G : Graph F) (src dst : Z) (policy : string) : M Rng SendResult :=
  path_fn <- lift (get_policy POLICIES policy) ;;
  path <- lift (path_fn G src dst) ;;
  if py_not_path path then
    ret {| s_success := false; s_reason := Some "no_path";
           s_policy := Some policy; s_mode := None; s_path := None |}
  else
    let path := default [] path in
    q <- simulate_path_quantum G path ;;
    if q_success q then
      ret {| s_success := true; s_reason := None; s_policy := None;
             s_mode := Some "quantum"; s_path := Some path |}
    else
      c <- simulate_path_classical G path ;;
      ret {| s_success := c_success c; s_reason := None; s_policy := None;
             s_mode := Some "classical"; s_path := Some path |}.


Definition _classical_latency_path : Policy F := fun G src dst =>
  match nx_shortest_path G src dst (Some distance_km) with
  | Ok p => Ok (Some p)
  | Raise NetworkXNoPath => Ok None
  | Raise e => Raise e
  | Diverges => Diverges
  end.

(** *** send_message_reliable *)

Definition dict_of_quantum (m : QuantumMetrics) : gmap string (PyVal F) :=
  dict_display [KV "hops" (VInt (q_hops m));
                KV "mode" (VStr (q_mode m));
                KV "total_distance_km" (VFloat (q_total_distance_km m));
                KV "success" (VBool (q_success m))].

Definition dict_of_classical (m : ClassicalMetrics) : gmap string (PyVal F) :=
  dict_display [KV "hops" (VInt (c_hops m));
                KV "mode" (VStr (c_mode m));
                KV "total_distance_km" (VFloat (c_total_distance_km m));
                KV "total_latency_ms" (VFloat (c_total_latency_ms m));
                KV "success" (VBool (c_success m));
                KV "lost_hop" (match c_lost_hop m with
                               | Some uv => VTuple uv
                               | None => VNone
                               end)].

(** [{"mode": "quantum", **qres, "path": edge_path}] *)
Definition quantum_record (qres : QuantumMetrics) (edge_path : list Z)
  : gmap string (PyVal F) :=
  dict_display [KV "mode" (VStr "quantum");
                Unpack (dict_of_quantum qres);
                KV "path" (VList edge_path)].

(** [{"mode": "classical", **cres, "path": edge_path}] *)
Definition classical_record (cres : ClassicalMetrics) (edge_path : list Z)
  : gmap string (PyVal F) :=
  dict_display [KV "mode" (VStr "classical");
                Unpack (dict_of_classical cres);
                KV "path" (VList edge_path)].

Record ReliableResult : Type := {
  r_success : bool;
  r_reason : option string;
  r_mode : option string;
  r_path : option (list Z);
  r_history : list (gmap string (PyVal F))
}.

Definition mode_lookup : gmap string string :=
  {[ "quantum_only" := "quantum_path";
     "classical_latency" := "classical_path";
     "hybrid" := "hybrid_path" ]}.

(** [for x, y in zip(tail, tail[1:])]: the classical tail. *)
Fixpoint tail_loop (G : Graph F) (hops : list (Z * Z))
  (history : list (gmap string (PyVal F)))
  : M Rng (list (gmap string (PyVal F))) :=
  match hops with
  | [] => ret history
  | (x, y) :: hops' =>
      cres <- simulate_path_classical G [x; y] ;;
      tail_loop G hops' (history ++ [classical_record cres [x; y]])
  end.

(** [for u, v in zip(full_path, full_path[1:])] *)
Fixpoint reliable_loop (G : Graph F) (dst : Z) (init_mode : string)
  (hops : list (Z * Z)) (assembled : list Z)
  (history : list (gmap string (PyVal F))) : M Rng ReliableResult :=
  match hops with
  | [] =>
      ret {| r_success := true; r_reason := None; r_mode := Some init_mode;
             r_path := Some assembled; r_history := history |}
  | (u, v) :: hops' =>
      let edge_path := [u; v] in
      d <- lift (edges_get G u v) ;;
      if quantum d then
        qres <- simulate_path_quantum G edge_path ;;
        let history := history ++ [quantum_record qres edge_path] in
        if negb (q_success qres) then
          c_tail <- lift (classical_latency G u dst) ;;
          if py_not_path c_tail then
            ret {| r_success := false;
                   r_reason := Some "no_classical_fallback";
                   r_mode := None; r_path := None; r_history := history |}
          else
            let c_tail := default [] c_tail in
            history <- tail_loop G (zip c_tail (drop 1 c_tail)) history ;;
            ret {| r_success := true; r_reason := None;
                   r_mode := Some init_mode;
                   r_path := Some (assembled ++ drop 1 c_tail);
                   r_history := history |}
        else reliable_loop G dst init_mode hops' (assembled ++ [v]) history
      else
        cres <- simulate_path_classical G edge_path ;;
        reliable_loop G dst init_mode hops' (assembled ++ [v])
          (history ++ [classical_record cres edge_path])
  end.

(** The body of [send_message_reliable] once [path_fn] is a function of
    [(G, src, dst)] returning a path or [None]. *)
Definition reliable_with (init_mode : string) (path_fn : Policy F)
  (G : Graph F) (src dst : Z) : M Rng ReliableResult :=
  full_path <- lift (path_fn G src dst) ;;
  if py_not_path full_path || (length (default [] full_path) <? 2)%nat then
    ret {| r_success := false; r_reason := Some "no_path"; r_mode := None;
           r_path := None; r_history := [] |}
  else
    let full_path := default [] full_path in
    reliable_loop G dst init_mode (zip full_path (drop 1 full_path))
      (take 1 full_path) [].

(** What a name of the module namespace is bound to, as far as a call
    [path_fn(G, src, dst)] followed by [full_path[0]] can tell. *)
Inductive PyObj : Type :=
| PyPolicy (fn : Policy F)
    (* a function of (G, src, dst) returning a path or None *)
| PyReturnsDict (run : Graph F -> Z -> Z -> M Rng unit)
    (* a function of (G, src, dst, policy="hybrid") returning a dict of
       three or four string keys: [full_path[0]] raises KeyError *)
| PyOtherCallable
    (* a function or class that rejects three positional arguments *)
| PyNotCallable.
    (* a module, a string, None, ... *)

(** [globals()] of [routing.py]: the imported names, the functions the
    module defines, and the attributes every module has. *)
Definition routing_globals (POLICIES : gmap string (Policy F))
  : gmap string PyObj :=
  list_to_map
    [ ("__name__", PyNotCallable); ("__doc__", PyNotCallable);
      ("__package__", PyNotCallable); ("__loader__", PyNotCallable);
      ("__spec__", PyNotCallable); ("__file__", PyNotCallable);
      ("__cached__", PyNotCallable); ("__builtins__", PyNotCallable);
      ("annotations", PyNotCallable);
      ("math", PyNotCallable); ("nx", PyNotCallable);
      ("List", PyOtherCallable); ("Dict", PyOtherCallable);
      ("Any", PyOtherCallable);
      ("register", PyOtherCallable); ("get_policy", PyOtherCallable);
      ("simulate_path_quantum", PyOtherCallable);
      ("simulate_path_classical", PyOtherCallable);
      ("quantum_survival_prob", PyOtherCallable);
      ("q_weight", PyOtherCallable);
      ("c_latency_weight", PyOtherCallable);
      ("quantum_only", PyPolicy quantum_only);
      ("classical_latency", PyPolicy classical_latency);
      ("hybrid", PyPolicy hybrid);
      ("send_message",
        PyReturnsDict (fun G src dst =>
          _ <- send_message POLICIES G src dst "hybrid" ;; ret tt));
      ("_classical_latency_path", PyPolicy _classical_latency_path);
      ("send_message_reliable",
        PyReturnsDict (fun G src dst =>
          _ <- reliable_with "hybrid_path" hybrid G src dst ;; ret tt)) ].

Definition send_message_reliable (POLICIES : gmap string (Policy F))
  (G : Graph F) (src dst : Z) (policy : string) : M Rng ReliableResult :=
  let init_mode := default policy (mode_lookup !! policy) in
  let path_fn := default (PyPolicy hybrid) (routing_globals POLICIES !! policy) in
  match path_fn with
  | PyPolicy fn => reliable_with init_mode fn G src dst
  | PyReturnsDict run => _ <- run G src dst ;; lift (Raise KeyError)
  | PyOtherCallable | PyNotCallable => lift (Raise TypeError)
  end.

(** The names of the functions that [routing.py] defines. *)
Definition routing_functions : list string :=
  [ "quantum_survival_prob"; "q_weight"; "c_latency_weight";
    "quantum_only"; "classical_latency"; "hybrid"; "send_message";
    "_classical_latency_path"; "send_message_reliable" ].

(** [send_message_reliable] runs as it does for the [hybrid] policy, the
    returned [mode] being the name it was given. *)
Definition falls_back_to_hybrid (POLICIES : gmap string (Policy F))
  (G : Graph F) (src dst : Z) (policy : string) (rng : Rng) : Prop :=
  send_message_reliable POLICIES G src dst policy rng
  = reliable_with policy hybrid G src dst rng.

(** The value under ["mode"] of every record of a history. *)
Definition history_modes (history : list (gmap string (PyVal F)))
  : list (option (PyVal F)) :=
  map (fun rec => rec !! "mode") history.

(** The hop is an edge of the graph. *)
Definition hop_present (G : Graph F) (uv : Z * Z) : Prop :=
  exists d, edges_get G uv.1 uv.2 = Ok d.

(** [classical_latency] from [u] returns, and the tail, when there is one,
    lies in the graph. *)
Definition tail_in_graph (G : Graph F) (dst u : Z) : Prop :=
  match classical_latency G u dst with
  | Ok c_tail => edges_present G (default [] c_tail) = true
  | _ => False
  end.

(** A history record of a quantum hop that failed. *)
Definition failed_quantum (rec : gmap string (PyVal F)) : Prop :=
  rec !! "mode" = Some (VStr "quantum_path")
  /\ rec !! "success" = Some (VBool false).

(** The ways a walk of [hops] started with [assembled] and [history] can
    end: every hop is walked; or the quantum hop number [k] fails and no
    classical tail exists from its first node; or that hop fails and the
    tail is walked. *)
Inductive loop_outcome (G : Graph F) (dst : Z) (init_mode : string)
  (hops : list (Z * Z)) (assembled : list Z)
  (history : list (gmap string (PyVal F))) (res : ReliableResult) : Prop :=
| lo_completed new :
    r_history res = history ++ new ->
    length new = length hops ->
    Forall (fun rec => ~ failed_quantum rec) new ->
    r_success res = true ->
    r_reason res = None ->
    r_mode res = Some init_mode ->
    r_path res = Some (assembled ++ hops.*2) ->
    loop_outcome G dst init_mode hops assembled history res
| lo_no_fallback k u v pre qrec c_tail :
    hops !! k = Some (u, v) ->
    r_history res = history ++ pre ++ [qrec] ->
    length pre = k ->
    Forall (fun rec => ~ failed_quantum rec) pre ->
    failed_quantum qrec ->
    qrec !! "path" = Some (VList [u; v]) ->
    classical_latency G u dst = Ok c_tail ->
    py_not_path c_tail = true ->
    r_success res = false ->
    r_reason res = Some "no_classical_fallback" ->
    loop_outcome G dst init_mode hops assembled history res
| lo_fallback k u v pre qrec post c_tail :
    hops !! k = Some (u, v) ->
    r_history res = history ++ pre ++ [qrec] ++ post ->
    length pre = k ->
    Forall (fun rec => ~ failed_quantum rec) pre ->
    failed_quantum qrec ->
    qrec !! "path" = Some (VList [u; v]) ->
    classical_latency G u dst = Ok (Some c_tail) ->
    c_tail <> [] ->
    map (fun rec => rec !! "path") post
    = map (fun xy => Some (VList [xy.1; xy.2])) (zip c_tail (drop 1 c_tail)) ->
    Forall (fun rec => rec !! "mode" = Some (VStr "classical_path")) post ->
    r_success res = true ->
    r_reason res = None ->
    r_mode res = Some init_mode ->
    r_path res = Some (assembled ++ (take k hops).*2 ++ drop 1 c_tail) ->
    loop_outcome G dst init_mode hops assembled history res.
End Routing.
End Routing.

(** ** numpy generator calls *)

Section Numpy.
Context {F Gen : Type} `{NumpyGenerator F Gen}.

(** [rng.integers(lo, hi)]: ValueError when the range is empty; otherwise
    the raw integer of the generator, brought into [lo, hi). *)
Definition np_integers (lo hi : Z) : M Gen Z :=
  if hi <=? lo then lift (Raise ValueError)
  else raw <- draw gen_int ;; ret (lo + raw `mod` (hi - lo)).

(** [rng.integers(0, 2, n, dtype=np.uint8)]; the 0/1 entries are
    booleans.  A negative size raises ValueError. *)
Definition np_bits (n : Z) : M Gen (list bool) :=
  if n <? 0 then lift (Raise ValueError)
  else f <- draw gen_bits ;; ret (map f (seq 0 (Z.to_nat n))).

(** [rng.random(n)] *)
Definition np_random (n : Z) : M Gen (list F) :=
  if n <? 0 then lift (Raise ValueError)
  else f <- draw gen_uniform ;; ret (map f (seq 0 (Z.to_nat n))).

(** [rng.choice(m, k, replace=False)]: ValueError when the sample is
    larger than the population. *)
Definition np_choice (m k : nat) : M Gen (list nat) :=
  if (m <? k)%nat then lift (Raise ValueError)
  else draw (gen_choice m k).
End Numpy.

(** ** repeater_env.py and repeater_agent.py *)

Module Repeater.
Section Repeater.
Context {F Rng Gen : Type} `{Float F} `{RandomSource F Rng}
        `{NumpyGenerator F Gen} `{NetworkX F}.

(** The fields of a [RepeaterEnv] that never change after [__init__]. *)
Record RepeaterEnv : Type := {
  G_orig : Graph F;
  src : Z;
  dst : Z;
  max_repeaters : Z;
  trials : Z
}.

(** [mask.sum()] of an integer array. *)
Definition mask_sum (mask : list Z) : Z := fold_right Z.add 0 mask.

(** [_clone_graph]: the node dictionary of every masked index is
    updated; [G.nodes[n]] raises KeyError when [n] is not a node. *)
Fixpoint upgrade_nodes (G : Graph F) (n : Z) (repeaters : list Z) : Res (Graph F) :=
  match repeaters with
  | [] => Ok G
  | r :: rest =>
      if r =? 0 then upgrade_nodes G (n + 1) rest
      else
        res_bind (nodes_get G n) (fun _ =>
          upgrade_nodes
            {| nodes := <[n := {| node_quantum := true;
                                  can_store_entanglement := true |}]> (nodes G);
               adj := adj G |}
            (n + 1) rest)
  end.

Definition _clone_graph (env : RepeaterEnv) (repeaters : list Z) : Res (Graph F) :=
  upgrade_nodes (G_orig env) 0 repeaters.

(** [for _ in range(trials): successes += int(metrics["success"])] *)
Fixpoint count_successes (n : nat) (G : Graph F) (path : list Z) (successes : Z)
  : M Rng Z :=
  match n with
  | O => ret successes
  | S n' =>
      metrics <- simulate_path_quantum G path ;;
      count_successes n' G path (successes + Z.b2z (q_success metrics))
  end.

Definition _compute_reward (env : RepeaterEnv) (repeaters : list Z) : M Rng F :=
  G <- lift (_clone_graph env repeaters) ;;
  match nx_shortest_path G (src env) (dst env) None with
  | Raise NetworkXNoPath => ret (f_lit (-1))
  | Raise e => lift (Raise e)
  | Diverges => lift Diverges
  | Ok path =>
      successes <- count_successes (Z.to_nat (trials env)) G path 0 ;;
      if trials env =? 0 then lift (Raise ZeroDivisionError)
      else
        let prob_success := f_div (f_of_Z successes) (f_of_Z (trials env)) in
        let penalty := f_mul (f_lit 0.01) (f_of_Z (mask_sum repeaters)) in
        ret (f_sub prob_success penalty)
  end.

(** [reset]: the all-zero mask, one entry per node of the graph. *)
Definition reset (env : RepeaterEnv) : list Z :=
  repeat 0 (size (nodes (G_orig env))).

(** The state of a run of [hill_climb]: its local variables, the mutable
    field [env.repeaters], the generator [env.rng] and the generator of
    [link_models]. *)
Record HCState : Type := {
  best_mask : list Z;
  best_reward : F;
  repeaters : list Z;
  env_rng : Gen;
  sim_rng : Rng
}.

(** [candidate = best_mask.copy(); flip = ...; candidate[flip] ^= 1] *)
Definition make_candidate (st : HCState) : Res (list Z * Gen) :=
  match np_integers 0 (Z.of_nat (length (best_mask st))) (env_rng st) with
  | Ok (flip, g) =>
      Ok (alter (fun b => Z.lxor b 1) (Z.to_nat flip) (best_mask st), g)
  | Raise e => Raise e
  | Diverges => Diverges
  end.

(** One iteration of the loop. *)
Definition hc_step (env : RepeaterEnv) (st : HCState) : Res HCState :=
  res_bind (make_candidate st) (fun cg =>
    let candidate := cg.1 in
    if max_repeaters env <? mask_sum candidate then
      Ok {| best_mask := best_mask st; best_reward := best_reward st;
            repeaters := candidate; env_rng := cg.2; sim_rng := sim_rng st |}
    else
      res_bind (_compute_reward env candidate (sim_rng st)) (fun rr =>
        let reward := rr.1 in
        if f_ltb (best_reward st) reward then
          Ok {| best_mask := candidate; best_reward := reward;
                repeaters := candidate; env_rng := cg.2; sim_rng := rr.2 |}
        else
          Ok {| best_mask := best_mask st; best_reward := best_reward st;
                repeaters := candidate; env_rng := cg.2; sim_rng := rr.2 |})).

Fixpoint hc_loop (env : RepeaterEnv) (n : nat) (st : HCState) : Res HCState :=
  match n with
  | O => Ok st
  | S n' => res_bind (hc_step env st) (hc_loop env n')
  end.

(** The state when the loop is entered. *)
Definition hc_init (env : RepeaterEnv) (g : Gen) (rng : Rng) : Res HCState :=
  let obs := reset env in
  res_bind (_compute_reward env obs rng) (fun rr =>
    Ok {| best_mask := obs; best_reward := rr.1; repeaters := obs;
          env_rng := g; sim_rng := rr.2 |}).

(** [hill_climb(env, iterations)]: the returned pair and the final state
    ([env.repeaters] is the best mask). *)
Definition hill_climb (env : RepeaterEnv) (iterations : Z) (g : Gen) (rng : Rng)
  : Res ((list Z * F) * HCState) :=
  res_bind (hc_init env g rng) (fun st0 =>
    res_bind (hc_loop env (Z.to_nat iterations) st0) (fun st =>
      Ok ((best_mask st, best_reward st),
          {| best_mask := best_mask st; best_reward := best_reward st;
             repeaters := best_mask st;
             env_rng := env_rng st; sim_rng := sim_rng st |}))).

(** The states at the end of the iterations that complete, in order. *)
Fixpoint hc_states (env : RepeaterEnv) (n : nat) (st : HCState) : list HCState :=
  match n with
  | O => []
  | S n' =>
      match hc_step env st with
      | Ok st' => st' :: hc_states env n' st'
      | _ => []
      end
  end.

(** What one iteration does to the best pair, given the candidate it
    built: the candidate is over budget and dropped before any reward is
    computed; or its reward is computed and is not greater than the best
    one; or its reward is computed, is greater, and the candidate becomes
    the best. *)
Inductive hc_outcome (env : RepeaterEnv) (st : HCState) (candidate : list Z)
  (st' : HCState) : Prop :=
| hc_discarded :
    max_repeaters env < mask_sum candidate ->
    best_mask st' = best_mask st ->
    best_reward st' = best_reward st ->
    sim_rng st' = sim_rng st ->
    hc_outcome env st candidate st'
| hc_rejected (reward : F) :
    mask_sum candidate <= max_repeaters env ->
    _compute_reward env candidate (sim_rng st) = Ok (reward, sim_rng st') ->
    f_ltb (best_reward st) reward = false ->
    best_mask st' = best_mask st ->
    best_reward st' = best_reward st ->
    hc_outcome env st candidate st'
| hc_accepted (reward : F) :
    mask_sum candidate <= max_repeaters env ->
    _compute_reward env candidate (sim_rng st) = Ok (reward, sim_rng st') ->
    f_ltb (best_reward st) reward = true ->
    best_mask st' = candidate ->
    best_reward st' = reward ->
    hc_outcome env st candidate st'.

(** [a <= b] for rewards, through the comparison the code uses. *)
Definition reward_le (a b : F) : Prop := a = b \/ f_ltb a b = true.
End Repeater.
End Repeater.

(** ** part6.py: decoy-state BB84 *)

Module BB84.
Section BB84.
Context {F Gen : Type} `{Float F} `{NumpyGenerator F Gen}.

(** [hashlib.sha3_256(b).digest()] on byte values, and the format
    [:.3f] of a float. *)
Variable sha3_256 : list Z -> list Z.
Variable format_3f : F -> string.

Definition QBER_LIMIT : F := f_lit 0.11.
Definition DELTA_Y_LIM : F := f_lit 0.05.
Definition SAMPLE_FRAC : F := f_lit 0.02.
Definition ETA : F := f_lit 0.25.
Definition PNS_DROP : F := f_lit 0.6.

(** [a[mask]] for a boolean mask of the length of [a]. *)
Fixpoint select {A} (a : list A) (mask : list bool) : list A :=
  match a, mask with
  | x :: a', b :: mask' => if b then x :: select a' mask' else select a' mask'
  | _, _ => []
  end.

(** [a[idx]] for an array of indices: IndexError out of range. *)
Fixpoint take_indices {A} (a : list A) (idx : list nat) : Res (list A) :=
  match idx with
  | [] => Ok []
  | i :: idx' =>
      match a !! i with
      | Some x => res_bind (take_indices a idx') (fun r => Ok (x :: r))
      | None => Raise IndexError
      end
  end.

(** [a[idx] = x] for an array of indices: IndexError out of range. *)
Fixpoint set_indices {A} (a : list A) (idx : list nat) (x : A) : Res (list A) :=
  match idx with
  | [] => Ok a
  | i :: idx' =>
      match a !! i with
      | Some _ => set_indices (<[i := x]> a) idx' x
      | None => Raise IndexError
      end
  end.

(** [a.sum()] and [a.mean()] of an array of booleans or of 0/1 bytes. *)
Definition bool_sum (a : list bool) : Z := Z.of_nat (length (filter (fun b => b = true) a)).
Definition bool_mean (a : list bool) : F :=
  f_div (f_of_Z (bool_sum a)) (f_of_Z (Z.of_nat (length a))).
Definition any (a : list bool) : bool := existsb (fun b => b) a.

(** [_reconcile]: the sums are unsigned 64-bit integers, their difference
    wraps around. *)
Definition _reconcile (bits_a bits_b : list bool) : Res (list Z) :=
  let parity := ((bool_sum bits_a - bool_sum bits_b) `mod` 2 ^ 64) `mod` 2 in
  res_bind
    (if parity =? 0 then Ok bits_b
     else match bits_b with
          | b :: rest => Ok (xorb b true :: rest)
          | [] => Raise IndexError
          end)
    (fun bits_b =>
       let mask := zip_with Bool.eqb bits_a bits_b in
       let aligned := select bits_a mask in
       Ok (sha3_256 (map Z.b2z aligned))).

(** The returned tuple
    [(success, qber, key_or_msg, yield_signal, yield_decoy)]. *)
Record Session : Type := {
  success : bool;
  qber : F;
  key_or_msg : string + list Z;
  yield_signal : F;
  yield_decoy : F
}.

(** Steps 1 to 5: everything up to the sifted strings and the yields. *)
Record Sifted : Type := {
  sift_A : list bool;
  sift_B : list bool;
  y_sig : F;
  y_dec : F
}.

Definition sift (n_qubits : Z) (p_noise : F) (pns : bool) : M Gen Sifted :=
  bits_A <- np_bits n_qubits ;;
  bases_A <- np_bits n_qubits ;;
  u_decoy <- np_random n_qubits ;;
  let is_decoy := map (fun u => f_ltb u (f_lit 0.25)) u_decoy in
  u_det <- np_random n_qubits ;;
  let detection := map (fun u => f_ltb u ETA) u_det in
  detection <-
    (if pns then
       u_pns <- np_random n_qubits ;;
       let block :=
         zip_with andb (zip_with andb is_decoy detection)
                  (map (fun u => f_ltb u PNS_DROP) u_pns) in
       ret (zip_with (fun d b : bool => if b then false else d) detection block)
     else ret detection) ;;
  bases_B <- np_bits n_qubits ;;
  let same := zip_with Bool.eqb bases_A bases_B in
  u_noise <- np_random n_qubits ;;
  let noise_flip := map (fun u => f_ltb u p_noise) u_noise in
  bits_B <- np_bits n_qubits ;;
  let bits_B :=
    zip_with (fun (s : bool) (bn : bool * bool) => if s then bn.1 else bn.2)
             same (zip (zip_with xorb bits_A noise_flip) bits_B) in
  let sig_mask := zip_with andb same (map negb is_decoy) in
  let decoy_mask := zip_with andb same is_decoy in
  ret {| sift_A := select bits_A same;
         sift_B := select bits_B same;
         y_sig := if any sig_mask
                  then bool_mean (select detection sig_mask) else f_lit 0;
         y_dec := if any decoy_mask
                  then bool_mean (select detection decoy_mask) else f_lit 0 |}.

(** Step 6: the disclosed sample and its error rate. *)
Definition sample_len (s : Sifted) : Z :=
  Z.max 1 (f_trunc (f_mul (f_of_Z (Z.of_nat (length (sift_A s)))) SAMPLE_FRAC)).

Definition sample_qber (s : Sifted) : M Gen (list nat * F) :=
  idx <- np_choice (length (sift_A s)) (Z.to_nat (sample_len s)) ;;
  a <- lift (take_indices (sift_A s) idx) ;;
  b <- lift (take_indices (sift_B s) idx) ;;
  ret (idx, bool_mean (zip_with (fun x y => negb (Bool.eqb x y)) a b)).

(** Step 8: the key. *)
Definition derive_key (s : Sifted) (idx : list nat) : Res (list Z) :=
  res_bind (set_indices (repeat true (length (sift_A s))) idx false) (fun keep =>
    _reconcile (select (sift_A s) keep) (select (sift_B s) keep)).

Definition decoy_message (delta_y : F) : string :=
  "Abort: decoy‑state anomaly (ΔY=" +:+ format_3f delta_y +:+ ")".

Definition run_bb84 (n_qubits : Z) (p_noise : F) (pns : bool) : M Gen Session :=
  s <- sift n_qubits p_noise pns ;;
  iq <- sample_qber s ;;
  let qber := iq.2 in
  if f_ltb QBER_LIMIT qber then
    ret {| success := false; qber := qber;
           key_or_msg := inl "Abort: QBER too high";
           yield_signal := y_sig s; yield_decoy := y_dec s |}
  else
    let delta_y := f_abs (f_sub (y_sig s) (y_dec s)) in
    if f_ltb DELTA_Y_LIM delta_y then
      ret {| success := false; qber := qber;
             key_or_msg := inl (decoy_message delta_y);
             yield_signal := y_sig s; yield_decoy := y_dec s |}
    else
      key_bytes <- lift (derive_key s iq.1) ;;
      ret {| success := true; qber := qber;
             key_or_msg := inr key_bytes;
             yield_signal := y_sig s; yield_decoy := y_dec s |}.
End BB84.
End BB84.

(** ** Evaluation instances and example networks.
    Everything below is executable: rational floats, generators that read
    a prepared list of samples, and a shortest-path search by enumeration
    of simple paths. *)

Module Examples.
(** [G.add_node(n, quantum=q, can_store_entanglement=c)] *)
Definition add_node (n : Z) (q c : bool) (G : Graph Q) : Graph Q :=
  {| nodes := <[n := {| node_quantum := q; can_store_entanglement := c |}]> (nodes G);
     adj := match adj G !! n with
            | Some _ => adj G
            | None => <[n := ∅]> (adj G)
            end |}.

(** [G.add_edge(u, v, quantum=q, distance_km=d)] between existing nodes:
    the edge is stored in both adjacency rows. *)
Definition add_edge (u v : Z) (q : bool) (d : Q) (G : Graph Q) : Graph Q :=
  let e := {| distance_km := d; quantum := q |} in
  let row (n : Z) (g : gmap Z (gmap Z (EdgeData Q))) := default ∅ (g !! n) in
  let a1 := <[u := <[v := e]> (row u (adj G))]> (adj G) in
  {| nodes := nodes G;
     adj := <[v := <[u := e]> (row v a1)]> a1 |}.

Definition empty_graph : Graph Q := {| nodes := ∅; adj := ∅ |}.

(** All simple paths from [here] to [dst], at most [n] edges long. *)
Fixpoint simple_paths (n : nat) (G : Graph Q) (visited : list Z) (here dst : Z)
  : list (list Z) :=
  if bool_decide (here = dst) then [[dst]]
  else
    match n with
    | O => []
    | S n' =>
        flat_map (fun kv : Z * EdgeData Q =>
                    if bool_decide (kv.1 ∈ here :: visited) then []
                    else map (cons here)
                             (simple_paths n' G (here :: visited) kv.1 dst))
                 (map_to_list (default ∅ (adj G !! here)))
    end.

Definition path_weight (G : Graph Q) (weight : option (EdgeData Q -> Q))
  (path : list Z) : Q :=
  fold_right (fun uv acc =>
                match edges_get G uv.1 uv.2, weight with
                | Ok d, Some w => Qred (w d + acc)
                | _, _ => Qred (1 + acc)
                end) 0%Q (path_edges path).

Definition lightest (G : Graph Q) (weight : option (EdgeData Q -> Q))
  (paths : list (list Z)) : option (list Z) :=
  fold_left (fun best p =>
               match best with
               | None => Some p
               | Some b => if Qltb (path_weight G weight p) (path_weight G weight b)
                           then Some p else Some b
               end) paths None.

#[export] Instance NetworkX_search : NetworkX Q := {|
  nx_shortest_path := fun G src dst weight =>
    if negb (bool_decide (is_Some (nodes G !! src)))
       || negb (bool_decide (is_Some (nodes G !! dst)))
    then Raise NodeNotFound
    else match lightest G weight
                 (simple_paths (size (nodes G)) G [] src dst) with
         | Some p => Ok p
         | None => Raise NetworkXNoPath
         end
|}.

(** The fallback policy that [create_policy_from_prompt] registers when
    the prompt mentions a distance: [nx.shortest_path] by [distance_km],
    with no [except]. *)
Definition heuristic : Policy Q := fun G src dst =>
  res_bind (nx_shortest_path G src dst (Some distance_km))
           (fun p => Ok (Some p)).

(** A numpy generator reading prepared samples, one list per kind of
    call. *)
Record Samples : Type := {
  s_ints : list Z;
  s_bits : list (list bool);
  s_uniform : list (list Q);
  s_choice : list (list nat)
}.

#[export] Instance NumpyGenerator_samples : NumpyGenerator Q Samples := {|
  gen_int := fun s =>
    (default 0 (head (s_ints s)),
     {| s_ints := drop 1 (s_ints s); s_bits := s_bits s;
        s_uniform := s_uniform s; s_choice := s_choice s |});
  gen_bits := fun s =>
    ((fun i => default false (default [] (head (s_bits s)) !! i)),
     {| s_ints := s_ints s; s_bits := drop 1 (s_bits s);
        s_uniform := s_uniform s; s_choice := s_choice s |});
  gen_uniform := fun s =>
    ((fun i => default 0%Q (default [] (head (s_uniform s)) !! i)),
     {| s_ints := s_ints s; s_bits := s_bits s;
        s_uniform := drop 1 (s_uniform s); s_choice := s_choice s |});
  gen_choice := fun m k s =>
    (default (seq 0 k) (head (s_choice s)),
     {| s_ints := s_ints s; s_bits := s_bits s;
        s_uniform := s_uniform s; s_choice := drop 1 (s_choice s) |})
|}.

(** Three nodes in a line, two classical links of 5 km. *)
Definition line_classical : Graph Q :=
  add_edge 1 2 false 5 (add_edge 0 1 false 5
    (add_node 2 false false (add_node 1 false false
      (add_node 0 false false empty_graph)))).

(** Three quantum-capable nodes in a line, two quantum links of 10 km. *)
Definition line_quantum : Graph Q :=
  add_edge 1 2 true 10 (add_edge 0 1 true 10
    (add_node 2 true true (add_node 1 true true
      (add_node 0 true true empty_graph)))).

(** Two quantum-capable nodes joined by one quantum link of 10 km. *)
Definition pair_quantum : Graph Q :=
  add_edge 0 1 true 10
    (add_node 1 true true (add_node 0 true true empty_graph)).

(** Two isolated nodes with one quantum link each to a third and fourth
    node: 0 -q- 1 and 2 -q- 3, no link between the two halves. *)
Definition split_quantum : Graph Q :=
  add_edge 2 3 true 10 (add_edge 0 1 true 10
    (add_node 3 true true (add_node 2 true true
      (add_node 1 true true (add_node 0 true true empty_graph))))).

(** A repeater environment on the quantum line, budget 1, two trials. *)
Definition line_env : Repeater.RepeaterEnv :=
  {| Repeater.G_orig := line_quantum; Repeater.src := 0; Repeater.dst := 2;
     Repeater.max_repeaters := 1; Repeater.trials := 2 |}.

(** Flips of nodes 0, 1, 0. *)
Definition line_flips : Samples :=
  {| s_ints := [0; 1; 0]; s_bits := []; s_uniform := []; s_choice := [] |}.

(** A session of one pulse whose bases differ: Alice draws bit 1 in basis
    0, Bob measures in basis 1. *)
Definition mismatch_samples : Samples :=
  {| s_ints := [];
     s_bits := [[true]; [false]; [true]; [false]];
     s_uniform := [[1 # 2]; [1 # 2]; [1 # 2]]%Q;
     s_choice := [] |}.

(** A session of two pulses, the second one a decoy, both detected, bases
    equal, no noise, the first sifted bit disclosed. *)
Definition clean_samples : Samples :=
  {| s_ints := [];
     s_bits := [[true; false]; [false; true]; [false; true]; [false; false]];
     s_uniform := [[1 # 2; 1 # 10]; [1 # 10; 1 # 10]; [1 # 2; 1 # 2]]%Q;
     s_choice := [[0%nat]] |}.
End Examples.

(** ** simulator.py: monte_carlo_compare *)

Section MonteCarlo.
Context {F Rng : Type} `{Float F} `{RandomSource F Rng}.

(** A row of the returned table: the metrics of one simulation with the
    ["trial"] column added. *)
Inductive TrialRecord : Type :=
| QuantumTrial (q : QuantumMetrics (F:=F)) (trial : Z)
| ClassicalTrial (c : ClassicalMetrics (F:=F)) (trial : Z).

Definition trial_of (r : TrialRecord) : Z :=
  match r with
  | QuantumTrial _ t | ClassicalTrial _ t => t
  end.

Definition hops_of (r : TrialRecord) : Z :=
  match r with
  | QuantumTrial q _ => q_hops q
  | ClassicalTrial c _ => c_hops c
  end.

Definition mode_of (r : TrialRecord) : string :=
  match r with
  | QuantumTrial q _ => q_mode q
  | ClassicalTrial c _ => c_mode c
  end.

(** [for t in range(trials)], [n] iterations being left from trial [t]. *)
Fixpoint monte_carlo_loop (n : nat) (t : Z) (G : Graph F) (path : list Z)
  (records : list TrialRecord) : M Rng (list TrialRecord) :=
  match n with
  | O => ret records
  | S n' =>
      q <- simulate_path_quantum G path ;;
      c <- simulate_path_classical G path ;;
      monte_carlo_loop n' (t + 1) G path
        (records ++ [QuantumTrial q t; ClassicalTrial c t])
  end.

Definition monte_carlo_compare (G : Graph F) (path : list Z) (trials : Z)
  : M Rng (list TrialRecord) :=
  monte_carlo_loop (Z.to_nat trials) 0 G path [].

(** The two rows of trial [t]: the quantum one and the classical one, with
    the hop count of the path and, for the classical one, its full
    distance. *)
Definition trial_rows (G : Graph F) (path : list Z) (t : Z)
  (qrow crow : TrialRecord) : Prop :=
  exists q c,
    qrow = QuantumTrial q t /\ crow = ClassicalTrial c t
    /\ q_hops q = Z.of_nat (length path) - 1
    /\ q_mode q = "quantum_path"
    /\ c_hops c = Z.of_nat (length path) - 1
    /\ c_mode c = "classical_path"
    /\ c_total_distance_km c = float_sum (f_lit 0) (edge_distances G path).
End MonteCarlo.

(** ** repeater_env.py: the Gym step *)

Module RepeaterStep.
Section RepeaterStep.
Context {F Rng : Type} `{Float F} `{RandomSource F Rng} `{NetworkX F}.
Import Repeater.

(** Index [i] into an array of length [n]: a negative index counts from
    the end, anything outside [-n, n) raises IndexError. *)
Definition np_index (n : nat) (i : Z) : Res nat :=
  if (0 <=? i) && (i <? Z.of_nat n) then Ok (Z.to_nat i)
  else if (- Z.of_nat n <=? i) && (i <? 0) then Ok (Z.to_nat (i + Z.of_nat n))
  else Raise IndexError.

(** The returned tuple [(observation, reward, done, truncated, info)];
    [info] is always the empty dictionary. *)
Record StepResult : Type := {
  observation : list Z;
  reward : F;
  done : bool;
  truncated : bool
}.

(** [step(action)] on an environment whose mask is [repeaters]: the new
    mask [env.repeaters] and the returned tuple. *)
Definition step (env : RepeaterEnv (F:=F)) (repeaters : list Z) (action : Z)
  : M Rng (list Z * StepResult) :=
  i <- lift (np_index (length repeaters) action) ;;
  let toggled := alter (fun b => Z.lxor b 1) i repeaters in
  if max_repeaters env <? mask_sum toggled then
    let restored := alter (fun b => Z.lxor b 1) i toggled in
    ret (restored, {| observation := restored; reward := f_lit (-0.5);
                      done := true; truncated := false |})
  else
    r <- _compute_reward env toggled ;;
    ret (toggled, {| observation := toggled; reward := r;
                     done := true; truncated := false |}).
End RepeaterStep.
End RepeaterStep.

(** ** network_builder.py *)

Module NetworkBuilder.
Section NetworkBuilder.
Context {F Rng : Type} `{Float F} `{RandomSource F Rng}.

(** [round(x, 2)] *)
Variable round2 : F -> F.

(** [rng.uniform(a, b)]: [a + (b - a) * random()]. *)
Definition rng_uniform (a b : F) : M Rng F :=
  r <- draw rng_random ;;
  ret (f_add a (f_mul (f_sub b a) r)).

(** [G.add_node(n, quantum=q, can_store_entanglement=c)]: a new node gets
    an empty adjacency row, an existing one keeps its row. *)
Definition nx_add_node (n : Z) (q c : bool) (G : Graph F) : Graph F :=
  {| nodes := <[n := {| node_quantum := q; can_store_entanglement := c |}]> (nodes G);
     adj := match adj G !! n with
            | Some _ => adj G
            | None => <[n := ∅]> (adj G)
            end |}.

(** The nodes [G.add_edge] creates when an endpoint is missing: no
    attribute, an empty row. *)
Definition nx_touch_node (n : Z) (G : Graph F) : Graph F :=
  match nodes G !! n with
  | Some _ => G
  | None => nx_add_node n false false G
  end.

(** [G.add_edge(u, v, quantum=q, distance_km=d)]: the attributes are
    stored in both adjacency rows. *)
Definition nx_add_edge (u v : Z) (q : bool) (d : F) (G : Graph F) : Graph F :=
  let G := nx_touch_node v (nx_touch_node u G) in
  let e := {| distance_km := d; quantum := q |} in
  let row (n : Z) (g : gmap Z (gmap Z (EdgeData F))) := default ∅ (g !! n) in
  let a1 := <[u := <[v := e]> (row u (adj G))]> (adj G) in
  {| nodes := nodes G;
     adj := <[v := <[u := e]> (row v a1)]> a1 |}.

(** The first loop: one node per index, with its two flags; the second
    draw is made only for a quantum node. *)
Fixpoint add_nodes (ids : list Z) (quantum_ratio : F) (G : Graph F)
  : M Rng (Graph F) :=
  match ids with
  | [] => ret G
  | i :: ids' =>
      r <- draw rng_random ;;
      let is_quantum := f_ltb r quantum_ratio in
      can_store <-
        (if is_quantum then r2 <- draw rng_random ;; ret (f_ltb r2 (f_lit 0.6))
         else ret false) ;;
      add_nodes ids' quantum_ratio (nx_add_node i is_quantum can_store G)
  end.

(** [G.nodes[i]["quantum"] and G.nodes[j]["quantum"]] *)
Definition is_quantum_link (G : Graph F) (i j : Z) : Res bool :=
  res_bind (nodes_get G i) (fun ni =>
    if node_quantum ni
    then res_bind (nodes_get G j) (fun nj => Ok (node_quantum nj))
    else Ok false).

(** [for j in range(i + 1, num_nodes)] *)
Fixpoint add_edges_from (i : Z) (js : list Z) (edge_prob : F)
  (dist_range_km : F * F) (G : Graph F) : M Rng (Graph F) :=
  match js with
  | [] => ret G
  | j :: js' =>
      r <- draw rng_random ;;
      if f_ltb r edge_prob then
        dist <- rng_uniform dist_range_km.1 dist_range_km.2 ;;
        q <- lift (is_quantum_link G i j) ;;
        add_edges_from i js' edge_prob dist_range_km
          (nx_add_edge i j q (round2 dist) G)
      else add_edges_from i js' edge_prob dist_range_km G
  end.

(** [range(a, b)] *)
Definition py_range (a b : Z) : list Z :=
  map (fun k => a + Z.of_nat k) (seq 0 (Z.to_nat (b - a))).

(** [for i in range(num_nodes)] of the second loop. *)
Fixpoint add_edges (is_ : list Z) (num_nodes : Z) (edge_prob : F)
  (dist_range_km : F * F) (G : Graph F) : M Rng (Graph F) :=
  match is_ with
  | [] => ret G
  | i :: is' =>
      G' <- add_edges_from i (py_range (i + 1) num_nodes) edge_prob
              dist_range_km G ;;
      add_edges is' num_nodes edge_prob dist_range_km G'
  end.

(** [build_hybrid_graph]; the generator is [random.Random(seed)]. *)
Definition build_hybrid_graph (num_nodes : Z) (quantum_ratio edge_prob : F)
  (dist_range_km : F * F) : M Rng (Graph F) :=
  let G := {| nodes := ∅; adj := ∅ |} in
  G <- add_nodes (py_range 0 num_nodes) quantum_ratio G ;;
  add_edges (py_range 0 num_nodes) num_nodes edge_prob dist_range_km G.

(** What the builder guarantees of its graph. *)
Record built_graph (num_nodes : Z) (G : Graph F) : Prop := {
  bg_nodes : forall n, is_Some (nodes G !! n) <-> 0 <= n < num_nodes;
  bg_storage : forall n nd,
    nodes G !! n = Some nd ->
    can_store_entanglement nd = true -> node_quantum nd = true;
  bg_edges : forall u v d,
    edges_get G u v = Ok d ->
    u <> v
    /\ edges_get G v u = Ok d
    /\ exists nu nv,
         nodes G !! u = Some nu /\ nodes G !! v = Some nv
         /\ quantum d = node_quantum nu && node_quantum nv
}.
End NetworkBuilder.
End NetworkBuilder.

(** ** plot_link_behavior.py: composite_cost *)

Section CompositeCost.
Context {F : Type} `{Float F}.


End CompositeCost.

(** ** Routing: hops over classical links *)

Section ClassicalHops.
Context {F : Type}.

(** The hop is an edge of the graph and not a quantum link. *)
Definition classical_hop (G : Graph F) (uv : Z * Z) : Prop :=
  exists d, edges_get G uv.1 uv.2 = Ok d /\ quantum d = false.
End ClassicalHops.
(** * Properties *)

(** ** Link models *)

Section LinkModelFacts.
Context {F Rng : Type} `{Float F} `{RandomSource F Rng}.

Lemma simulate_quantum_hop_returns (e : EdgeData F) (rng : Rng) :
  exists ok m rng',
    simulate_quantum_hop e rng = Ok ((ok, m), rng')
    /\ qh_distance_km m = distance_km e.
Proof.
  unfold simulate_quantum_hop, bind, draw, ret.
  destruct (quantum e); simpl; destruct (rng_random rng); eauto.
Qed.

Lemma simulate_entanglement_swap_returns (can_swap : bool) (rng : Rng) :
  exists ok p rng', simulate_entanglement_swap can_swap rng = Ok ((ok, p), rng').
Proof.
  unfold simulate_entanglement_swap, bind, draw, ret.
  destruct can_swap; simpl; [destruct (rng_random rng) |]; eauto.
Qed.

Lemma simulate_entanglement_swap_cannot (rng : Rng) :
  simulate_entanglement_swap false rng = Ok ((false, f_lit 0), rng).
Proof. reflexivity. Qed.

Lemma simulate_classical_hop_returns (e : EdgeData F) (rng : Rng) :
  exists ok m rng',
    simulate_classical_hop e rng = Ok ((ok, m), rng')
    /\ ch_distance_km m = distance_km e.
Proof.
  unfold simulate_classical_hop, classical_loss_prob, classical_latency_ms,
    bind, draw, ret.
  destruct (rng_gauss _ _ rng) as [g r1]; simpl.
  destruct (rng_random r1) as [x r2]; simpl.
  destruct (rng_gauss _ _ r2) as [j r3]; simpl.
  eauto.
Qed.
End LinkModelFacts.

(** ** Path simulators *)

Section SimulatorFacts.
Context {F Rng : Type} `{Float F} `{RandomSource F Rng}.
Implicit Types (G : Graph F) (path : list Z) (rng : Rng).

Lemma edges_present_cons G u v rest :
  edges_present G (u :: v :: rest) = true ->
  (exists d, edges_get G u v = Ok d) /\ edges_present G (v :: rest) = true.
Proof.
  unfold edges_present; simpl.
  destruct (edges_get G u v) eqn:E; simpl; try discriminate.
  intros Hrest; split; eauto.
Qed.

Lemma nodes_present_cons G u rest :
  nodes_present G (u :: rest) = true ->
  (exists d, nodes_get G u = Ok d) /\ nodes_present G rest = true.
Proof.
  unfold nodes_present; simpl.
  destruct (nodes_get G u) eqn:E; simpl; try discriminate.
  intros Hrest; split; eauto.
Qed.

Lemma float_sum_cons (acc x : F) (l : list F) :
  float_sum acc (x :: l) = float_sum (f_add acc x) l.
Proof. reflexivity. Qed.

(** *** The classical walk *)

Lemma classical_loop_step G u v rest metrics rng d sm rng1 :
  edges_get G u v = Ok d ->
  simulate_classical_hop d rng = Ok (sm, rng1) ->
  classical_loop G (u :: v :: rest) metrics rng =
    classical_loop G (v :: rest) (classical_update metrics u v sm) rng1.
Proof.
  intros Hd Hhop.
  change (classical_loop G (u :: v :: rest) metrics rng)
    with ((edge_data <- lift (edges_get G u v) ;;
           sm <- simulate_classical_hop edge_data ;;
           classical_loop G (v :: rest) (classical_update metrics u v sm)) rng).
  unfold bind, lift. rewrite Hd, Hhop. reflexivity.
Qed.

Lemma classical_attempts_step G u v rest rng d sm rng1 :
  edges_get G u v = Ok d ->
  simulate_classical_hop d rng = Ok (sm, rng1) ->
  classical_attempts G (u :: v :: rest) rng =
    {| ca_edge := (u, v);
       ca_distance_km := ch_distance_km (snd sm);
       ca_latency_ms := ch_latency_ms (snd sm);
       ca_ok := fst sm; ca_after := rng1 |}
    :: classical_attempts G (v :: rest) rng1.
Proof.
  intros Hd Hhop.
  change (classical_attempts G (u :: v :: rest) rng)
    with (match (edge_data <- lift (edges_get G u v) ;;
                 simulate_classical_hop edge_data) rng with
          | Ok (sm, rng1) =>
              {| ca_edge := (u, v);
                 ca_distance_km := ch_distance_km (snd sm);
                 ca_latency_ms := ch_latency_ms (snd sm);
                 ca_ok := fst sm; ca_after := rng1 |}
              :: classical_attempts G (v :: rest) rng1
          | _ => []
          end).
  unfold bind, lift. rewrite Hd, Hhop. reflexivity.
Qed.

Lemma final_state_cons rng (a : @ClassicalAttempt F Rng) l :
  final_state rng (a :: l) = final_state (ca_after a) l.
Proof.
  unfold final_state. rewrite last_cons. destruct (last l); reflexivity.
Qed.

Lemma classical_loop_spec G path :
  edges_present G path = true ->
  forall metrics rng,
    let attempts := classical_attempts G path rng in
    classical_loop G path metrics rng =
      Ok ({| c_hops := c_hops metrics;
             c_mode := c_mode metrics;
             c_total_distance_km :=
               float_sum (c_total_distance_km metrics)
                         (map ca_distance_km attempts);
             c_total_latency_ms :=
               float_sum (c_total_latency_ms metrics)
                         (map ca_latency_ms attempts);
             c_success := c_success metrics && forallb ca_ok attempts;
             c_lost_hop :=
               if c_success metrics
               then match List.find (fun a => negb (ca_ok a)) attempts with
                    | Some a => Some (ca_edge a)
                    | None => c_lost_hop metrics
                    end
               else c_lost_hop metrics |},
          final_state rng attempts)
    /\ map ca_edge attempts = path_edges path
    /\ map ca_distance_km attempts = edge_distances G path.
Proof.
  induction path as [|u tl IH]; intros Hp metrics rng.
  - simpl. destruct metrics as [h m d l s lh]; simpl.
    rewrite andb_true_r. destruct s; auto.
  - destruct tl as [|v rest].
    + simpl. destruct metrics as [h m d l s lh]; simpl.
      rewrite andb_true_r. destruct s; auto.
    + apply edges_present_cons in Hp as [[d Hd] Hrest].
      specialize (IH Hrest).
      destruct (simulate_classical_hop_returns d rng)
        as (ok & hm & rng1 & Hhop & Hdist).
      intros attempts. subst attempts.
      rewrite (classical_attempts_step _ _ _ _ _ _ _ _ Hd Hhop).
      rewrite (classical_loop_step _ _ _ _ _ _ _ _ _ Hd Hhop).
      destruct (IH (classical_update metrics u v (ok, hm)) rng1)
        as (Hrun & Hedges & Hdists).
      rewrite Hrun. rewrite final_state_cons.
      cbn [map forallb List.find ca_ok ca_edge ca_distance_km ca_latency_ms
           ca_after fst snd].
      rewrite !float_sum_cons.
      split; [| split].
      * unfold classical_update; cbn [fst snd c_hops c_mode c_success
          c_lost_hop c_total_distance_km c_total_latency_ms].
        destruct ok, (c_success metrics); reflexivity.
      * change (path_edges (u :: v :: rest))
          with ((u, v) :: path_edges (v :: rest)).
        f_equal. exact Hedges.
      * unfold edge_distances.
        change (path_edges (u :: v :: rest))
          with ((u, v) :: path_edges (v :: rest)).
        cbn [omap list_omap fst snd]. rewrite Hd. rewrite Hdist.
        f_equal. exact Hdists.
Qed.

(** *** The quantum walk *)

Lemma node_can_swap_present G v nd :
  nodes_get G v = Ok nd ->
  _node_can_swap G v = Ok (can_store_entanglement nd).
Proof. unfold _node_can_swap. intros ->. reflexivity. Qed.

Lemma quantum_loop_last G u v metrics rng d sm rng1 :
  edges_get G u v = Ok d ->
  simulate_quantum_hop d rng = Ok (sm, rng1) ->
  quantum_loop G [u; v] metrics rng =
    Ok (let m := q_add_distance metrics (qh_distance_km (snd sm)) in
        if fst sm then q_set_success m true else m, rng1).
Proof.
  intros Hd Hhop.
  change (quantum_loop G [u; v] metrics rng)
    with ((edge_data <- lift (edges_get G u v) ;;
           sm <- simulate_quantum_hop edge_data ;;
           let metrics := q_add_distance metrics (qh_distance_km (snd sm)) in
           if negb (fst sm) then ret metrics
           else ret (q_set_success metrics true)) rng).
  unfold bind, lift. rewrite Hd, Hhop.
  destruct sm as [[] hm]; reflexivity.
Qed.

Lemma quantum_loop_step G u v w rest metrics rng d sm rng1 can sp rng2 :
  edges_get G u v = Ok d ->
  simulate_quantum_hop d rng = Ok (sm, rng1) ->
  _node_can_swap G v = Ok can ->
  simulate_entanglement_swap can rng1 = Ok (sp, rng2) ->
  quantum_loop G (u :: v :: w :: rest) metrics rng =
    let m := q_add_distance metrics (qh_distance_km (snd sm)) in
    if negb (fst sm) then Ok (m, rng1)
    else if negb (fst sp) then Ok (m, rng2)
         else quantum_loop G (v :: w :: rest) m rng2.
Proof.
  intros Hd Hhop Hn Hswap.
  change (quantum_loop G (u :: v :: w :: rest) metrics rng)
    with ((edge_data <- lift (edges_get G u v) ;;
           sm <- simulate_quantum_hop edge_data ;;
           let metrics := q_add_distance metrics (qh_distance_km (snd sm)) in
           if negb (fst sm) then ret metrics
           else
             can_swap <- lift (_node_can_swap G v) ;;
             sp <- simulate_entanglement_swap can_swap ;;
             if negb (fst sp) then ret metrics
             else quantum_loop G (v :: w :: rest) metrics) rng).
  unfold bind at 1 2. unfold lift at 1. rewrite Hd, Hhop.
  destruct sm as [[] hm]; cbn [fst snd negb]; [| reflexivity].
  unfold bind, lift. rewrite Hn, Hswap.
  destruct sp as [[] p]; reflexivity.
Qed.

Lemma quantum_attempts_last G u v rng d sm rng1 :
  edges_get G u v = Ok d ->
  simulate_quantum_hop d rng = Ok (sm, rng1) ->
  quantum_attempts G [u; v] rng =
    [{| qa_edge := (u, v);
        qa_distance_km := qh_distance_km (snd sm);
        qa_hop_ok := fst sm; qa_after_hop := rng1;
        qa_swap_ok := None; qa_after_swap := rng1 |}].
Proof.
  intros Hd Hhop. cbn [quantum_attempts].
  unfold bind, lift. rewrite Hd, Hhop. reflexivity.
Qed.

Lemma quantum_attempts_step G u v w rest rng d sm rng1 can sp rng2 :
  edges_get G u v = Ok d ->
  simulate_quantum_hop d rng = Ok (sm, rng1) ->
  _node_can_swap G v = Ok can ->
  simulate_entanglement_swap can rng1 = Ok (sp, rng2) ->
  quantum_attempts G (u :: v :: w :: rest) rng =
    {| qa_edge := (u, v);
       qa_distance_km := qh_distance_km (snd sm);
       qa_hop_ok := fst sm; qa_after_hop := rng1;
       qa_swap_ok := Some (fst sp); qa_after_swap := rng2 |}
    :: quantum_attempts G (v :: w :: rest) rng2.
Proof.
  intros Hd Hhop Hn Hswap.
  change (quantum_attempts G (u :: v :: w :: rest) rng)
    with (match (edge_data <- lift (edges_get G u v) ;;
                 simulate_quantum_hop edge_data) rng with
          | Ok (sm, rng1) =>
              match (can_swap <- lift (_node_can_swap G v) ;;
                     simulate_entanglement_swap can_swap) rng1 with
              | Ok (sp, rng2) =>
                  {| qa_edge := (u, v);
                     qa_distance_km := qh_distance_km (snd sm);
                     qa_hop_ok := fst sm; qa_after_hop := rng1;
                     qa_swap_ok := Some (fst sp); qa_after_swap := rng2 |}
                  :: quantum_attempts G (v :: w :: rest) rng2
              | _ => []
              end
          | _ => []
          end).
  unfold bind, lift. rewrite Hd, Hhop, Hn, Hswap. reflexivity.
Qed.

Lemma state_after_cons rng (a : @QuantumAttempt F Rng) l :
  qa_hop_ok a = true ->
  state_after rng (a :: l) = state_after (qa_after_swap a) l.
Proof.
  intros Hok. unfold state_after. rewrite last_cons.
  destruct (last l); [reflexivity |]. rewrite Hok. reflexivity.
Qed.

Lemma quantum_loop_spec G path :
  edges_present G path = true ->
  nodes_present G path = true ->
  forall metrics rng,
    let all := quantum_attempts G path rng in
    let done := upto_first_failure all in
    quantum_loop G path metrics rng =
      Ok ({| q_hops := q_hops metrics;
             q_mode := q_mode metrics;
             q_total_distance_km :=
               float_sum (q_total_distance_km metrics)
                         (map qa_distance_km done);
             q_success :=
               if forallb qa_ok all then true else q_success metrics |},
          state_after rng done)
    /\ map qa_edge all = path_edges path
    /\ map qa_distance_km all = edge_distances G path.
Proof.
  induction path as [|u tl IH]; intros Hp Hn metrics rng.
  - destruct metrics; auto.
  - destruct tl as [|v rest]; [destruct metrics; auto |].
    apply edges_present_cons in Hp as [[d Hd] Hrest].
    apply nodes_present_cons in Hn as [_ Hn].
    specialize (IH Hrest Hn).
    destruct (simulate_quantum_hop_returns d rng)
      as (ok & hm & rng1 & Hhop & Hdist).
    assert (Hdists : edge_distances G (u :: v :: rest)
                     = distance_km d :: edge_distances G (v :: rest)).
    { unfold edge_distances.
      change (path_edges (u :: v :: rest))
        with ((u, v) :: path_edges (v :: rest)).
      cbn [omap list_omap fst snd]. rewrite Hd. reflexivity. }
    destruct rest as [|w rest].
    + intros all done. subst done all.
      rewrite (quantum_attempts_last _ _ _ _ _ _ _ Hd Hhop).
      rewrite (quantum_loop_last _ _ _ _ _ _ _ _ Hd Hhop).
      rewrite Hdists. cbn [fst snd]. rewrite Hdist.
      split; [| split; reflexivity].
      destruct ok; destruct metrics; reflexivity.
    + destruct (nodes_present_cons _ _ _ Hn) as [[nd Hnd] _].
      pose proof (node_can_swap_present _ _ _ Hnd) as Hcan.
      destruct (simulate_entanglement_swap_returns
                  (can_store_entanglement nd) rng1)
        as (sok & p & rng2 & Hswap).
      intros all done. subst done all.
      rewrite (quantum_attempts_step _ _ _ _ _ _ _ _ _ _ _ _
                 Hd Hhop Hcan Hswap).
      rewrite (quantum_loop_step _ _ _ _ _ _ _ _ _ _ _ _ _
                 Hd Hhop Hcan Hswap).
      destruct (IH (q_add_distance metrics (qh_distance_km hm)) rng2)
        as (Hrun & Hedges & Hds).
      rewrite Hdists. cbn [fst snd map qa_distance_km qa_edge].
      split; [| split].
      * destruct ok; cbn [negb].
        -- destruct sok; cbn [negb].
           ++ rewrite Hrun.
              cbn [upto_first_failure forallb qa_ok qa_hop_ok qa_swap_ok
                   default from_option Datatypes.id andb map].
              rewrite state_after_cons by reflexivity.
              rewrite float_sum_cons.
              destruct metrics; reflexivity.
           ++ destruct metrics; reflexivity.
        -- destruct metrics; reflexivity.
      * change (path_edges (u :: v :: w :: rest))
          with ((u, v) :: path_edges (v :: w :: rest)).
        f_equal. exact Hedges.
      * rewrite Hdist. f_equal. exact Hds.
Qed.
End SimulatorFacts.

Section SimulatorTheorems.
Context {F Rng : Type} `{Float F} `{RandomSource F Rng}.
Implicit Types (G : Graph F) (path : list Z) (rng : Rng).

Lemma upto_first_failure_spec (l : list (@QuantumAttempt F Rng)) :
  forallb qa_ok l = false ->
  exists k a,
    l !! k = Some a /\ qa_ok a = false
    /\ (forall j b, (j < k)%nat -> l !! j = Some b -> qa_ok b = true)
    /\ upto_first_failure l = take (S k) l.
Proof.
  induction l as [|a l IH]; [discriminate |].
  cbn [forallb upto_first_failure].
  destruct (qa_ok a) eqn:Ea; cbn [andb].
  - intros Hl. destruct (IH Hl) as (k & b & Hk & Hb & Hbefore & Htake).
    exists (S k), b. split; [exact Hk |]. split; [exact Hb |]. split.
    + intros [|j] c Hj Hc; [injection Hc as <-; exact Ea |].
      apply (Hbefore j); [lia | exact Hc].
    + rewrite Htake. reflexivity.
  - intros _. exists 0%nat, a. split; [reflexivity |]. split; [exact Ea |].
    split.
    + intros j b Hj. lia.
    + reflexivity.
Qed.

(** C3.  On a path of at least two nodes whose consecutive nodes are
    joined by edges, [simulate_path_classical] returns; it simulates one
    hop per edge of the path, in order, whatever the earlier outcomes;
    [hops] is [len(path) - 1]; [total_distance_km] is the sum, accumulated
    in path order from 0.0, of the distances of the edges of the path;
    [success] is true exactly when no hop was lost; and [lost_hop] holds
    the endpoints of the first lost hop. *)
Theorem simulate_path_classical_walks_every_edge G path rng :
  (2 <= length path)%nat ->
  edges_present G path = true ->
  let attempts := classical_attempts G path rng in
  exists m,
    simulate_path_classical G path rng = Ok (m, final_state rng attempts)
    /\ map ca_edge attempts = path_edges path
    /\ c_hops m = Z.of_nat (length path) - 1
    /\ c_total_distance_km m = float_sum (f_lit 0) (edge_distances G path)
    /\ c_success m = forallb ca_ok attempts
    /\ c_lost_hop m
       = ca_edge <$> List.find (fun a => negb (ca_ok a)) attempts.
Proof.
  intros _ Hp attempts. unfold simulate_path_classical.
  match goal with
  | |- context [classical_loop G path ?m0 rng] =>
      destruct (classical_loop_spec G path Hp m0 rng) as (Hrun & He & Hd)
  end.
  fold attempts in Hrun, He, Hd.
  eexists. split; [exact Hrun |].
  cbn [c_hops c_total_distance_km c_success c_lost_hop andb].
  rewrite Hd. repeat split; auto.
Qed.

(** C2, as the code has it.  On a path of at least two nodes that lies in
    the graph, [simulate_path_quantum] returns; [success] is true exactly
    when every hop draw and every swap draw at an intermediate node
    succeeds; the walk stops at the first failed draw (the generator is
    left as it was after that draw); on a failure [total_distance_km] is
    the sum of the distances of the hops up to and including the failing
    one (the hop before a failed swap); [hops] is always
    [len(path) - 1]. *)
Theorem simulate_path_quantum_fail_fast G path rng :
  (2 <= length path)%nat ->
  edges_present G path = true ->
  nodes_present G path = true ->
  let all := quantum_attempts G path rng in
  let done := upto_first_failure all in
  exists m,
    simulate_path_quantum G path rng = Ok (m, state_after rng done)
    /\ map qa_edge all = path_edges path
    /\ map qa_distance_km all = edge_distances G path
    /\ q_success m = forallb qa_ok all
    /\ q_hops m = Z.of_nat (length path) - 1
    /\ q_total_distance_km m = float_sum (f_lit 0) (map qa_distance_km done)
    /\ (q_success m = false ->
        exists k a,
          all !! k = Some a /\ qa_ok a = false
          /\ (forall j b, (j < k)%nat -> all !! j = Some b -> qa_ok b = true)
          /\ done = take (S k) all).
Proof.
  intros _ Hp Hn all done. unfold simulate_path_quantum.
  match goal with
  | |- context [quantum_loop G path ?m0 rng] =>
      destruct (quantum_loop_spec G path Hp Hn m0 rng) as (Hrun & He & Hd)
  end.
  fold all in Hrun, He, Hd. fold done in Hrun.
  eexists. split; [exact Hrun |].
  cbn [q_hops q_total_distance_km q_success].
  repeat split; auto.
  - destruct (forallb qa_ok all); reflexivity.
  - intros Hfail. apply upto_first_failure_spec.
    destruct (forallb qa_ok all); [discriminate | reflexivity].
Qed.

(** C10.  On a single-node path both simulators return at once, without
    any lookup in the graph and without any draw: [hops] is 0,
    [total_distance_km] is 0.0 and [success] is true. *)
Theorem single_node_path_succeeds G (n : Z) rng :
  simulate_path_quantum G [n] rng
    = Ok ({| q_hops := 0; q_mode := "quantum_path";
             q_total_distance_km := f_lit 0; q_success := true |}, rng)
  /\ simulate_path_classical G [n] rng
     = Ok ({| c_hops := 0; c_mode := "classical_path";
              c_total_distance_km := f_lit 0;
              c_total_latency_ms := f_lit 0;
              c_success := true; c_lost_hop := None |}, rng).
Proof. split; reflexivity. Qed.
End SimulatorTheorems.

Import Examples.

Lemma simulate_path_classical_walks_every_edge_witness :
  (2 <= length [0; 1; 2])%nat
  /\ edges_present line_classical [0; 1; 2] = true
  /\ let rng := [0; 1 # 2; 0; 0; 0; 0]%Q in
     let attempts := classical_attempts line_classical [0; 1; 2] rng in
     exists m,
       simulate_path_classical line_classical [0; 1; 2] rng
         = Ok (m, final_state rng attempts)
       /\ map ca_edge attempts = path_edges [0; 1; 2]
       /\ c_hops m = Z.of_nat (length [0; 1; 2]) - 1
       /\ c_total_distance_km m
          = float_sum (f_lit 0) (edge_distances line_classical [0; 1; 2])
       /\ c_success m = forallb ca_ok attempts
       /\ c_lost_hop m
          = ca_edge <$> List.find (fun a => negb (ca_ok a)) attempts.
Proof.
  split; [simpl; lia |]. split; [vm_compute; reflexivity |].
  apply (simulate_path_classical_walks_every_edge line_classical [0; 1; 2]
           [0; 1 # 2; 0; 0; 0; 0]%Q).
  - simpl; lia.
  - vm_compute; reflexivity.
Defined.

Lemma simulate_path_quantum_fail_fast_witness :
  (2 <= length [0; 1; 2])%nat
  /\ edges_present line_quantum [0; 1; 2] = true
  /\ nodes_present line_quantum [0; 1; 2] = true
  /\ let rng := [1 # 2; 1 # 2; 99 # 100]%Q in
     let all := quantum_attempts line_quantum [0; 1; 2] rng in
     let done := upto_first_failure all in
     exists m,
       simulate_path_quantum line_quantum [0; 1; 2] rng
         = Ok (m, state_after rng done)
       /\ map qa_edge all = path_edges [0; 1; 2]
       /\ map qa_distance_km all = edge_distances line_quantum [0; 1; 2]
       /\ q_success m = forallb qa_ok all
       /\ q_hops m = Z.of_nat (length [0; 1; 2]) - 1
       /\ q_total_distance_km m = float_sum (f_lit 0) (map qa_distance_km done)
       /\ (q_success m = false ->
           exists k a,
             all !! k = Some a /\ qa_ok a = false
             /\ (forall j b, (j < k)%nat -> all !! j = Some b -> qa_ok b = true)
             /\ done = take (S k) all).
Proof.
  split; [simpl; lia |]. split; [vm_compute; reflexivity |].
  split; [vm_compute; reflexivity |].
  apply (simulate_path_quantum_fail_fast line_quantum [0; 1; 2]
           [1 # 2; 1 # 2; 99 # 100]%Q).
  - simpl; lia.
  - vm_compute; reflexivity.
  - vm_compute; reflexivity.
Defined.

(** C2 as the spec words it fails: when the first of two hops fails, the
    returned [hops] is 2, not the single hop that was attempted. *)
Lemma hops_count_attempted_fails :
  ~ hops_count_attempted line_quantum [0; 1; 2] [99 # 100]%Q.
Proof.
  intros Hclaim.
  assert (Hrun : simulate_path_quantum line_quantum [0; 1; 2] [99 # 100]%Q
                 = Ok ({| q_hops := 2; q_mode := "quantum_path";
                          q_total_distance_km := 10%Q;
                          q_success := false |}, []))
    by (vm_compute; reflexivity).
  specialize (Hclaim _ _ Hrun eq_refl).
  vm_compute in Hclaim. discriminate Hclaim.
Qed.

(** ** The survival probability, on the reals *)

Section SurvivalProbability.
Local Open Scope R_scope.

Lemma py_max_R (a b : R) : py_max a b = Rmax a b.
Proof.
  unfold py_max, Rmax; cbn [f_ltb Float_R]; unfold Rltb.
  destruct (Rlt_dec a b), (Rle_dec a b); lra.
Qed.

Lemma py_min_R (a b : R) : py_min a b = Rmin a b.
Proof.
  unfold py_min, Rmin; cbn [f_ltb Float_R]; unfold Rltb.
  destruct (Rlt_dec b a), (Rle_dec a b); lra.
Qed.

Lemma quantum_survival_prob_clip (d : R) :
  quantum_survival_prob d = Rmax 0 (Rmin 1 (exp (- d / 50))).
Proof.
  unfold quantum_survival_prob, COHERENCE_LENGTH_KM.
  rewrite py_max_R, py_min_R. cbn [f_lit f_exp f_div f_neg Float_R].
  replace (Q2R 0) with 0 by (unfold Q2R; simpl; lra).
  replace (Q2R 1) with 1 by (unfold Q2R; simpl; lra).
  replace (Q2R 50) with 50 by (unfold Q2R; simpl; lra).
  reflexivity.
Qed.

Lemma exp_decay_le (d1 d2 : R) :
  d1 <= d2 -> exp (- d2 / 50) <= exp (- d1 / 50).
Proof.
  intros Hle. destruct (Req_dec d1 d2) as [-> | Hne]; [lra |].
  left. apply exp_increasing. lra.
Qed.

(** C7.  On the reals, for distances [0 <= d1 <= d2]:
    [quantum_survival_prob d1] is [exp(-d1/50)] clipped to [0,1], lies in
    [0,1], [quantum_survival_prob 0] is 1, and the probability does not
    increase with the distance. *)
Theorem quantum_survival_prob_properties (d1 d2 : R) :
  0 <= d1 -> d1 <= d2 ->
  quantum_survival_prob d1 = Rmax 0 (Rmin 1 (exp (- d1 / 50)))
  /\ 0 <= quantum_survival_prob d1 <= 1
  /\ quantum_survival_prob 0 = 1
  /\ quantum_survival_prob d2 <= quantum_survival_prob d1.
Proof.
  intros H0 Hle. rewrite !quantum_survival_prob_clip.
  split; [reflexivity |].
  pose proof (exp_pos (- d1 / 50)) as Hp1.
  pose proof (exp_pos (- d2 / 50)) as Hp2.
  pose proof (exp_decay_le d1 d2 Hle) as Hmono.
  assert (H1 : exp (- d1 / 50) <= 1).
  { pose proof (exp_decay_le 0 d1 H0) as Hd.
    replace (- 0 / 50) with 0 in Hd by lra. rewrite exp_0 in Hd. exact Hd. }
  assert (Hclip : forall p, 0 < p -> p <= 1 -> Rmax 0 (Rmin 1 p) = p).
  { intros p Hp Hp'. rewrite Rmin_right by lra. apply Rmax_right. lra. }
  replace (- 0 / 50) with 0 by lra. rewrite exp_0.
  rewrite !Hclip by lra. lra.
Qed.

Lemma quantum_survival_prob_properties_witness :
  0 <= 0 /\ 0 <= 10
  /\ quantum_survival_prob 0 = Rmax 0 (Rmin 1 (exp (- 0 / 50)))
  /\ 0 <= quantum_survival_prob 0 <= 1
  /\ quantum_survival_prob 0 = 1
  /\ quantum_survival_prob 10 <= quantum_survival_prob 0.
Proof.
  split; [lra |]. split; [lra |].
  apply (quantum_survival_prob_properties 0 10); lra.
Defined.
End SurvivalProbability.

(** ** Routing engine *)

Section RoutingTheorems.
Context {F Rng : Type} `{Float F} `{RandomSource F Rng} `{NetworkX F}.
Implicit Types (G : Graph F) (rng : Rng) (POLICIES : gmap string (Policy F)).
Import Routing.

Lemma simulate_path_quantum_returns G path rng :
  edges_present G path = true ->
  nodes_present G path = true ->
  exists q rng', simulate_path_quantum G path rng = Ok (q, rng')
                 /\ q_mode q = "quantum_path".
Proof.
  intros Hp Hn. unfold simulate_path_quantum.
  match goal with
  | |- context [quantum_loop G path ?m0 rng] =>
      destruct (quantum_loop_spec G path Hp Hn m0 rng) as (Hrun & _)
  end.
  rewrite Hrun. eauto.
Qed.

Lemma simulate_path_classical_returns G path rng :
  edges_present G path = true ->
  exists c rng', simulate_path_classical G path rng = Ok (c, rng')
                 /\ c_mode c = "classical_path".
Proof.
  intros Hp. unfold simulate_path_classical.
  match goal with
  | |- context [classical_loop G path ?m0 rng] =>
      destruct (classical_loop_spec G path Hp m0 rng) as (Hrun & _)
  end.
  rewrite Hrun. eauto.
Qed.

(** C6.  For a registered policy that returns: when it returns [None]
    or an empty path, [send_message] returns the failure with reason
    ["no_path"]; otherwise, the path lying in the graph, the whole path
    is simulated as quantum; if that succeeds the result is success with
    mode ["quantum"]; if not the whole path is simulated again as
    classical and the result carries that simulation's success flag with
    mode ["classical"]. *)
Theorem send_message_single_shot POLICIES G src dst policy path_fn r rng :
  POLICIES !! policy = Some path_fn ->
  path_fn G src dst = Ok r ->
  edges_present G (default [] r) = true ->
  nodes_present G (default [] r) = true ->
  if py_not_path r then
    send_message POLICIES G src dst policy rng
    = Ok ({| s_success := false; s_reason := Some "no_path";
             s_policy := Some policy; s_mode := None; s_path := None |}, rng)
  else
    exists path q rng1,
      r = Some path
      /\ simulate_path_quantum G path rng = Ok (q, rng1)
      /\ if q_success q then
           send_message POLICIES G src dst policy rng
           = Ok ({| s_success := true; s_reason := None; s_policy := None;
                    s_mode := Some "quantum"; s_path := Some path |}, rng1)
         else
           exists c rng2,
             simulate_path_classical G path rng1 = Ok (c, rng2)
             /\ send_message POLICIES G src dst policy rng
                = Ok ({| s_success := c_success c; s_reason := None;
                         s_policy := None; s_mode := Some "classical";
                         s_path := Some path |}, rng2).
Proof.
  intros Hreg Hret Hp Hn.
  unfold send_message, get_policy, bind, lift. rewrite Hreg, Hret.
  destruct (py_not_path r) eqn:Hnot; [reflexivity |].
  destruct r as [path |]; [| discriminate Hnot].
  cbn [default from_option Datatypes.id] in *.
  destruct (simulate_path_quantum_returns G path rng Hp Hn)
    as (q & rng1 & Hq & _).
  exists path, q, rng1. rewrite Hq. split; [reflexivity |].
  split; [reflexivity |].
  destruct (q_success q); [reflexivity |].
  destruct (simulate_path_classical_returns G path rng1 Hp)
    as (c & rng2 & Hc & _).
  exists c, rng2. rewrite Hc. split; reflexivity.
Qed.


Variable fuel : nat.

Lemma mode_lookup_unbound POLICIES policy :
  routing_globals (Rng:=Rng) fuel POLICIES !! policy = None ->
  mode_lookup !! policy = None.
Proof.
  intros Hnone. unfold routing_globals in Hnone.
  apply not_elem_of_list_to_map_2 in Hnone.
  cbn [fmap list_fmap fst] in Hnone.
  rewrite !not_elem_of_cons in Hnone.
  unfold mode_lookup.
  rewrite !lookup_insert_ne by (intros Heq; subst policy; intuition congruence).
  apply lookup_singleton_ne. intros Heq; subst policy; intuition congruence.
Qed.

(** C9, as the code has it.  A policy name that is bound to nothing in
    the namespace of [routing.py] (no function defined there, no imported
    name, no module attribute) makes [send_message_reliable] run exactly
    as for the hybrid policy, the returned mode being the name itself,
    whatever the policy registry holds under that name; whereas
    [send_message] looks the name up in the registry and raises KeyError
    when the name is not registered. *)
Theorem unbound_policy_name POLICIES G src dst policy rng :
  routing_globals fuel POLICIES !! policy = None ->
  falls_back_to_hybrid fuel POLICIES G src dst policy rng
  /\ (POLICIES !! policy = None ->
      send_message POLICIES G src dst policy rng = Raise KeyError).
Proof.
  intros Hglobals. split.
  - unfold falls_back_to_hybrid, send_message_reliable.
    rewrite Hglobals, (mode_lookup_unbound _ _ Hglobals). reflexivity.
  - intros Hreg. unfold send_message, get_policy, bind, lift.
    rewrite Hreg. reflexivity.
Qed.
End RoutingTheorems.


Lemma send_message_single_shot_witness :
  Routing.default_POLICIES 5 !! "classical_latency"
    = Some Routing.classical_latency
  /\ Routing.classical_latency line_quantum 0 2 = Ok (Some [0; 1; 2])
  /\ edges_present line_quantum (default [] (Some [0; 1; 2])) = true
  /\ nodes_present line_quantum (default [] (Some [0; 1; 2])) = true
  /\ exists path q rng1,
       Some [0; 1; 2] = Some path
       /\ simulate_path_quantum line_quantum path [99 # 100; 0; 1 # 2]%Q
          = Ok (q, rng1)
       /\ if q_success q then
            Routing.send_message (Routing.default_POLICIES 5) line_quantum 0 2
              "classical_latency" [99 # 100; 0; 1 # 2]%Q
            = Ok ({| Routing.s_success := true; Routing.s_reason := None;
                     Routing.s_policy := None;
                     Routing.s_mode := Some "quantum";
                     Routing.s_path := Some path |}, rng1)
          else
            exists c rng2,
              simulate_path_classical line_quantum path rng1 = Ok (c, rng2)
              /\ Routing.send_message (Routing.default_POLICIES 5)
                   line_quantum 0 2 "classical_latency"
                   [99 # 100; 0; 1 # 2]%Q
                 = Ok ({| Routing.s_success := c_success c;
                          Routing.s_reason := None;
                          Routing.s_policy := None;
                          Routing.s_mode := Some "classical";
                          Routing.s_path := Some path |}, rng2).
Proof.
  split; [reflexivity |]. split; [vm_compute; reflexivity |].
  split; [vm_compute; reflexivity |]. split; [vm_compute; reflexivity |].
  apply (send_message_single_shot (Routing.default_POLICIES 5) line_quantum
           0 2 "classical_latency" Routing.classical_latency
           (Some [0; 1; 2]) [99 # 100; 0; 1 # 2]%Q).
  - reflexivity.
  - vm_compute; reflexivity.
  - vm_compute; reflexivity.
  - vm_compute; reflexivity.
Defined.



(** Two names that [routing.py] binds to nothing.  ["judge_policy"] is
    registered at run time: [send_message_reliable] runs hybrid all the
    same, while [send_message] runs the registered function.  ["shortest"]
    is not registered: [send_message_reliable] runs hybrid and
    [send_message] raises KeyError. *)
Lemma unbound_policy_name_witness :
  (Routing.routing_globals (Rng:=list Q) 5
     (register "judge_policy" heuristic (Routing.default_POLICIES 5))
     !! "judge_policy" = None
   /\ register "judge_policy" heuristic (Routing.default_POLICIES 5)
        !! "judge_policy" = Some heuristic
   /\ Routing.falls_back_to_hybrid 5
        (register "judge_policy" heuristic (Routing.default_POLICIES 5))
        split_quantum 0 3 "judge_policy" ([] : list Q))
  /\ Routing.routing_globals (Rng:=list Q) 5 (Routing.default_POLICIES 5)
       !! "shortest" = None
  /\ Routing.default_POLICIES 5 !! "shortest" = None
  /\ Routing.falls_back_to_hybrid 5 (Routing.default_POLICIES 5)
       pair_quantum 0 1 "shortest" [1 # 2]%Q
  /\ Routing.send_message (Routing.default_POLICIES 5) pair_quantum 0 1
       "shortest" [1 # 2]%Q = Raise KeyError.
Proof.
  split.
  - split; [vm_compute; reflexivity |]. split; [reflexivity |].
    refine (proj1 (unbound_policy_name 5
                     (register "judge_policy" heuristic
                        (Routing.default_POLICIES 5))
                     split_quantum 0 3 "judge_policy" [] _)).
    vm_compute; reflexivity.
  - split; [vm_compute; reflexivity |]. split; [vm_compute; reflexivity |].
    destruct (unbound_policy_name 5 (Routing.default_POLICIES 5) pair_quantum
                0 1 "shortest" [1 # 2]%Q) as [Hhybrid Hkey].
    + vm_compute; reflexivity.
    + split; [exact Hhybrid |]. apply Hkey. vm_compute; reflexivity.
Defined.

(** C9 as worded fails: ["nx"] is not the name of a function defined in
    [routing.py], yet it is bound in the module namespace (to the imported
    networkx module), so the lookup does not fall back to [hybrid] and the
    call raises TypeError. *)
Lemma falls_back_to_hybrid_fails :
  ("nx" ∉ Routing.routing_functions)
  /\ Routing.send_message_reliable 5 (Routing.default_POLICIES 5)
       pair_quantum 0 1 "nx" [1 # 2]%Q = Raise TypeError
  /\ ~ (Routing.falls_back_to_hybrid 5 (Routing.default_POLICIES 5)
          pair_quantum 0 1 "nx" [1 # 2]%Q).
Proof.
  split; [| split].
  - unfold Routing.routing_functions. rewrite !not_elem_of_cons.
    repeat split; try discriminate. apply not_elem_of_nil.
  - vm_compute; reflexivity.
  - unfold Routing.falls_back_to_hybrid. intros Heq.
    vm_compute in Heq. discriminate Heq.
Qed.

(** C1, the observed behaviour.  On two nodes joined by one quantum link,
    the quantum hop fails (draw 0.99) and the classical tail [0, 1] is
    walked: the send succeeds with path [0, 1], and the two history records
    carry the modes ["quantum_path"] and ["classical_path"]: the
    ["mode": "quantum"] and ["mode": "classical"] items of the two dict
    displays are replaced by the ["mode"] of the unpacked results. *)
Lemma reliable_history_modes :
  exists res rng',
    Routing.send_message_reliable 5 (Routing.default_POLICIES 5)
      pair_quantum 0 1 "classical_latency" [99 # 100; 0; 1 # 2; 0]%Q
    = Ok (res, rng')
    /\ Routing.r_success res = true
    /\ Routing.r_path res = Some [0; 1]
    /\ Routing.history_modes (Routing.r_history res)
       = [Some (VStr "quantum_path"); Some (VStr "classical_path")]
    /\ Routing.history_modes (Routing.r_history res)
       <> [Some (VStr "quantum"); Some (VStr "classical")].
Proof.
  eexists. eexists. split; [vm_compute; reflexivity |].
  repeat split; try (vm_compute; reflexivity).
  vm_compute. discriminate.
Qed.

(** ** Reliable send: what happens around a failed quantum hop *)

Section ReliableTheorems.
Context {F Rng : Type} `{Float F} `{RandomSource F Rng} `{NetworkX F}.
Implicit Types (G : Graph F) (rng : Rng).
Import Routing.
Variable fuel : nat.

Lemma quantum_record_fields (qres : QuantumMetrics (F:=F)) (p : list Z) :
  quantum_record qres p !! "mode" = Some (VStr (q_mode qres))
  /\ quantum_record qres p !! "success" = Some (VBool (q_success qres))
  /\ quantum_record qres p !! "path" = Some (VList p).
Proof. repeat split; reflexivity. Qed.

Lemma classical_record_fields (cres : ClassicalMetrics (F:=F)) (p : list Z) :
  classical_record cres p !! "mode" = Some (VStr (c_mode cres))
  /\ classical_record cres p !! "path" = Some (VList p).
Proof. repeat split; reflexivity. Qed.

Lemma single_hop_quantum G u v d rng :
  edges_get G u v = Ok d ->
  exists qres rng',
    simulate_path_quantum G [u; v] rng = Ok (qres, rng')
    /\ q_mode qres = "quantum_path".
Proof.
  intros Hd. destruct (simulate_quantum_hop_returns d rng)
    as (ok & hm & rng1 & Hhop & _).
  unfold simulate_path_quantum.
  rewrite (quantum_loop_last _ _ _ _ _ _ _ _ Hd Hhop).
  eexists. eexists. split; [reflexivity |]. destruct ok; reflexivity.
Qed.

Lemma single_hop_classical G u v d rng :
  edges_get G u v = Ok d ->
  exists cres rng',
    simulate_path_classical G [u; v] rng = Ok (cres, rng')
    /\ c_mode cres = "classical_path".
Proof.
  intros Hd. apply simulate_path_classical_returns.
  unfold edges_present. cbn. rewrite Hd. reflexivity.
Qed.

Lemma tail_loop_spec G (hops : list (Z * Z)) :
  Forall (hop_present G) hops ->
  forall history rng,
  exists post rng',
    tail_loop G hops history rng = Ok (history ++ post, rng')
    /\ map (fun rec => rec !! "path") post
       = map (fun xy => Some (VList [xy.1; xy.2])) hops
    /\ Forall (fun rec => rec !! "mode" = Some (VStr "classical_path")) post.
Proof.
  induction 1 as [|[x y] hops [d Hd] _ IH]; intros history rng.
  - exists [], rng. rewrite app_nil_r. repeat split; constructor.
  - destruct (single_hop_classical G x y d rng Hd) as (cres & rng1 & Hc & Hm).
    destruct (IH (history ++ [classical_record cres [x; y]]) rng1)
      as (post & rng' & Hrun & Hpaths & Hmodes).
    exists (classical_record cres [x; y] :: post), rng'.
    cbn [tail_loop]. unfold bind at 1. rewrite Hc. rewrite Hrun.
    rewrite <- app_assoc. split; [reflexivity |]. split.
    + cbn [map fst snd]. rewrite Hpaths. reflexivity.
    + constructor; [| exact Hmodes].
      rewrite (proj1 (classical_record_fields cres [x; y])), Hm. reflexivity.
Qed.

Lemma edges_present_hops G (path : list Z) :
  edges_present G path = true ->
  Forall (hop_present G) (zip path (drop 1 path)).
Proof.
  induction path as [|u tl IH]; intros Hp; [constructor |].
  destruct tl as [|v rest]; [constructor |].
  apply edges_present_cons in Hp as [Hd Hrest].
  change (zip (u :: v :: rest) (drop 1 (u :: v :: rest)))
    with ((u, v) :: zip (v :: rest) (drop 1 (v :: rest))).
  constructor; [exact Hd | exact (IH Hrest)].
Qed.

Lemma not_failed_classical (cres : ClassicalMetrics (F:=F)) (p : list Z) :
  c_mode cres = "classical_path" ->
  ~ failed_quantum (classical_record cres p).
Proof.
  intros Hm [Hmode _].
  rewrite (proj1 (classical_record_fields cres p)), Hm in Hmode.
  discriminate Hmode.
Qed.

Lemma not_failed_success (qres : QuantumMetrics (F:=F)) (p : list Z) :
  q_success qres = true ->
  ~ failed_quantum (quantum_record qres p).
Proof.
  intros Hs [_ Hsucc].
  rewrite (proj1 (proj2 (quantum_record_fields qres p))), Hs in Hsucc.
  discriminate Hsucc.
Qed.

Lemma loop_outcome_cons G dst init_mode u v hops assembled history rec res :
  ~ failed_quantum rec ->
  loop_outcome G dst init_mode hops (assembled ++ [v]) (history ++ [rec]) res ->
  loop_outcome G dst init_mode ((u, v) :: hops) assembled history res.
Proof.
  intros Hrec [new Hh Hlen Hnew Hs Hr Hm Hp
              | k x y pre qrec c_tail Hk Hh Hlen Hpre Hq Hqp Hc Hnot Hs Hr
              | k x y pre qrec post c_tail Hk Hh Hlen Hpre Hq Hqp Hc Hne
                  Hpaths Hmodes Hs Hr Hm Hp].
  - apply (lo_completed _ _ _ _ _ _ _ (rec :: new)); auto.
    + rewrite Hh, <- app_assoc. reflexivity.
    + cbn [length]. congruence.
    + rewrite Hp, <- app_assoc. reflexivity.
  - apply (lo_no_fallback _ _ _ _ _ _ _ (S k) x y (rec :: pre) qrec c_tail);
      auto.
    + rewrite Hh, <- !app_assoc. reflexivity.
    + cbn [length]. congruence.
  - apply (lo_fallback _ _ _ _ _ _ _ (S k) x y (rec :: pre) qrec post c_tail);
      auto.
    + rewrite Hh, <- !app_assoc. reflexivity.
    + cbn [length]. congruence.
    + rewrite Hp, <- !app_assoc. reflexivity.
Qed.

Lemma reliable_loop_spec G dst init_mode (hops : list (Z * Z)) :
  Forall (hop_present G) hops ->
  Forall (fun uv => tail_in_graph G dst uv.1) hops ->
  forall assembled history rng,
  exists res rng',
    reliable_loop G dst init_mode hops assembled history rng = Ok (res, rng')
    /\ loop_outcome G dst init_mode hops assembled history res.
Proof.
  induction 1 as [|[u v] hops [d Hd] _ IH]; intros Htails assembled history rng.
  - eexists. eexists. split; [reflexivity |].
    apply (lo_completed _ _ _ _ _ _ _ []); try reflexivity.
    + cbn. rewrite app_nil_r. reflexivity.
    + constructor.
    + cbn. rewrite app_nil_r. reflexivity.
  - apply Forall_cons in Htails as [Htail Htails]. specialize (IH Htails).
    cbn [fst snd] in Hd, Htail.
    cbn [reliable_loop]. unfold bind at 1, lift at 1. rewrite Hd.
    destruct (quantum d).
    + destruct (single_hop_quantum G u v d rng Hd) as (qres & rng1 & Hq & Hm).
      unfold bind at 1. rewrite Hq.
      destruct (q_success qres) eqn:Hs; cbn [negb].
      * destruct (IH (assembled ++ [v])
                     (history ++ [quantum_record qres [u; v]]) rng1)
          as (res & rng' & Hrun & Hout).
        exists res, rng'. split; [exact Hrun |].
        apply (loop_outcome_cons _ _ _ _ _ _ _ _ _ _
                 (not_failed_success qres [u; v] Hs) Hout).
      * assert (Hfailed : failed_quantum (quantum_record qres [u; v])).
        { split.
          - rewrite (proj1 (quantum_record_fields qres [u; v])), Hm.
            reflexivity.
          - rewrite (proj1 (proj2 (quantum_record_fields qres [u; v]))), Hs.
            reflexivity. }
        unfold tail_in_graph in Htail.
        unfold bind at 1, lift at 1.
        destruct (classical_latency G u dst) as [c_tail | |] eqn:Hc;
          try contradiction.
        destruct (py_not_path c_tail) eqn:Hnot.
        -- eexists. eexists. split; [reflexivity |].
           apply (lo_no_fallback _ _ _ _ _ _ _ 0%nat u v []
                    (quantum_record qres [u; v]) c_tail);
             auto; reflexivity.
        -- destruct c_tail as [[|x tl] |]; try discriminate Hnot.
           cbn [default from_option Datatypes.id] in *.
           destruct (tail_loop_spec G _ (edges_present_hops G _ Htail)
                       (history ++ [quantum_record qres [u; v]]) rng1)
             as (post & rng' & Hrun & Hpaths & Hmodes).
           unfold bind at 1. rewrite Hrun.
           eexists. eexists. split; [reflexivity |].
           apply (lo_fallback _ _ _ _ _ _ _ 0%nat u v []
                    (quantum_record qres [u; v]) post (x :: tl));
             auto; try reflexivity; try discriminate.
           cbn [r_history]. rewrite <- app_assoc. reflexivity.
    + destruct (single_hop_classical G u v d rng Hd) as (cres & rng1 & Hc & Hm).
      unfold bind at 1. rewrite Hc.
      destruct (IH (assembled ++ [v])
                   (history ++ [classical_record cres [u; v]]) rng1)
        as (res & rng' & Hrun & Hout).
      exists res, rng'. split; [exact Hrun |].
      apply (loop_outcome_cons _ _ _ _ _ _ _ _ _ _
               (not_failed_classical cres [u; v] Hm) Hout).
Qed.

(** The part of C1 that holds.  When the name resolves to a path function
    that returns a path of at least two nodes lying in the graph, and the
    classical tails, where they exist, lie in the graph too,
    [send_message_reliable] returns, and either every planned hop is
    walked, or a quantum hop fails and then: the records before it are
    the hops walked so far; with no classical tail from the current node
    the result is the failure ["no_classical_fallback"] with the history
    ending at the failed hop; with a tail, one record per tail hop
    follows, each with mode ["classical_path"], and the result is success
    with the nodes reached so far followed by the tail. *)
Lemma send_message_reliable_fallback POLICIES G src dst policy path_fn
  full_path rng :
  default (PyPolicy (hybrid fuel)) (routing_globals fuel POLICIES !! policy)
    = PyPolicy (Rng:=Rng) path_fn ->
  path_fn G src dst = Ok (Some full_path) ->
  (2 <= length full_path)%nat ->
  edges_present G full_path = true ->
  Forall (fun uv => tail_in_graph G dst uv.1)
         (zip full_path (drop 1 full_path)) ->
  exists res rng',
    send_message_reliable fuel POLICIES G src dst policy rng = Ok (res, rng')
    /\ loop_outcome G dst (default policy (mode_lookup !! policy))
         (zip full_path (drop 1 full_path)) (take 1 full_path) [] res.
Proof.
  intros Hfn Hret Hlen Hp Htails.
  unfold send_message_reliable. rewrite Hfn.
  unfold reliable_with, bind, lift. rewrite Hret.
  cbn [default from_option Datatypes.id].
  destruct full_path as [|a [|b rest]]; cbn [length] in Hlen; try lia.
  cbn [py_not_path orb]. 
  replace (length (a :: b :: rest) <? 2)%nat with false
    by (symmetry; apply Nat.ltb_ge; cbn [length]; lia).
  apply reliable_loop_spec; [apply edges_present_hops; exact Hp | exact Htails].
Qed.
End ReliableTheorems.

Lemma send_message_reliable_fallback_example :
  exists res rng',
    Routing.send_message_reliable 5 (Routing.default_POLICIES 5)
      Examples.pair_quantum 0 1 "classical_latency" [99 # 100; 0; 1 # 2; 0]%Q
    = Ok (res, rng')
    /\ Routing.loop_outcome Examples.pair_quantum 1 "classical_path"
         [(0, 1)] [0] [] res.
Proof.
  apply (send_message_reliable_fallback 5 (Routing.default_POLICIES 5)
           Examples.pair_quantum 0 1 "classical_latency"
           Routing.classical_latency [0; 1] [99 # 100; 0; 1 # 2; 0]%Q).
  - vm_compute; reflexivity.
  - vm_compute; reflexivity.
  - simpl; lia.
  - vm_compute; reflexivity.
  - repeat constructor.
Qed.

(** ** Repeater placement *)

Section RepeaterTheorems.
Context {F Rng Gen : Type} `{Float F} `{RandomSource F Rng}
        `{NumpyGenerator F Gen} `{NetworkX F}.
Import Repeater.
Implicit Types (env : RepeaterEnv (F:=F))
  (st : HCState (F:=F) (Rng:=Rng) (Gen:=Gen)).

Lemma mask_sum_reset env : mask_sum (reset env) = 0.
Proof.
  unfold reset. induction (size (nodes (G_orig env))) as [|n IH];
    [reflexivity |]. cbn [repeat mask_sum fold_right]. exact IH.
Qed.

(** One iteration: a candidate is built from the best mask, and the new
    state is one of the three outcomes. *)
Lemma hc_step_outcome env st st' :
  hc_step env st = Ok st' ->
  exists candidate g,
    make_candidate st = Ok (candidate, g)
    /\ hc_outcome env st candidate st'.
Proof.
  unfold hc_step, res_bind.
  destruct (make_candidate st) as [[candidate g] | |] eqn:Hc; try discriminate.
  cbn [fst snd].
  destruct (max_repeaters env <? mask_sum candidate) eqn:Hover.
  - intros [= <-]. exists candidate, g. split; [reflexivity |].
    apply hc_discarded; try reflexivity. apply Z.ltb_lt. exact Hover.
  - apply Z.ltb_ge in Hover.
    destruct (_compute_reward env candidate (sim_rng st)) as [[reward rng1] | |]
      eqn:Hr; try discriminate.
    cbn [fst snd].
    destruct (f_ltb (best_reward st) reward) eqn:Hlt; intros [= <-];
      exists candidate, g; (split; [reflexivity |]).
    + apply (hc_accepted env st candidate _ reward); auto.
    + apply (hc_rejected env st candidate _ reward); auto.
Qed.

Lemma hc_outcome_budget env st candidate st' :
  hc_outcome env st candidate st' ->
  mask_sum (best_mask st) <= max_repeaters env ->
  mask_sum (best_mask st') <= max_repeaters env.
Proof. intros [? Hm _ _ | r ? _ _ Hm _ | r ? _ _ Hm _]; rewrite Hm; auto. Qed.

Lemma hc_outcome_reward env st candidate st' :
  hc_outcome env st candidate st' ->
  reward_le (best_reward st) (best_reward st').
Proof.
  intros [_ _ Hr _ | r _ _ _ _ Hr | r _ _ Hlt _ Hr]; rewrite Hr.
  - left; reflexivity.
  - left; reflexivity.
  - right; exact Hlt.
Qed.

Lemma hc_states_budget env n : forall st,
  mask_sum (best_mask st) <= max_repeaters env ->
  Forall (fun st' => mask_sum (best_mask st') <= max_repeaters env)
         (hc_states env n st).
Proof.
  induction n as [|n IH]; intros st Hst; cbn [hc_states]; [constructor |].
  destruct (hc_step env st) as [st' | |] eqn:Hstep; try constructor.
  - destruct (hc_step_outcome _ _ _ Hstep) as (c & g & _ & Hout).
    exact (hc_outcome_budget _ _ _ _ Hout Hst).
  - apply IH.
    destruct (hc_step_outcome _ _ _ Hstep) as (c & g & _ & Hout).
    exact (hc_outcome_budget _ _ _ _ Hout Hst).
Qed.

Lemma hc_states_consecutive env n : forall st0 k st st',
  (st0 :: hc_states env n st0) !! k = Some st ->
  (st0 :: hc_states env n st0) !! S k = Some st' ->
  hc_step env st = Ok st'.
Proof.
  induction n as [|n IH]; intros st0 k st st' Hk HSk.
  - destruct k; discriminate HSk.
  - cbn [hc_states] in Hk, HSk.
    destruct (hc_step env st0) as [st1 | |] eqn:Hstep;
      try (destruct k; discriminate HSk).
    destruct k as [|k].
    + injection Hk as <-. injection HSk as <-. exact Hstep.
    + exact (IH st1 k st st' Hk HSk).
Qed.

Lemma hc_loop_states env n : forall st0 st,
  hc_loop env n st0 = Ok st ->
  length (hc_states env n st0) = n
  /\ last (st0 :: hc_states env n st0) = Some st.
Proof.
  induction n as [|n IH]; intros st0 st; cbn [hc_loop hc_states].
  - intros [= <-]. split; reflexivity.
  - unfold res_bind. destruct (hc_step env st0) as [st1 | |]; try discriminate.
    intros Hloop. destruct (IH st1 st Hloop) as [Hlen Hlast].
    split; [cbn [length]; congruence |].
    rewrite last_cons. rewrite Hlast. reflexivity.
Qed.

Lemma reward_le_trans (a b c : F) :
  (forall x y z : F, f_ltb x y = true -> f_ltb y z = true -> f_ltb x z = true) ->
  reward_le a b -> reward_le b c -> reward_le a c.
Proof.
  intros Htrans [-> | Hab] [-> | Hbc]; unfold reward_le; eauto.
Qed.

(** C5.  A run of [hill_climb] with a non-negative budget starts from the
    all-zero mask and, at the start and after every iteration that
    completes: the best mask has at most [max_repeaters] ones; an iteration
    whose candidate is over budget keeps the best pair and computes no
    reward (the simulation generator is untouched); the best pair is
    replaced only by a candidate within budget whose computed reward is
    strictly greater than the best one; so the best reward never
    decreases from one iteration to the next, nor (the float comparison
    being transitive) between any two iterations.  When [hill_climb]
    returns, every iteration completed and the returned pair is the best
    pair of the last state. *)
Theorem hill_climb_invariants env (iterations : Z) (g : Gen) (rng : Rng) st0 :
  0 <= max_repeaters env ->
  hc_init env g rng = Ok st0 ->
  let states := st0 :: hc_states env (Z.to_nat iterations) st0 in
  best_mask st0 = repeat 0 (size (nodes (G_orig env)))
  /\ Forall (fun st => mask_sum (best_mask st) <= max_repeaters env) states
  /\ (forall k st st',
        states !! k = Some st -> states !! S k = Some st' ->
        reward_le (best_reward st) (best_reward st')
        /\ exists candidate g',
             make_candidate st = Ok (candidate, g')
             /\ hc_outcome env st candidate st')
  /\ ((forall x y z : F,
         f_ltb x y = true -> f_ltb y z = true -> f_ltb x z = true) ->
      forall i j st st',
        (i <= j)%nat -> states !! i = Some st -> states !! j = Some st' ->
        reward_le (best_reward st) (best_reward st'))
  /\ (forall mask reward stf,
        hill_climb env iterations g rng = Ok ((mask, reward), stf) ->
        length states = S (Z.to_nat iterations)
        /\ exists st, last states = Some st
                      /\ mask = best_mask st /\ reward = best_reward st).
Proof.
  intros Hmax Hinit states.
  assert (Hzero : best_mask st0 = reset env).
  { unfold hc_init, res_bind in Hinit.
    destruct (_compute_reward env (reset env) rng) as [[r rng1] | |];
      try discriminate.
    injection Hinit as <-. reflexivity. }
  assert (Hstep : forall k st st',
             states !! k = Some st -> states !! S k = Some st' ->
             reward_le (best_reward st) (best_reward st')
             /\ exists candidate g',
                  make_candidate st = Ok (candidate, g')
                  /\ hc_outcome env st candidate st').
  { intros k st st' Hk HSk.
    pose proof (hc_states_consecutive _ _ _ _ _ _ Hk HSk) as Hs.
    destruct (hc_step_outcome _ _ _ Hs) as (c & g' & Hc & Hout).
    split; [exact (hc_outcome_reward _ _ _ _ Hout) | eauto]. }
  split; [exact Hzero |]. split; [| split; [exact Hstep | split]].
  - constructor.
    + rewrite Hzero, mask_sum_reset. exact Hmax.
    + apply hc_states_budget. rewrite Hzero, mask_sum_reset. exact Hmax.
  - intros Htrans i j. induction j as [|j IH]; intros st st' Hij Hi Hj.
    + assert (i = 0)%nat as -> by lia.
      rewrite Hi in Hj. injection Hj as <-. left; reflexivity.
    + destruct (decide (i = S j)) as [-> | Hne].
      * rewrite Hi in Hj. injection Hj as <-. left; reflexivity.
      * destruct (lookup_lt_is_Some_2 states j) as [stj Hstj].
        { apply lookup_lt_Some in Hj. lia. }
        apply (reward_le_trans _ (best_reward stj) _ Htrans).
        -- apply (IH st stj); [lia | exact Hi | exact Hstj].
        -- exact (proj1 (Hstep j stj st' Hstj Hj)).
  - intros mask reward stf Hret.
    unfold hill_climb, res_bind in Hret. rewrite Hinit in Hret.
    destruct (hc_loop env (Z.to_nat iterations) st0) as [st | |] eqn:Hloop;
      try discriminate.
    injection Hret as <- <- _.
    destruct (hc_loop_states _ _ _ _ Hloop) as [Hlen Hlast].
    split; [subst states; cbn [length]; congruence |].
    exists st. split; [exact Hlast | split; reflexivity].
Qed.
End RepeaterTheorems.

Lemma Qltb_trans (x y z : Q) :
  Qltb x y = true -> Qltb y z = true -> Qltb x z = true.
Proof.
  unfold Qltb. rewrite !Z.ltb_lt. intros Hxy Hyz.
  exact (Qlt_trans x y z Hxy Hyz).
Qed.

Lemma hill_climb_invariants_witness :
  let st0 := {| Repeater.best_mask := [0; 0; 0];
                Repeater.best_reward := 0%Q;
                Repeater.repeaters := [0; 0; 0];
                Repeater.env_rng := line_flips;
                Repeater.sim_rng := [] |} in
  0 <= Repeater.max_repeaters line_env
  /\ Repeater.hc_init line_env line_flips [99 # 100; 99 # 100]%Q = Ok st0
  /\ Repeater.hill_climb line_env 3 line_flips [99 # 100; 99 # 100]%Q
     = Ok (([0; 0; 0], 1%Q),
           {| Repeater.best_mask := [0; 0; 0];
              Repeater.best_reward := 1%Q;
              Repeater.repeaters := [0; 0; 0];
              Repeater.env_rng :=
                {| s_ints := []; s_bits := []; s_uniform := [];
                   s_choice := [] |};
              Repeater.sim_rng := [] |})
  /\ map (fun st => (Repeater.best_mask st, Repeater.best_reward st))
         (st0 :: Repeater.hc_states line_env 3 st0)
     = [([0; 0; 0], 0%Q); ([1; 0; 0], 0.99%Q); ([1; 0; 0], 0.99%Q);
        ([0; 0; 0], 1%Q)]
  /\ Forall (fun st => Repeater.mask_sum (Repeater.best_mask st)
                       <= Repeater.max_repeaters line_env)
            (st0 :: Repeater.hc_states line_env (Z.to_nat 3) st0).
Proof.
  intros st0.
  split; [vm_compute; discriminate |].
  split; [vm_compute; reflexivity |].
  split; [vm_compute; reflexivity |].
  split; [vm_compute; reflexivity |].
  refine (proj1 (proj2 (hill_climb_invariants line_env 3 line_flips
                          [99 # 100; 99 # 100]%Q st0 _ _))).
  - vm_compute; discriminate.
  - vm_compute; reflexivity.
Defined.

(** ** Decoy-state BB84 *)

Section BB84Theorems.
Context {F Gen : Type} `{Float F} `{NumpyGenerator F Gen}.
Variable sha3_256 : list Z -> list Z.
Variable format_3f : F -> string.
Import BB84.

(** Once the sifting and the sampling have returned, the session is one
    of three outcomes, each carrying the two yields: the QBER abort when
    the sampled QBER is above the limit; else the decoy-state abort, with
    the formatted gap, when the yield gap is above its limit; else the key
    hashed from the reconciled bits that were not disclosed. *)
Lemma run_bb84_outcomes (n_qubits : Z) (p_noise : F) (pns : bool) (g g1 g2 : Gen)
  (s : Sifted) (idx : list nat) (q : F) :
  sift n_qubits p_noise pns g = Ok (s, g1) ->
  sample_qber s g1 = Ok ((idx, q), g2) ->
  run_bb84 sha3_256 format_3f n_qubits p_noise pns g =
    if f_ltb QBER_LIMIT q then
      Ok ({| success := false; qber := q;
             key_or_msg := inl "Abort: QBER too high";
             yield_signal := y_sig s; yield_decoy := y_dec s |}, g2)
    else
      let delta_y := f_abs (f_sub (y_sig s) (y_dec s)) in
      if f_ltb DELTA_Y_LIM delta_y then
        Ok ({| success := false; qber := q;
               key_or_msg := inl (decoy_message format_3f delta_y);
               yield_signal := y_sig s; yield_decoy := y_dec s |}, g2)
      else
        match derive_key sha3_256 s idx with
        | Ok key_bytes =>
            Ok ({| success := true; qber := q;
                   key_or_msg := inr key_bytes;
                   yield_signal := y_sig s; yield_decoy := y_dec s |}, g2)
        | Raise e => Raise e
        | Diverges => Diverges
        end.
Proof.
  intros Hsift Hsample. unfold run_bb84, bind at 1. rewrite Hsift.
  unfold bind at 1. rewrite Hsample. cbn [fst snd].
  destruct (f_ltb QBER_LIMIT q); [reflexivity |].
  cbv zeta. destruct (f_ltb DELTA_Y_LIM _); [reflexivity |].
  unfold bind, lift. destruct (derive_key sha3_256 s idx); reflexivity.
Qed.

(** When no position is sifted, the sampling asks for one index out of
    none and the session raises ValueError. *)
Lemma run_bb84_nothing_sifted (n_qubits : Z) (p_noise : F) (pns : bool)
  (g g1 : Gen) (s : Sifted) :
  sift n_qubits p_noise pns g = Ok (s, g1) ->
  sift_A s = [] ->
  run_bb84 sha3_256 format_3f n_qubits p_noise pns g = Raise ValueError.
Proof.
  intros Hsift Hempty. unfold run_bb84, bind at 1. rewrite Hsift.
  unfold bind at 1. unfold sample_qber, sample_len, bind at 1, np_choice.
  rewrite Hempty. cbn [length].
  assert (Hk : (0 <? Z.to_nat (Z.max 1 (f_trunc (f_mul (f_of_Z (Z.of_nat 0))
                                                  SAMPLE_FRAC))))%nat = true).
  { apply Nat.ltb_lt. lia. }
  rewrite Hk. reflexivity.
Qed.
End BB84Theorems.

(** C4, the observed behaviour.  A session of one pulse in which the two
    bases differ sifts nothing; [rng.choice(0, 1, replace=False)] raises
    ValueError and [run_bb84] returns no tuple at all. *)
Theorem run_bb84_basis_mismatch_raises
  (sha3_256 : list Z -> list Z) (format_3f : Q -> string) :
  BB84.sift 1 (1 # 100)%Q false mismatch_samples
  = Ok ({| BB84.sift_A := []; BB84.sift_B := [];
           BB84.y_sig := 0%Q; BB84.y_dec := 0%Q |},
        {| s_ints := []; s_bits := []; s_uniform := []; s_choice := [] |})
  /\ BB84.run_bb84 sha3_256 format_3f 1 (1 # 100)%Q false mismatch_samples
     = Raise ValueError.
Proof. split; vm_compute; reflexivity. Qed.

(** A session that runs to the end, for comparison: a signal pulse and a
    decoy pulse, both detected, equal bases, no error in the disclosed
    bit. *)
Lemma run_bb84_clean_session
  (sha3_256 : list Z -> list Z) (format_3f : Q -> string) :
  exists g,
    BB84.run_bb84 sha3_256 format_3f 2 (1 # 100)%Q false clean_samples
    = Ok ({| BB84.success := true; BB84.qber := 0%Q;
             BB84.key_or_msg := inr (sha3_256 [0]);
             BB84.yield_signal := 1%Q; BB84.yield_decoy := 1%Q |}, g).
Proof. eexists. vm_compute. reflexivity. Qed.

(** * Further properties *)

(** ** Path simulators: paths that leave the graph, storage at
    intermediate nodes, the empty path *)

Section SimulatorEdgeCases.
Context {F Rng : Type} `{Float F} `{RandomSource F Rng}.
Implicit Types (G : Graph F) (path : list Z) (rng : Rng).

Lemma edges_get_cases G u v :
  (exists d, edges_get G u v = Ok d) \/ edges_get G u v = Raise KeyError.
Proof.
  unfold edges_get. destruct (adj G !! u ≫= _); [left; eauto | right; reflexivity].
Qed.

Lemma quantum_loop_unfold G u v rest metrics :
  quantum_loop G (u :: v :: rest) metrics =
    (edge_data <- lift (edges_get G u v) ;;
     sm <- simulate_quantum_hop edge_data ;;
     let metrics := q_add_distance metrics (qh_distance_km (snd sm)) in
     if negb (fst sm) then ret metrics
     else
       match rest with
       | _ :: _ =>
           can_swap <- lift (_node_can_swap G v) ;;
           sp <- simulate_entanglement_swap can_swap ;;
           if negb (fst sp) then ret metrics
           else quantum_loop G (v :: rest) metrics
       | [] => quantum_loop G (v :: rest) metrics
       end).
Proof. reflexivity. Qed.

Lemma classical_loop_unfold G u v rest metrics :
  classical_loop G (u :: v :: rest) metrics =
    (edge_data <- lift (edges_get G u v) ;;
     sm <- simulate_classical_hop edge_data ;;
     classical_loop G (v :: rest) (classical_update metrics u v sm)).
Proof. reflexivity. Qed.

Lemma edges_present_cons_false G u v rest d :
  edges_get G u v = Ok d ->
  edges_present G (u :: v :: rest) = false ->
  edges_present G (v :: rest) = false.
Proof.
  unfold edges_present. intros Hd.
  change (path_edges (u :: v :: rest)) with ((u, v) :: path_edges (v :: rest)).
  cbn [forallb fst snd]. rewrite Hd. auto.
Qed.

Lemma classical_loop_missing_edge G path :
  edges_present G path = false ->
  forall metrics rng, classical_loop G path metrics rng = Raise KeyError.
Proof.
  induction path as [|u tl IH]; intros Hp metrics rng; [discriminate Hp |].
  destruct tl as [|v rest]; [discriminate Hp |].
  rewrite classical_loop_unfold. unfold bind at 1, lift at 1.
  destruct (edges_get_cases G u v) as [[d Hd] | Hd]; rewrite Hd;
    [| reflexivity].
  destruct (simulate_classical_hop_returns d rng) as (ok & hm & rng1 & Hhop & _).
  unfold bind at 1. rewrite Hhop.
  apply IH. exact (edges_present_cons_false _ _ _ _ _ Hd Hp).
Qed.

Lemma quantum_loop_missing_edge G path :
  edges_present G path = false ->
  forall metrics rng m rng',
    q_success metrics = false ->
    quantum_loop G path metrics rng = Ok (m, rng') ->
    q_success m = false.
Proof.
  induction path as [|u tl IH]; intros Hp metrics rng m rng' Hfalse;
    [discriminate Hp |].
  destruct tl as [|v rest]; [discriminate Hp |].
  rewrite quantum_loop_unfold. unfold bind at 1, lift at 1.
  destruct (edges_get_cases G u v) as [[d Hd] | Hd]; rewrite Hd;
    [| discriminate].
  pose proof (edges_present_cons_false _ _ _ _ _ Hd Hp) as Hrest.
  destruct (simulate_quantum_hop_returns d rng) as (ok & hm & rng1 & Hhop & _).
  unfold bind at 1. rewrite Hhop. cbn [fst snd].
  destruct ok; cbn [negb].
  - destruct rest as [|w rest]; [discriminate Hrest |].
    unfold bind at 1, lift at 1.
    destruct (_node_can_swap G v) as [can | |]; try discriminate.
    destruct (simulate_entanglement_swap_returns can rng1)
      as (sok & p & rng2 & Hswap).
    unfold bind at 1. rewrite Hswap. cbn [fst].
    destruct sok; cbn [negb].
    + apply (IH Hrest). exact Hfalse.
    + intros [= <- _]. exact Hfalse.
  - intros [= <- _]. exact Hfalse.
Qed.

(** X1.  A path with a missing edge: the classical walk raises KeyError
    whatever the draws, and the quantum walk never reports a success (it
    fails at an earlier hop or swap, or raises). *)
Theorem path_off_graph_never_succeeds G path rng :
  edges_present G path = false ->
  simulate_path_classical G path rng = Raise KeyError
  /\ forall m rng',
       simulate_path_quantum G path rng = Ok (m, rng') -> q_success m = false.
Proof.
  intros Hp. split; [apply classical_loop_missing_edge; exact Hp |].
  intros m rng' Hrun. unfold simulate_path_quantum in Hrun.
  eapply (quantum_loop_missing_edge G path Hp); [| exact Hrun]. reflexivity.
Qed.

Lemma swap_ok_can_swap (can : bool) rng p rng' :
  simulate_entanglement_swap can rng = Ok ((true, p), rng') -> can = true.
Proof. destruct can; [reflexivity | discriminate]. Qed.

Lemma quantum_loop_storage G path :
  forall metrics rng m rng',
    q_success metrics = false ->
    quantum_loop G path metrics rng = Ok (m, rng') ->
    q_success m = true ->
    forall i v,
      (0 < i)%nat -> (S i < length path)%nat -> path !! i = Some v ->
      exists nd, nodes G !! v = Some nd /\ can_store_entanglement nd = true.
Proof.
  induction path as [|u tl IH]; intros metrics rng m rng' Hfalse Hrun Hsucc i x Hi Hlen Hx;
    [cbn in Hlen; lia |].
  destruct tl as [|v rest]; [cbn in Hlen; lia |].
  rewrite quantum_loop_unfold in Hrun. unfold bind at 1, lift at 1 in Hrun.
  destruct (edges_get G u v) as [d | |]; try discriminate.
  destruct (simulate_quantum_hop_returns d rng) as (ok & hm & rng1 & Hhop & _).
  unfold bind at 1 in Hrun. rewrite Hhop in Hrun. cbn [fst snd] in Hrun.
  destruct ok; cbn [negb] in Hrun;
    [| injection Hrun as <- _; cbn in Hsucc; congruence].
  destruct rest as [|w rest]; [cbn in Hlen; lia |].
  unfold bind at 1, lift at 1 in Hrun.
  destruct (_node_can_swap G v) as [can | |] eqn:Hcan; try discriminate.
  destruct (simulate_entanglement_swap_returns can rng1)
    as (sok & p & rng2 & Hswap).
  unfold bind at 1 in Hrun. rewrite Hswap in Hrun. cbn [fst] in Hrun.
  destruct sok; cbn [negb] in Hrun;
    [| injection Hrun as <- _; cbn in Hsucc; congruence].
  destruct i as [|[|i]]; [lia | |].
  - injection Hx as <-.
    apply swap_ok_can_swap in Hswap. subst can.
    unfold _node_can_swap, nodes_get, res_bind in Hcan.
    destruct (nodes G !! v) as [nd |]; [| discriminate].
    exists nd. split; [reflexivity |]. congruence.
  - apply (IH _ rng2 m rng' (Hfalse : q_success (q_add_distance metrics _) = false)
             Hrun Hsucc (S i) x); [lia | |].
    + cbn [length] in *. lia.
    + exact Hx.
Qed.

(** X2.  A quantum walk that succeeds went only through intermediate
    nodes that can store entanglement: at a node without storage the swap
    fails. *)
Theorem quantum_success_needs_storage G path rng m rng' :
  simulate_path_quantum G path rng = Ok (m, rng') ->
  q_success m = true ->
  forall i v,
    (0 < i)%nat -> (S i < length path)%nat -> path !! i = Some v ->
    exists nd, nodes G !! v = Some nd /\ can_store_entanglement nd = true.
Proof.
  intros Hrun Hsucc. unfold simulate_path_quantum in Hrun.
  eapply (quantum_loop_storage G path); [| exact Hrun | exact Hsucc].
  reflexivity.
Qed.

(** X3.  The empty path: both simulators return at once with [hops] -1,
    distance 0.0 and [success] true, without touching the graph or the
    generator. *)
Theorem empty_path_reports_success G rng :
  simulate_path_quantum G [] rng
    = Ok ({| q_hops := -1; q_mode := "quantum_path";
             q_total_distance_km := f_lit 0; q_success := true |}, rng)
  /\ simulate_path_classical G [] rng
     = Ok ({| c_hops := -1; c_mode := "classical_path";
              c_total_distance_km := f_lit 0;
              c_total_latency_ms := f_lit 0;
              c_success := true; c_lost_hop := None |}, rng).
Proof. split; reflexivity. Qed.
End SimulatorEdgeCases.

Lemma path_off_graph_never_succeeds_witness :
  edges_present line_quantum [0; 2] = false
  /\ simulate_path_classical line_quantum [0; 2] [1 # 2]%Q = Raise KeyError
  /\ forall m rng',
       simulate_path_quantum line_quantum [0; 2] [1 # 2]%Q = Ok (m, rng') ->
       q_success m = false.
Proof.
  split; [vm_compute; reflexivity |].
  apply (path_off_graph_never_succeeds line_quantum [0; 2] [1 # 2]%Q).
  vm_compute; reflexivity.
Defined.

Lemma quantum_success_needs_storage_witness :
  let m := {| q_hops := 2; q_mode := "quantum_path";
              q_total_distance_km := 20%Q; q_success := true |} in
  simulate_path_quantum line_quantum [0; 1; 2] [1 # 2; 1 # 2; 1 # 2]%Q
    = Ok (m, [])
  /\ q_success m = true
  /\ forall i v,
       (0 < i)%nat -> (S i < length [0; 1; 2])%nat ->
       [0; 1; 2] !! i = Some v ->
       exists nd, nodes line_quantum !! v = Some nd
                  /\ can_store_entanglement nd = true.
Proof.
  intros m.
  split; [vm_compute; reflexivity |]. split; [reflexivity |].
  apply (quantum_success_needs_storage line_quantum [0; 1; 2]
           [1 # 2; 1 # 2; 1 # 2]%Q m []).
  - vm_compute; reflexivity.
  - reflexivity.
Defined.

(** ** Monte Carlo comparison *)

Section MonteCarloFacts.
Context {F Rng : Type} `{Float F} `{RandomSource F Rng}.
Implicit Types (G : Graph F) (path : list Z) (rng : Rng).

Lemma simulate_path_quantum_shape G path rng :
  edges_present G path = true ->
  nodes_present G path = true ->
  exists q rng',
    simulate_path_quantum G path rng = Ok (q, rng')
    /\ q_hops q = Z.of_nat (length path) - 1
    /\ q_mode q = "quantum_path".
Proof.
  intros Hp Hn. unfold simulate_path_quantum.
  match goal with
  | |- context [quantum_loop G path ?m0 rng] =>
      destruct (quantum_loop_spec G path Hp Hn m0 rng) as (Hrun & _)
  end.
  rewrite Hrun. eexists. eexists. split; [reflexivity |]. split; reflexivity.
Qed.

Lemma simulate_path_classical_shape G path rng :
  edges_present G path = true ->
  exists c rng',
    simulate_path_classical G path rng = Ok (c, rng')
    /\ c_hops c = Z.of_nat (length path) - 1
    /\ c_mode c = "classical_path"
    /\ c_total_distance_km c = float_sum (f_lit 0) (edge_distances G path).
Proof.
  intros Hp. unfold simulate_path_classical.
  match goal with
  | |- context [classical_loop G path ?m0 rng] =>
      destruct (classical_loop_spec G path Hp m0 rng) as (Hrun & _ & Hd)
  end.
  rewrite Hrun. eexists. eexists. split; [reflexivity |].
  cbn [c_hops c_mode c_total_distance_km]. rewrite Hd. repeat split.
Qed.

Lemma monte_carlo_loop_spec G path (n : nat) :
  edges_present G path = true ->
  nodes_present G path = true ->
  forall (t0 : Z) records rng,
  exists new rng',
    monte_carlo_loop n t0 G path records rng = Ok (records ++ new, rng')
    /\ length new = (2 * n)%nat
    /\ forall k, (k < n)%nat ->
         exists qrow crow,
           new !! (2 * k)%nat = Some qrow
           /\ new !! S (2 * k) = Some crow
           /\ trial_rows G path (t0 + Z.of_nat k) qrow crow.
Proof.
  intros Hp Hn. induction n as [|n IH]; intros t0 records rng.
  - exists [], rng. rewrite app_nil_r. split; [reflexivity |].
    split; [reflexivity |]. intros k Hk. lia.
  - destruct (simulate_path_quantum_shape G path rng Hp Hn)
      as (q & rng1 & Hq & Hqh & Hqm).
    destruct (simulate_path_classical_shape G path rng1 Hp)
      as (c & rng2 & Hc & Hch & Hcm & Hcd).
    destruct (IH (t0 + 1) (records ++ [QuantumTrial q t0; ClassicalTrial c t0])
                 rng2) as (new & rng' & Hrun & Hlen & Hrows).
    exists (QuantumTrial q t0 :: ClassicalTrial c t0 :: new), rng'.
    cbn [monte_carlo_loop]. unfold bind at 1. rewrite Hq.
    unfold bind at 1. rewrite Hc. rewrite Hrun.
    rewrite <- app_assoc. split; [reflexivity |].
    split; [cbn [length]; lia |].
    intros [|k] Hk.
    + exists (QuantumTrial q t0), (ClassicalTrial c t0).
      split; [reflexivity |]. split; [reflexivity |].
      exists q, c. rewrite Z.add_0_r. repeat split; assumption.
    + destruct (Hrows k) as (qrow & crow & Hq' & Hc' & Ht); [lia |].
      exists qrow, crow.
      replace (2 * S k)%nat with (S (S (2 * k))) by lia.
      split; [exact Hq' |]. split; [exact Hc' |].
      replace (t0 + Z.of_nat (S k)) with (t0 + 1 + Z.of_nat k) by lia.
      exact Ht.
Qed.

(** X4.  On a path that lies in the graph [monte_carlo_compare] returns
    two rows per trial, the quantum row then the classical row, both
    carrying the trial number; every row reports [len(path) - 1] hops and
    every classical row the full distance of the path. *)
Theorem monte_carlo_compare_table G path (trials : Z) rng :
  edges_present G path = true ->
  nodes_present G path = true ->
  exists records rng',
    monte_carlo_compare G path trials rng = Ok (records, rng')
    /\ length records = (2 * Z.to_nat trials)%nat
    /\ forall k, (k < Z.to_nat trials)%nat ->
         exists qrow crow,
           records !! (2 * k)%nat = Some qrow
           /\ records !! S (2 * k) = Some crow
           /\ trial_rows G path (Z.of_nat k) qrow crow.
Proof.
  intros Hp Hn. unfold monte_carlo_compare.
  destruct (monte_carlo_loop_spec G path (Z.to_nat trials) Hp Hn 0 [] rng)
    as (new & rng' & Hrun & Hlen & Hrows).
  exists new, rng'. split; [exact Hrun |]. split; [exact Hlen |].
  intros k Hk. destruct (Hrows k Hk) as (qrow & crow & Hq & Hc & Ht).
  exists qrow, crow. rewrite Z.add_0_l in Ht. auto.
Qed.
End MonteCarloFacts.

Lemma monte_carlo_compare_table_witness :
  edges_present line_quantum [0; 1; 2] = true
  /\ nodes_present line_quantum [0; 1; 2] = true
  /\ exists records rng',
       monte_carlo_compare line_quantum [0; 1; 2] 2 [99 # 100]%Q
         = Ok (records, rng')
       /\ length records = (2 * Z.to_nat 2)%nat
       /\ forall k, (k < Z.to_nat 2)%nat ->
            exists qrow crow,
              records !! (2 * k)%nat = Some qrow
              /\ records !! S (2 * k) = Some crow
              /\ trial_rows line_quantum [0; 1; 2] (Z.of_nat k) qrow crow.
Proof.
  split; [vm_compute; reflexivity |]. split; [vm_compute; reflexivity |].
  apply (monte_carlo_compare_table line_quantum [0; 1; 2] 2 [99 # 100]%Q);
    vm_compute; reflexivity.
Defined.

(** ** Link models and edge weights, on the reals *)

Section LinkModelsReal.
Context {Rng : Type} `{RandomSource R Rng}.
Local Open Scope R_scope.

Lemma Q2R_lit_0 : Q2R 0 = 0.
Proof. unfold Q2R; simpl; lra. Qed.

Lemma Q2R_lit_1 : Q2R 1 = 1.
Proof. unfold Q2R; simpl; lra. Qed.

Lemma clip_unit_interval (x : R) :
  0 <= py_max (f_lit 0) (py_min (f_lit 1) x) <= 1.
Proof.
  rewrite py_max_R, py_min_R. cbn [f_lit Float_R].
  rewrite Q2R_lit_0, Q2R_lit_1.
  unfold Rmax, Rmin.
  destruct (Rle_dec 1 x); destruct (Rle_dec 0 _); lra.
Qed.

(** X5.  On the reals and for every generator, a classical hop reports a
    loss probability within [0, 1], a latency that is not negative, and
    the distance of the edge. *)
Theorem classical_hop_values_in_range (e : EdgeData R) (rng : Rng) :
  exists ok m rng',
    simulate_classical_hop e rng = Ok ((ok, m), rng')
    /\ 0 <= ch_p_loss m <= 1
    /\ 0 <= ch_latency_ms m
    /\ ch_distance_km m = distance_km e.
Proof.
  unfold simulate_classical_hop, classical_loss_prob, classical_latency_ms,
    bind, draw, ret.
  destruct (rng_gauss _ _ rng) as [g r1]; simpl.
  destruct (rng_random r1) as [x r2]; simpl.
  destruct (rng_gauss _ _ r2) as [j r3]; simpl.
  eexists. eexists. eexists. split; [reflexivity |].
  cbn [ch_p_loss ch_latency_ms ch_distance_km].
  split; [apply clip_unit_interval |]. split; [| reflexivity].
  rewrite py_max_R. rewrite Q2R_lit_0. apply Rmax_l.
Qed.

(** X6.  On the reals and for every generator, a quantum hop reports a
    survival probability within [0, 1]; over a link that is not quantum
    it is 1/2 and neither it nor the outcome depends on the distance. *)
Theorem quantum_hop_probability (e : EdgeData R) (rng : Rng) :
  exists ok m rng',
    simulate_quantum_hop e rng = Ok ((ok, m), rng')
    /\ 0 <= qh_p_survive m <= 1
    /\ (quantum e = false ->
        qh_p_survive m = 1 / 2
        /\ forall d' : R,
             exists m',
               simulate_quantum_hop {| distance_km := d'; quantum := false |} rng
               = Ok ((ok, m'), rng')
               /\ qh_p_survive m' = qh_p_survive m).
Proof.
  unfold simulate_quantum_hop, bind, draw, ret.
  destruct (quantum e) eqn:Hq; cbn [negb];
    destruct (rng_random rng) as [x r1] eqn:Hr.
  - eexists. eexists. eexists. split; [reflexivity |].
    cbn [qh_p_survive]. split; [| discriminate].
    apply clip_unit_interval.
  - eexists. eexists. eexists. split; [reflexivity |].
    cbn [qh_p_survive].
    assert (Hhalf : f_sub (f_lit 1) CLASSICAL_INTERCEPT_QUANTUM_FAIL_PROB
                    = 1 / 2).
    { unfold CLASSICAL_INTERCEPT_QUANTUM_FAIL_PROB. cbn [f_sub f_lit Float_R].
      unfold Q2R; simpl; lra. }
    rewrite Hhalf. split; [lra |]. intros _. split; [reflexivity |].
    intros d'. eexists. split.
    + cbn [quantum negb]. cbv beta. rewrite Hr. reflexivity.
    + reflexivity.
Qed.
End LinkModelsReal.

Section EdgeWeightsReal.
Local Open Scope R_scope.



End EdgeWeightsReal.

(** ** Routing: the hybrid plan, one-node plans, the two lookups *)

Section RoutingFacts.
Context {F Rng : Type} `{Float F} `{RandomSource F Rng} `{NetworkX F}.
Implicit Types (G : Graph F) (rng : Rng) (POLICIES : gmap string (Policy F)).
Import Routing.
Variable fuel : nat.

Lemma hybrid_loop_extends (n : nat) G dst : forall here path p,
  hybrid_loop n G dst here path = Ok p -> exists rest, p = path ++ rest.
Proof.
  induction n as [|n IH]; intros here path p; cbn [hybrid_loop];
    case_bool_decide.
  - intros [= <-]. exists []. rewrite app_nil_r. reflexivity.
  - discriminate.
  - intros [= <-]. exists []. rewrite app_nil_r. reflexivity.
  - unfold res_bind.
    destruct (nx_shortest_path (quantum_subgraph G) here dst _)
      as [qp | e |]; try discriminate.
    + destruct qp as [|a [|next_hop qp]].
      * destruct (classical_latency G here dst) as [c_tail | |];
          try discriminate.
        destruct (py_not_path c_tail); intros [= <-]; eauto.
        exists []. rewrite app_nil_r. reflexivity.
      * destruct (classical_latency G here dst) as [c_tail | |];
          try discriminate.
        destruct (py_not_path c_tail); intros [= <-]; eauto.
        exists []. rewrite app_nil_r. reflexivity.
      * intros Hrec. destruct (IH _ _ _ Hrec) as [rest ->].
        exists (next_hop :: rest). rewrite <- app_assoc. reflexivity.
    + assert (Hfall :
        match classical_latency G here dst with
        | Ok c_tail =>
            if py_not_path c_tail then Ok path
            else Ok (path ++ drop 1 (default [] c_tail))
        | Raise e0 => Raise e0
        | Diverges => Diverges
        end = Ok p -> exists rest, p = path ++ rest).
      { destruct (classical_latency G here dst) as [c_tail | |];
          try discriminate.
        destruct (py_not_path c_tail); intros [= <-]; eauto.
        exists []. rewrite app_nil_r. reflexivity. }
      destruct e; try discriminate; exact Hfall.
Qed.

(** X8.  [hybrid] never returns [None] nor an empty path: whatever it
    returns starts at the source.  So [send_message] with the built-in
    hybrid policy never answers ["no_path"]. *)
Theorem send_message_hybrid_never_no_path POLICIES G (src dst : Z) rng res rng' :
  POLICIES !! "hybrid" = Some (hybrid fuel) ->
  send_message POLICIES G src dst "hybrid" rng = Ok (res, rng') ->
  (exists rest, hybrid fuel G src dst = Ok (Some (src :: rest))
                /\ s_path res = Some (src :: rest))
  /\ s_reason res = None.
Proof.
  intros Hreg. unfold send_message, get_policy, bind at 1, lift at 1.
  rewrite Hreg. unfold bind at 1, lift at 1.
  unfold hybrid at 1, res_bind at 1.
  destruct (hybrid_loop fuel G dst src [src]) as [p | |] eqn:Hloop;
    try discriminate.
  destruct (hybrid_loop_extends _ _ _ _ _ _ Hloop) as [rest ->].
  cbn [py_not_path app default from_option Datatypes.id].
  assert (Hh : hybrid fuel G src dst = Ok (Some (src :: rest))).
  { unfold hybrid, res_bind. rewrite Hloop. reflexivity. }
  unfold bind at 1.
  destruct (simulate_path_quantum G (src :: rest) rng) as [[q rng1] | |];
    try discriminate.
  destruct (q_success q).
  - intros [= <- _]. split; [exists rest; split; [exact Hh | reflexivity] |].
    reflexivity.
  - unfold bind at 1.
    destruct (simulate_path_classical G (src :: rest) rng1) as [[c rng2] | |];
      try discriminate.
    intros [= <- _]. split; [exists rest; split; [exact Hh | reflexivity] |].
    reflexivity.
Qed.

Lemma hybrid_globals POLICIES :
  routing_globals (Rng:=Rng) fuel POLICIES !! "hybrid" = Some (PyPolicy (hybrid fuel)).
Proof. reflexivity. Qed.

(** X9.  [hybrid] plans the one-node path [[src]] when the destination
    is the source, and also when neither a quantum route nor a classical
    route leaves the source (networkx finds no path in the quantum
    subgraph and none in the whole graph). *)
Theorem hybrid_one_node_plan G (src dst : Z) :
  src = dst
  \/ ((exists n, fuel = S n)
      /\ (exists e,
            nx_shortest_path (quantum_subgraph G) src dst
              (Some (fun d => q_weight (distance_km d))) = Raise e
            /\ (e = NetworkXNoPath \/ e = NodeNotFound))
      /\ nx_shortest_path G src dst
           (Some (fun d => c_latency_weight (distance_km d)))
         = Raise NetworkXNoPath) ->
  hybrid fuel G src dst = Ok (Some [src]).
Proof.
  intros [-> | ([n ->] & (e & Hq & He) & Hc)].
  - unfold hybrid. destruct fuel; cbn [hybrid_loop];
      rewrite bool_decide_eq_true_2 by reflexivity; reflexivity.
  - unfold hybrid. cbn [hybrid_loop]. case_bool_decide; [reflexivity |].
    rewrite Hq. unfold classical_latency. rewrite Hc.
    destruct He as [-> | ->]; reflexivity.
Qed.

(** X10.  On a one-node plan the two senders disagree: [send_message]
    reports a quantum success with path [[src]], without any draw, while
    [send_message_reliable] reports the failure ["no_path"] with an empty
    history. *)
Theorem one_node_plan_outcomes POLICIES G (src dst : Z) rng :
  POLICIES !! "hybrid" = Some (hybrid fuel) ->
  hybrid fuel G src dst = Ok (Some [src]) ->
  send_message POLICIES G src dst "hybrid" rng
    = Ok ({| s_success := true; s_reason := None; s_policy := None;
             s_mode := Some "quantum"; s_path := Some [src] |}, rng)
  /\ send_message_reliable fuel POLICIES G src dst "hybrid" rng
     = Ok ({| r_success := false; r_reason := Some "no_path";
              r_mode := None; r_path := None; r_history := [] |}, rng).
Proof.
  intros Hreg Hplan. split.
  - unfold send_message, get_policy, bind at 1, lift at 1. rewrite Hreg.
    unfold bind at 1, lift at 1. rewrite Hplan. reflexivity.
  - unfold send_message_reliable. rewrite hybrid_globals.
    cbn [default from_option Datatypes.id].
    unfold reliable_with, bind, lift. rewrite Hplan. reflexivity.
Qed.
End RoutingFacts.

Lemma send_message_hybrid_never_no_path_witness :
  let res := {| Routing.s_success := false; Routing.s_reason := None;
                Routing.s_policy := None;
                Routing.s_mode := Some "classical";
                Routing.s_path := Some [0; 1] |} in
  Routing.default_POLICIES 5 !! "hybrid" = Some (Routing.hybrid 5)
  /\ Routing.send_message (Routing.default_POLICIES 5) pair_quantum 0 1
       "hybrid" [99 # 100; 0; 0]%Q = Ok (res, [])
  /\ (exists rest,
        Routing.hybrid 5 pair_quantum 0 1 = Ok (Some (0 :: rest))
        /\ Routing.s_path res = Some (0 :: rest))
  /\ Routing.s_reason res = None.
Proof.
  intros res.
  split; [reflexivity |]. split; [vm_compute; reflexivity |].
  apply (send_message_hybrid_never_no_path 5 (Routing.default_POLICIES 5)
           pair_quantum 0 1 [99 # 100; 0; 0]%Q res []).
  - reflexivity.
  - vm_compute; reflexivity.
Defined.

Lemma hybrid_one_node_plan_witness :
  (0 = 3
   \/ ((exists n, 5%nat = S n)
       /\ (exists e,
             nx_shortest_path (quantum_subgraph split_quantum) 0 3
               (Some (fun d => Routing.q_weight (distance_km d))) = Raise e
             /\ (e = NetworkXNoPath \/ e = NodeNotFound))
       /\ nx_shortest_path split_quantum 0 3
            (Some (fun d => Routing.c_latency_weight (distance_km d)))
          = Raise NetworkXNoPath))
  /\ Routing.hybrid 5 split_quantum 0 3 = Ok (Some [0]).
Proof.
  assert (Hhyp :
    0 = 3
    \/ ((exists n, 5%nat = S n)
        /\ (exists e,
              nx_shortest_path (quantum_subgraph split_quantum) 0 3
                (Some (fun d => Routing.q_weight (distance_km d))) = Raise e
              /\ (e = NetworkXNoPath \/ e = NodeNotFound))
        /\ nx_shortest_path split_quantum 0 3
             (Some (fun d => Routing.c_latency_weight (distance_km d)))
           = Raise NetworkXNoPath)).
  { right. split; [exists 4%nat; reflexivity |]. split.
    - exists NetworkXNoPath. split; [vm_compute; reflexivity | left; reflexivity].
    - vm_compute; reflexivity. }
  split; [exact Hhyp |].
  exact (hybrid_one_node_plan 5 split_quantum 0 3 Hhyp).
Defined.

Lemma one_node_plan_outcomes_witness :
  Routing.default_POLICIES 5 !! "hybrid" = Some (Routing.hybrid 5)
  /\ Routing.hybrid 5 split_quantum 0 3 = Ok (Some [0])
  /\ Routing.send_message (Routing.default_POLICIES 5) split_quantum 0 3
       "hybrid" [1 # 2]%Q
     = Ok ({| Routing.s_success := true; Routing.s_reason := None;
              Routing.s_policy := None; Routing.s_mode := Some "quantum";
              Routing.s_path := Some [0] |}, [1 # 2]%Q)
  /\ Routing.send_message_reliable 5 (Routing.default_POLICIES 5)
       split_quantum 0 3 "hybrid" [1 # 2]%Q
     = Ok ({| Routing.r_success := false;
              Routing.r_reason := Some "no_path";
              Routing.r_mode := None; Routing.r_path := None;
              Routing.r_history := [] |}, [1 # 2]%Q).
Proof.
  split; [reflexivity |]. split; [vm_compute; reflexivity |].
  apply (one_node_plan_outcomes 5 (Routing.default_POLICIES 5) split_quantum
           0 3 [1 # 2]%Q).
  - reflexivity.
  - vm_compute; reflexivity.
Defined.

(** ** Routing: the registry and the module namespace; classical plans *)

Section RegistryFacts.
Context {F Rng : Type} `{Float F} `{RandomSource F Rng} `{NetworkX F}.
Implicit Types (G : Graph F) (rng : Rng) (POLICIES : gmap string (Policy F)).
Import Routing.
Variable fuel : nat.

Lemma routing_globals_registry_free (P1 P2 : gmap string (Policy F)) name :
  name <> "send_message" ->
  routing_globals (Rng:=Rng) fuel P1 !! name
  = routing_globals (Rng:=Rng) fuel P2 !! name.
Proof.
  intros Hname.
  destruct (routing_globals fuel P1 !! name) as [obj |] eqn:Hg.
  - unfold routing_globals in Hg. apply elem_of_list_to_map_2 in Hg.
    repeat (apply elem_of_cons in Hg as [Hg | Hg];
            [injection Hg as -> ->; first [reflexivity | congruence] |]).
    apply elem_of_nil in Hg. contradiction.
  - symmetry. unfold routing_globals in *.
    apply not_elem_of_list_to_map_2 in Hg.
    apply not_elem_of_list_to_map_1. exact Hg.
Qed.

(** X11.  [send_message_reliable] never reads the registry: for every
    name but ["send_message"] its result is the same under any two
    registries.  A policy registered under a name that the module does
    not bind is found by [get] (so [send_message] runs it) while
    [send_message_reliable] runs the built-in hybrid policy instead. *)
Theorem reliable_send_ignores_registry (P1 P2 : gmap string (Policy F))
  G (src dst : Z) (name : string) (fn : Policy F) rng :
  name <> "send_message" ->
  send_message_reliable fuel P1 G src dst name rng
  = send_message_reliable fuel P2 G src dst name rng
  /\ get_policy (register name fn P1) name = Ok fn
  /\ (routing_globals (Rng:=Rng) fuel P1 !! name = None ->
      send_message_reliable fuel (register name fn P1) G src dst name rng
      = reliable_with name (hybrid fuel) G src dst rng).
Proof.
  intros Hname. split; [| split].
  - unfold send_message_reliable.
    rewrite (routing_globals_registry_free P1 P2 name Hname). reflexivity.
  - unfold get_policy, register. rewrite lookup_insert_eq. reflexivity.
  - intros Hnone. unfold send_message_reliable.
    rewrite (routing_globals_registry_free (register name fn P1) P1 name Hname).
    rewrite Hnone, (mode_lookup_unbound fuel _ _ Hnone). reflexivity.
Qed.

(** X12.  The registry: [get] returns what was last registered under the
    name, registering a name leaves the other names alone, and a name
    that was never registered raises KeyError. *)
Theorem registry_round_trip POLICIES (name other : string) (f1 f2 : Policy F) :
  get_policy (register name f1 POLICIES) name = Ok f1
  /\ get_policy (register name f2 (register name f1 POLICIES)) name = Ok f2
  /\ (other <> name ->
      get_policy (register name f1 POLICIES) other = get_policy POLICIES other)
  /\ (POLICIES !! name = None -> get_policy POLICIES name = Raise KeyError)
  /\ get_policy (∅ : gmap string (Policy F)) name = Raise KeyError.
Proof.
  unfold get_policy, register. repeat split.
  - rewrite lookup_insert_eq. reflexivity.
  - rewrite lookup_insert_eq. reflexivity.
  - intros Hne. rewrite lookup_insert_ne by congruence. reflexivity.
  - intros ->. reflexivity.
Qed.

Lemma reliable_loop_classical G dst init_mode (hops : list (Z * Z)) :
  Forall (classical_hop G) hops ->
  forall assembled history rng,
  exists new rng',
    reliable_loop G dst init_mode hops assembled history rng
    = Ok ({| r_success := true; r_reason := None; r_mode := Some init_mode;
             r_path := Some (assembled ++ hops.*2);
             r_history := history ++ new |}, rng')
    /\ length new = length hops
    /\ Forall (fun rec => rec !! "mode" = Some (VStr "classical_path")) new.
Proof.
  induction 1 as [|[u v] hops (d & Hd & Hq) _ IH]; intros assembled history rng.
  - exists [], rng. cbn [reliable_loop fmap list_fmap].
    rewrite !app_nil_r. repeat split. constructor.
  - cbn [fst snd] in Hd.
    destruct (single_hop_classical G u v d rng Hd) as (cres & rng1 & Hc & Hm).
    destruct (IH (assembled ++ [v])
                 (history ++ [classical_record cres [u; v]]) rng1)
      as (new & rng' & Hrun & Hlen & Hmodes).
    exists (classical_record cres [u; v] :: new), rng'.
    cbn [reliable_loop]. unfold bind at 1, lift at 1. rewrite Hd, Hq.
    unfold bind at 1. rewrite Hc. rewrite Hrun.
    rewrite <- !app_assoc. split; [reflexivity |].
    split; [cbn [length]; congruence |].
    constructor; [| exact Hmodes].
    rewrite (proj1 (classical_record_fields cres [u; v])), Hm. reflexivity.
Qed.

(** X13.  A plan over classical links only is always delivered: whatever
    is drawn (lost hops included), [send_message_reliable] returns success
    with the planned path and one history record per edge, each with the
    mode of the classical simulator. *)
Theorem classical_plan_always_delivered POLICIES G (src dst : Z) policy
  (path_fn : Policy F) full_path rng :
  default (PyPolicy (hybrid fuel)) (routing_globals fuel POLICIES !! policy)
    = PyPolicy (Rng:=Rng) path_fn ->
  path_fn G src dst = Ok (Some full_path) ->
  (2 <= length full_path)%nat ->
  Forall (classical_hop G) (zip full_path (drop 1 full_path)) ->
  exists res rng',
    send_message_reliable fuel POLICIES G src dst policy rng = Ok (res, rng')
    /\ r_success res = true
    /\ r_reason res = None
    /\ r_path res = Some full_path
    /\ length (r_history res) = (length full_path - 1)%nat
    /\ Forall (fun rec => rec !! "mode" = Some (VStr "classical_path"))
              (r_history res).
Proof.
  intros Hfn Hret Hlen Hhops.
  unfold send_message_reliable. rewrite Hfn.
  unfold reliable_with, bind, lift. rewrite Hret.
  cbn [default from_option Datatypes.id].
  destruct full_path as [|a [|b rest]]; cbn [length] in Hlen; try lia.
  cbn [py_not_path orb].
  replace (length (a :: b :: rest) <? 2)%nat with false
    by (symmetry; apply Nat.ltb_ge; cbn [length]; lia).
  destruct (reliable_loop_classical G dst
              (default policy (mode_lookup !! policy)) _ Hhops
              (take 1 (a :: b :: rest)) [] rng)
    as (new & rng' & Hrun & Hnew & Hmodes).
  eexists. eexists. split; [exact Hrun |].
  cbn [r_success r_reason r_path r_history app].
  repeat split; auto.
  - f_equal. rewrite snd_zip by (rewrite length_drop; lia).
    reflexivity.
  - rewrite Hnew, length_zip, length_drop. cbn [length]. lia.
Qed.
End RegistryFacts.

Lemma reliable_send_ignores_registry_witness :
  "judge_policy" <> "send_message"
  /\ Routing.send_message_reliable 5 (Routing.default_POLICIES 5)
       pair_quantum 0 1 "judge_policy" [1 # 2]%Q
     = Routing.send_message_reliable 5 ∅ pair_quantum 0 1 "judge_policy"
         [1 # 2]%Q
  /\ get_policy (register "judge_policy" heuristic (Routing.default_POLICIES 5))
       "judge_policy" = Ok heuristic
  /\ (Routing.routing_globals (Rng:=list Q) 5 (Routing.default_POLICIES 5)
        !! "judge_policy" = None ->
      Routing.send_message_reliable 5
        (register "judge_policy" heuristic (Routing.default_POLICIES 5))
        pair_quantum 0 1 "judge_policy" [1 # 2]%Q
      = Routing.reliable_with "judge_policy" (Routing.hybrid 5)
          pair_quantum 0 1 [1 # 2]%Q).
Proof.
  split; [discriminate |].
  apply (reliable_send_ignores_registry 5 (Routing.default_POLICIES 5) ∅
           pair_quantum 0 1 "judge_policy" heuristic [1 # 2]%Q).
  discriminate.
Defined.

Lemma classical_plan_always_delivered_witness :
  default (Routing.PyPolicy (Routing.hybrid 5))
    (Routing.routing_globals 5 (Routing.default_POLICIES 5)
       !! "classical_latency")
  = Routing.PyPolicy (Rng:=list Q) Routing.classical_latency
  /\ Routing.classical_latency line_classical 0 2 = Ok (Some [0; 1; 2])
  /\ (2 <= length [0; 1; 2])%nat
  /\ Forall (classical_hop line_classical) (zip [0; 1; 2] (drop 1 [0; 1; 2]))
  /\ exists res rng',
       Routing.send_message_reliable 5 (Routing.default_POLICIES 5)
         line_classical 0 2 "classical_latency" [0; 0; 0; 0; 0; 0]%Q
       = Ok (res, rng')
       /\ Routing.r_success res = true
       /\ Routing.r_reason res = None
       /\ Routing.r_path res = Some [0; 1; 2]
       /\ length (Routing.r_history res) = (length [0; 1; 2] - 1)%nat
       /\ Forall (fun rec => rec !! "mode" = Some (VStr "classical_path"))
                 (Routing.r_history res).
Proof.
  assert (Hhops : Forall (classical_hop line_classical)
                         (zip [0; 1; 2] (drop 1 [0; 1; 2]))).
  { repeat constructor; eexists; split; vm_compute; reflexivity. }
  split; [reflexivity |]. split; [vm_compute; reflexivity |].
  split; [simpl; lia |]. split; [exact Hhops |].
  apply (classical_plan_always_delivered 5 (Routing.default_POLICIES 5)
           line_classical 0 2 "classical_latency" Routing.classical_latency
           [0; 1; 2] [0; 0; 0; 0; 0; 0]%Q).
  - reflexivity.
  - vm_compute; reflexivity.
  - simpl; lia.
  - exact Hhops.
Defined.

(** ** Repeater environment: the cloned graph, the reward, the Gym step *)

Section RepeaterFacts.
Context {F Rng Gen : Type} `{Float F} `{RandomSource F Rng}
        `{NumpyGenerator F Gen} `{NetworkX F}.
Import Repeater.
Implicit Types (env : RepeaterEnv (F:=F)) (G : Graph F).

Lemma upgrade_nodes_spec (repeaters : list Z) : forall G (n0 : Z) G',
  upgrade_nodes G n0 repeaters = Ok G' ->
  adj G' = adj G
  /\ (forall n, is_Some (nodes G' !! n) <-> is_Some (nodes G !! n))
  /\ (forall i r,
        repeaters !! i = Some r -> r <> 0 ->
        nodes G' !! (n0 + Z.of_nat i)
        = Some {| node_quantum := true; can_store_entanglement := true |})
  /\ (forall n,
        (forall i r, repeaters !! i = Some r -> r <> 0 -> n <> n0 + Z.of_nat i) ->
        nodes G' !! n = nodes G !! n).
Proof.
  induction repeaters as [|r rest IH]; intros G n0 G'; cbn [upgrade_nodes].
  - intros [= <-]. repeat split; auto. intros i r Hi. discriminate Hi.
  - destruct (r =? 0) eqn:Hr.
    + apply Z.eqb_eq in Hr. subst r. intros Hrec.
      destruct (IH _ _ _ Hrec) as (Hadj & Hdom & Hup & Hkeep).
      split; [exact Hadj |]. split; [exact Hdom |]. split.
      * intros [|i] r Hi Hne.
        -- injection Hi as <-. contradiction.
        -- replace (n0 + Z.of_nat (S i)) with (n0 + 1 + Z.of_nat i) by lia.
           exact (Hup i r Hi Hne).
      * intros n Hn. apply Hkeep. intros i r Hi Hne.
        specialize (Hn (S i) r Hi Hne). lia.
    + apply Z.eqb_neq in Hr. unfold res_bind, nodes_get.
      destruct (nodes G !! n0) as [nd0 |] eqn:Hn0; [| discriminate].
      intros Hrec. destruct (IH _ _ _ Hrec) as (Hadj & Hdom & Hup & Hkeep).
      cbn [adj nodes] in *.
      split; [exact Hadj |]. split; [| split].
      * intros n. rewrite Hdom.
        destruct (decide (n = n0)) as [-> | Hne].
        -- rewrite lookup_insert_eq, Hn0. split; eauto.
        -- rewrite lookup_insert_ne by congruence. reflexivity.
      * intros [|i] r' Hi Hne.
        -- rewrite Z.add_0_r.
           rewrite Hkeep.
           ++ apply lookup_insert_eq.
           ++ intros j rj _ _. lia.
        -- replace (n0 + Z.of_nat (S i)) with (n0 + 1 + Z.of_nat i) by lia.
           exact (Hup i r' Hi Hne).
      * intros n Hn. rewrite Hkeep.
        -- apply lookup_insert_ne. specialize (Hn 0%nat r eq_refl Hr). lia.
        -- intros i r' Hi Hne. specialize (Hn (S i) r' Hi Hne). lia.
Qed.

Lemma upgrade_nodes_cases (repeaters : list Z) : forall G (n0 : Z),
  match upgrade_nodes G n0 repeaters with
  | Ok _ =>
      forall i r, repeaters !! i = Some r -> r <> 0 ->
                  is_Some (nodes G !! (n0 + Z.of_nat i))
  | Raise e =>
      e = KeyError
      /\ exists i r, repeaters !! i = Some r /\ r <> 0
                     /\ nodes G !! (n0 + Z.of_nat i) = None
  | Diverges => False
  end.
Proof.
  induction repeaters as [|r rest IH]; intros G n0; cbn [upgrade_nodes].
  - intros i r Hi. discriminate Hi.
  - destruct (r =? 0) eqn:Hr.
    + apply Z.eqb_eq in Hr. subst r. specialize (IH G (n0 + 1)).
      destruct (upgrade_nodes G (n0 + 1) rest) as [G' | e |].
      * intros [|i] r Hi Hne.
        -- injection Hi as <-. contradiction.
        -- replace (n0 + Z.of_nat (S i)) with (n0 + 1 + Z.of_nat i) by lia.
           exact (IH i r Hi Hne).
      * destruct IH as (-> & i & r & Hi & Hne & Hnone).
        split; [reflexivity |]. exists (S i), r.
        replace (n0 + Z.of_nat (S i)) with (n0 + 1 + Z.of_nat i) by lia.
        auto.
      * exact IH.
    + apply Z.eqb_neq in Hr. unfold res_bind, nodes_get.
      destruct (nodes G !! n0) as [nd0 |] eqn:Hn0.
      * match goal with
        | |- context [upgrade_nodes ?G1 _ _] => specialize (IH G1 (n0 + 1))
        end.
        destruct (upgrade_nodes _ (n0 + 1) rest) as [G' | e |];
          cbn [nodes] in IH.
        -- intros [|i] r' Hi Hne.
           ++ rewrite Z.add_0_r, Hn0. eauto.
           ++ specialize (IH i r' Hi Hne).
              rewrite lookup_insert_ne in IH by lia.
              replace (n0 + Z.of_nat (S i)) with (n0 + 1 + Z.of_nat i) by lia.
              exact IH.
        -- destruct IH as (-> & i & r' & Hi & Hne & Hnone).
           split; [reflexivity |]. exists (S i), r'.
           rewrite lookup_insert_ne in Hnone by lia.
           replace (n0 + Z.of_nat (S i)) with (n0 + 1 + Z.of_nat i) by lia.
           auto.
        -- exact IH.
      * split; [reflexivity |]. exists 0%nat, r.
        rewrite Z.add_0_r. auto.
Qed.

(** X14.  [_clone_graph] either returns a graph or raises KeyError, and
    it raises exactly when a masked index is not a node of the graph.
    The graph it returns has the links and the node set of the original,
    every masked node is quantum-capable and can store entanglement, and
    every other node keeps its data. *)
Theorem clone_graph_upgrades_masked_nodes env (mask : list Z) :
  match _clone_graph env mask with
  | Ok G' =>
      (forall i r, mask !! i = Some r -> r <> 0 ->
                   is_Some (nodes (G_orig env) !! Z.of_nat i))
      /\ adj G' = adj (G_orig env)
      /\ (forall n, is_Some (nodes G' !! n)
                    <-> is_Some (nodes (G_orig env) !! n))
      /\ (forall i r, mask !! i = Some r -> r <> 0 ->
                      nodes G' !! Z.of_nat i
                      = Some {| node_quantum := true;
                                can_store_entanglement := true |})
      /\ (forall n, (forall i r, mask !! i = Some r -> r <> 0 ->
                                 n <> Z.of_nat i) ->
                    nodes G' !! n = nodes (G_orig env) !! n)
  | Raise e =>
      e = KeyError
      /\ exists i r, mask !! i = Some r /\ r <> 0
                     /\ nodes (G_orig env) !! Z.of_nat i = None
  | Diverges => False
  end.
Proof.
  unfold _clone_graph.
  pose proof (upgrade_nodes_cases mask (G_orig env) 0) as Hcases.
  pose proof (upgrade_nodes_spec mask (G_orig env) 0) as Hspec.
  destruct (upgrade_nodes (G_orig env) 0 mask) as [G' | e |].
  - destruct (Hspec G' eq_refl) as (Hadj & Hdom & Hup & Hkeep).
    split; [exact Hcases |]. split; [exact Hadj |]. split; [exact Hdom |].
    split; [exact Hup |]. exact Hkeep.
  - exact Hcases.
  - exact Hcases.
Qed.


End RepeaterFacts.

Section MaskFacts.
Context {F Rng Gen : Type} `{Float F} `{RandomSource F Rng}
        `{NumpyGenerator F Gen} `{NetworkX F}.
Import Repeater RepeaterStep.
Implicit Types (env : RepeaterEnv (F:=F)) (mask : list Z).

Lemma toggle_twice (i : nat) mask :
  alter (fun b => Z.lxor b 1) i (alter (fun b => Z.lxor b 1) i mask) = mask.
Proof.
  rewrite list_alter_alter_eq. apply list_alter_id.
  intros b. cbn. rewrite Z.lxor_assoc, Z.lxor_nilpotent. apply Z.lxor_0_r.
Qed.

Lemma toggle_bits (i : nat) mask :
  Forall (fun b => b = 0 \/ b = 1) mask ->
  Forall (fun b => b = 0 \/ b = 1) (alter (fun b => Z.lxor b 1) i mask).
Proof.
  intros Hbits. apply Forall_alter; [exact Hbits |].
  intros b _ [-> | ->]; [right | left]; reflexivity.
Qed.

Lemma mask_sum_bits mask :
  Forall (fun b => b = 0 \/ b = 1) mask ->
  0 <= mask_sum mask <= Z.of_nat (length mask).
Proof.
  induction 1 as [|b mask Hb _ IH]; cbn [mask_sum fold_right length].
  - lia.
  - fold (mask_sum mask). destruct Hb as [-> | ->]; lia.
Qed.

Lemma np_index_range (n : nat) (i : Z) :
  match np_index n i with
  | Ok k => (k < n)%nat /\ - Z.of_nat n <= i < Z.of_nat n
  | Raise e => e = IndexError /\ (i < - Z.of_nat n \/ Z.of_nat n <= i)
  | Diverges => False
  end.
Proof.
  unfold np_index.
  destruct (0 <=? i) eqn:H0i, (i <? Z.of_nat n) eqn:Hin; cbn [andb];
    try (apply Z.leb_le in H0i); try (apply Z.leb_gt in H0i);
    try (apply Z.ltb_lt in Hin); try (apply Z.ltb_ge in Hin);
    try (split; lia).
  - destruct (- Z.of_nat n <=? i) eqn:Hlo, (i <? 0) eqn:Hneg; cbn [andb];
      try (apply Z.leb_le in Hlo); try (apply Z.leb_gt in Hlo);
      try (apply Z.ltb_lt in Hneg); try (apply Z.ltb_ge in Hneg);
      split; try reflexivity; lia.
  - destruct (- Z.of_nat n <=? i) eqn:Hlo, (i <? 0) eqn:Hneg; cbn [andb];
      try (apply Z.leb_le in Hlo); try (apply Z.leb_gt in Hlo);
      try (apply Z.ltb_lt in Hneg); try (apply Z.ltb_ge in Hneg);
      split; try reflexivity; lia.
  - destruct (- Z.of_nat n <=? i) eqn:Hlo, (i <? 0) eqn:Hneg; cbn [andb];
      try (apply Z.leb_le in Hlo); try (apply Z.leb_gt in Hlo);
      try (apply Z.ltb_lt in Hneg); try (apply Z.ltb_ge in Hneg);
      split; try reflexivity; lia.
Qed.

(** X16.  [step(action)] toggles one entry of the mask.  An action
    outside [-n, n) raises IndexError.  Otherwise, when the toggled mask
    is over budget the toggle is undone: the mask is the one before the
    call, the reward is -0.5 and no trial is run; else the toggled mask
    stays and the reward is the one [_compute_reward] gives for it.  In
    every returning call the observation is the new mask, [done] is true
    and [truncated] false, the mask keeps its length, and a mask within
    the budget stays within it. *)
Theorem step_toggles_within_budget env (repeaters : list Z) (action : Z) rng :
  (action < - Z.of_nat (length repeaters)
   \/ Z.of_nat (length repeaters) <= action ->
   step env repeaters action rng = Raise IndexError)
  /\ forall new res rng',
       step env repeaters action rng = Ok ((new, res), rng') ->
       length new = length repeaters
       /\ observation res = new /\ done res = true /\ truncated res = false
       /\ (mask_sum repeaters <= max_repeaters env ->
           mask_sum new <= max_repeaters env)
       /\ exists i : nat,
            (i < length repeaters)%nat
            /\ Z.of_nat i = action mod Z.of_nat (length repeaters)
            /\ let toggled := alter (fun b => Z.lxor b 1) i repeaters in
               if max_repeaters env <? mask_sum toggled
               then new = repeaters /\ reward res = f_lit (-0.5) /\ rng' = rng
               else new = toggled
                    /\ _compute_reward env toggled rng = Ok (reward res, rng').
Proof.
  pose proof (np_index_range (length repeaters) action) as Hidx.
  unfold step, bind at 1, lift at 1. split.
  - intros Hout.
    destruct (np_index (length repeaters) action) as [i | e |].
    + lia.
    + destruct Hidx as [-> _]. reflexivity.
    + contradiction.
  - intros new res rng'.
    destruct (np_index (length repeaters) action) as [i | e |] eqn:Hi;
      try discriminate.
    destruct Hidx as [Hlt Hrange].
    unfold bind at 1, lift at 1. cbv beta iota.
    assert (Hmod : Z.of_nat i = action mod Z.of_nat (length repeaters)).
    { unfold np_index in Hi.
      destruct ((0 <=? action) && (action <? Z.of_nat (length repeaters)))
        eqn:Hpos.
      - injection Hi as <-. apply andb_prop in Hpos as [Hp _].
        apply Z.leb_le in Hp. rewrite Z.mod_small by lia. lia.
      - destruct ((- Z.of_nat (length repeaters) <=? action) && (action <? 0))
          eqn:Hneg; [| discriminate].
        injection Hi as <-. apply andb_prop in Hneg as [_ Hn].
        apply Z.ltb_lt in Hn.
        rewrite <- (Z.mod_add action 1) by lia.
        rewrite Z.mod_small by lia. lia. }
    destruct (max_repeaters env
              <? mask_sum (alter (fun b => Z.lxor b 1) i repeaters)) eqn:Hover.
    + cbv zeta. rewrite !toggle_twice. unfold ret. intros [= <- <- <-].
      cbn [observation reward done truncated].
      repeat split; auto.
      exists i. cbn zeta. rewrite Hover. auto.
    + unfold bind, ret.
      destruct (_compute_reward env _ rng) as [[r rng1] | |] eqn:Hr;
        try discriminate.
      intros [= <- <- <-]. cbn [observation reward done truncated].
      apply Z.ltb_ge in Hover.
      split; [apply length_alter |]. repeat split; auto.
      exists i. cbn zeta.
      destruct (max_repeaters env
                <? mask_sum (alter (fun b => Z.lxor b 1) i repeaters))
        eqn:Hover'; [apply Z.ltb_lt in Hover'; lia |].
      auto.
Qed.

Lemma hc_step_bits env (st st' : HCState (F:=F) (Rng:=Rng) (Gen:=Gen)) (n : nat) :
  hc_step env st = Ok st' ->
  length (best_mask st) = n /\ Forall (fun b => b = 0 \/ b = 1) (best_mask st) ->
  (length (best_mask st') = n
   /\ Forall (fun b => b = 0 \/ b = 1) (best_mask st'))
  /\ length (repeaters st') = n
  /\ Forall (fun b => b = 0 \/ b = 1) (repeaters st').
Proof.
  intros Hstep [Hlen Hbits]. unfold hc_step, res_bind, make_candidate in Hstep.
  destruct (np_integers 0 _ (env_rng st)) as [[flip g] | |];
    try discriminate.
  cbn [fst snd] in Hstep.
  set (candidate := alter (fun b => Z.lxor b 1) (Z.to_nat flip) (best_mask st))
    in *.
  assert (Hc : length candidate = n
               /\ Forall (fun b => b = 0 \/ b = 1) candidate).
  { split; [unfold candidate; rewrite length_alter; exact Hlen |].
    apply toggle_bits. exact Hbits. }
  destruct (max_repeaters env <? mask_sum candidate).
  - injection Hstep as <-. cbn. tauto.
  - destruct (_compute_reward env candidate (sim_rng st)) as [[r rng1] | |];
      try discriminate.
    cbn [fst snd] in Hstep.
    destruct (f_ltb (best_reward st) r); injection Hstep as <-; cbn; tauto.
Qed.

Lemma hc_states_bits env (n : nat) (k : nat) : forall st,
  length (best_mask st) = n /\ Forall (fun b => b = 0 \/ b = 1) (best_mask st) ->
  Forall (fun st' =>
            (length (best_mask st') = n
             /\ Forall (fun b => b = 0 \/ b = 1) (best_mask st'))
            /\ length (repeaters st') = n
            /\ Forall (fun b => b = 0 \/ b = 1) (repeaters st'))
         (hc_states env k st).
Proof.
  induction k as [|k IH]; intros st Hst; cbn [hc_states]; [constructor |].
  destruct (hc_step env st) as [st' | |] eqn:Hstep; try constructor.
  - exact (hc_step_bits _ _ _ _ Hstep Hst).
  - apply IH. exact (proj1 (hc_step_bits _ _ _ _ Hstep Hst)).
Qed.

(** X17.  Throughout a run of [hill_climb] the best mask and the mask
    held by the environment are 0/1 vectors with one entry per node of
    the graph, at the start and after every iteration; so the number of
    repeaters of the mask that [hill_climb] returns lies between 0 and
    the number of nodes. *)
Theorem hill_climb_masks_are_bit_vectors env (iterations : Z) (g : Gen)
  (rng : Rng) st0 :
  hc_init env g rng = Ok st0 ->
  Forall (fun st =>
            (length (best_mask st) = size (nodes (G_orig env))
             /\ Forall (fun b => b = 0 \/ b = 1) (best_mask st))
            /\ length (repeaters st) = size (nodes (G_orig env))
            /\ Forall (fun b => b = 0 \/ b = 1) (repeaters st))
         (st0 :: hc_states env (Z.to_nat iterations) st0)
  /\ forall mask r st,
       hill_climb env iterations g rng = Ok ((mask, r), st) ->
       length mask = size (nodes (G_orig env))
       /\ Forall (fun b => b = 0 \/ b = 1) mask
       /\ 0 <= mask_sum mask <= Z.of_nat (size (nodes (G_orig env)))
       /\ repeaters st = mask.
Proof.
  intros Hinit.
  assert (Hst0 : (length (best_mask st0) = size (nodes (G_orig env))
                  /\ Forall (fun b => b = 0 \/ b = 1) (best_mask st0))
                 /\ length (repeaters st0) = size (nodes (G_orig env))
                 /\ Forall (fun b => b = 0 \/ b = 1) (repeaters st0)).
  { unfold hc_init, res_bind in Hinit.
    destruct (_compute_reward env (reset env) rng) as [[r0 rng0] | |];
      try discriminate.
    injection Hinit as <-. cbn [best_mask repeaters]. unfold reset.
    rewrite repeat_length.
    assert (Hz : Forall (fun b => b = 0 \/ b = 1)
                        (repeat 0 (size (nodes (G_orig env))))).
    { apply Forall_forall. intros b Hb. apply list_elem_of_In in Hb.
      apply repeat_spec in Hb. left. exact Hb. }
    tauto. }
  assert (Hall : Forall (fun st =>
            (length (best_mask st) = size (nodes (G_orig env))
             /\ Forall (fun b => b = 0 \/ b = 1) (best_mask st))
            /\ length (repeaters st) = size (nodes (G_orig env))
            /\ Forall (fun b => b = 0 \/ b = 1) (repeaters st))
         (st0 :: hc_states env (Z.to_nat iterations) st0)).
  { constructor; [exact Hst0 |]. apply hc_states_bits. exact (proj1 Hst0). }
  split; [exact Hall |].
  intros mask r st Hrun. unfold hill_climb, res_bind in Hrun.
  rewrite Hinit in Hrun.
  destruct (hc_loop env (Z.to_nat iterations) st0) as [stn | |] eqn:Hloop;
    try discriminate.
  injection Hrun as <- _ <-. cbn [repeaters].
  destruct (hc_loop_states _ _ _ _ Hloop) as [_ Hlast].
  apply last_Some_elem_of in Hlast.
  rewrite Forall_forall in Hall.
  destruct (Hall stn Hlast) as [[Hlen Hbits] _].
  split; [exact Hlen |]. split; [exact Hbits |].
  split; [| reflexivity]. rewrite <- Hlen. apply mask_sum_bits. exact Hbits.
Qed.
End MaskFacts.


(** On the quantum line with budget 1 and a repeater at node 0: action 3
    is out of range; action 1 would place a second repeater and is
    undone. *)
Lemma step_toggles_within_budget_witness :
  RepeaterStep.step line_env [1; 0; 0] 3 ([] : list Q) = Raise IndexError
  /\ RepeaterStep.step line_env [1; 0; 0] 1 ([] : list Q)
     = Ok (([1; 0; 0],
            {| RepeaterStep.observation := [1; 0; 0];
               RepeaterStep.reward := (-0.5)%Q;
               RepeaterStep.done := true;
               RepeaterStep.truncated := false |}), [])
  /\ (Repeater.mask_sum [1; 0; 0] <= Repeater.max_repeaters line_env ->
      Repeater.mask_sum [1; 0; 0] <= Repeater.max_repeaters line_env)
  /\ exists i : nat,
       (i < 3)%nat /\ Z.of_nat i = 1 mod 3
       /\ [1; 0; 0] = [1; 0; 0] /\ (-0.5)%Q = f_lit (-0.5)
       /\ ([] : list Q) = [].
Proof.
  destruct (step_toggles_within_budget line_env [1; 0; 0] 3 ([] : list Q))
    as [Hout _].
  destruct (step_toggles_within_budget line_env [1; 0; 0] 1 ([] : list Q))
    as [_ Hin].
  split; [apply Hout; right; vm_compute; discriminate |].
  assert (Hrun : RepeaterStep.step line_env [1; 0; 0] 1 ([] : list Q)
                 = Ok (([1; 0; 0],
                        {| RepeaterStep.observation := [1; 0; 0];
                           RepeaterStep.reward := (-0.5)%Q;
                           RepeaterStep.done := true;
                           RepeaterStep.truncated := false |}), []))
    by (vm_compute; reflexivity).
  split; [exact Hrun |].
  destruct (Hin _ _ _ Hrun) as (_ & _ & _ & _ & Hbudget & i & Hlt & Hmod & Hcase).
  split; [exact Hbudget |].
  exists i. split; [exact Hlt |]. split; [exact Hmod |].
  assert (Hi : i = 1%nat) by (apply Nat2Z.inj; rewrite Hmod; reflexivity).
  subst i. vm_compute in Hcase. exact Hcase.
Defined.

Lemma hill_climb_masks_are_bit_vectors_witness :
  let st0 := {| Repeater.best_mask := [0; 0; 0];
                Repeater.best_reward := 0%Q;
                Repeater.repeaters := [0; 0; 0];
                Repeater.env_rng := line_flips;
                Repeater.sim_rng := [] |} in
  Repeater.hc_init line_env line_flips [99 # 100; 99 # 100]%Q = Ok st0
  /\ map Repeater.repeaters (st0 :: Repeater.hc_states line_env 3 st0)
     = [[0; 0; 0]; [1; 0; 0]; [1; 1; 0]; [0; 0; 0]]
  /\ Forall (fun st =>
               (length (Repeater.best_mask st)
                = size (nodes (Repeater.G_orig line_env))
                /\ Forall (fun b => b = 0 \/ b = 1) (Repeater.best_mask st))
               /\ length (Repeater.repeaters st)
                  = size (nodes (Repeater.G_orig line_env))
               /\ Forall (fun b => b = 0 \/ b = 1) (Repeater.repeaters st))
            (st0 :: Repeater.hc_states line_env (Z.to_nat 3) st0).
Proof.
  intros st0.
  split; [vm_compute; reflexivity |].
  split; [vm_compute; reflexivity |].
  refine (proj1 (hill_climb_masks_are_bit_vectors line_env 3 line_flips
                   [99 # 100; 99 # 100]%Q st0 _)).
  vm_compute; reflexivity.
Defined.

(** ** Decoy-state BB84: sifting, reconciliation, and when a session returns *)

Section BB84Facts.
Context {F Gen : Type} `{Float F} `{NumpyGenerator F Gen}.
Variable sha3_256 : list Z -> list Z.
Variable format_3f : F -> string.
Import BB84.

Lemma bind_returns {S A B} (c : M S A) (k : A -> M S B) s b s' :
  bind c k s = Ok (b, s') ->
  exists a s1, c s = Ok (a, s1) /\ k a s1 = Ok (b, s').
Proof.
  unfold bind. destruct (c s) as [[a s1] | |]; try discriminate.
  intros Hk. exists a, s1. auto.
Qed.

Lemma np_bits_returns (n : Z) (g : Gen) l g1 :
  np_bits n g = Ok (l, g1) -> 0 <= n /\ length l = Z.to_nat n.
Proof.
  unfold np_bits. destruct (n <? 0) eqn:Hn; [discriminate |].
  apply Z.ltb_ge in Hn. unfold bind, draw, ret.
  destruct (gen_bits g) as [f g']. intros [= <- _].
  rewrite length_map, length_seq. auto.
Qed.

Lemma np_random_returns (n : Z) (g : Gen) (l : list F) g1 :
  np_random n g = Ok (l, g1) -> 0 <= n /\ length l = Z.to_nat n.
Proof.
  unfold np_random. destruct (n <? 0) eqn:Hn; [discriminate |].
  apply Z.ltb_ge in Hn. unfold bind, draw, ret.
  destruct (gen_uniform g) as [f g']. intros [= <- _].
  rewrite length_map, length_seq. auto.
Qed.

Lemma length_select_le {A} (a : list A) : forall mask,
  (length (select a mask) <= length a)%nat.
Proof.
  induction a as [|x a IH]; intros [|b mask]; cbn [select length]; try lia.
  specialize (IH mask). destruct b; cbn [length]; lia.
Qed.

Lemma length_select_eq {A B} (a : list A) : forall (b : list B) mask,
  length a = length b ->
  length (select a mask) = length (select b mask).
Proof.
  induction a as [|x a IH]; intros [|y b] [|m mask] Hlen;
    cbn [select length] in *; try lia.
  injection Hlen as Hlen. specialize (IH b mask Hlen).
  destruct m; cbn [length]; lia.
Qed.

Lemma sift_returns_lengths (n_qubits : Z) (p_noise : F) (pns : bool)
  (g g1 : Gen) (s : Sifted) :
  sift n_qubits p_noise pns g = Ok (s, g1) ->
  0 <= n_qubits
  /\ length (sift_A s) = length (sift_B s)
  /\ Z.of_nat (length (sift_A s)) <= n_qubits.
Proof.
  intros Hsift. unfold sift in Hsift.
  apply bind_returns in Hsift as (bits_A & ga & HA & Hsift).
  apply bind_returns in Hsift as (bases_A & gb & HbA & Hsift).
  apply bind_returns in Hsift as (u_decoy & gc & Hdec & Hsift).
  apply bind_returns in Hsift as (u_det & gd & Hdet & Hsift).
  apply bind_returns in Hsift as (detection & ge & _ & Hsift).
  apply bind_returns in Hsift as (bases_B & gf & HbB & Hsift).
  apply bind_returns in Hsift as (u_noise & gg & Hnoise & Hsift).
  apply bind_returns in Hsift as (bits_B & gh & HB & Hsift).
  unfold ret in Hsift. injection Hsift as <- _. cbn [sift_A sift_B].
  apply np_bits_returns in HA as [Hn HlA].
  apply np_bits_returns in HbA as [_ HlbA].
  apply np_bits_returns in HbB as [_ HlbB].
  apply np_bits_returns in HB as [_ HlB].
  apply np_random_returns in Hnoise as [_ Hlnoise].
  split; [exact Hn |]. split.
  - apply length_select_eq.
    rewrite !length_zip_with, !length_map. lia.
  - pose proof (length_select_le bits_A
                  (zip_with Bool.eqb bases_A bases_B)).
    lia.
Qed.

(** X18.  Sifting returns two strings of the same length, at most one
    bit per pulse, for every non-negative number of pulses; a negative
    number of pulses raises ValueError before any draw. *)
Theorem sift_strings_aligned (n_qubits : Z) (p_noise : F) (pns : bool) (g : Gen) :
  (n_qubits < 0 -> sift n_qubits p_noise pns g = Raise ValueError)
  /\ forall s g1,
       sift n_qubits p_noise pns g = Ok (s, g1) ->
       0 <= n_qubits
       /\ length (sift_A s) = length (sift_B s)
       /\ Z.of_nat (length (sift_A s)) <= n_qubits.
Proof.
  split.
  - intros Hneg. unfold sift, bind at 1, np_bits.
    apply Z.ltb_lt in Hneg. rewrite Hneg. reflexivity.
  - intros s g1. apply sift_returns_lengths.
Qed.

Lemma bool_sum_cons (x : bool) (a : list bool) :
  bool_sum (x :: a) = Z.b2z x + bool_sum a.
Proof.
  unfold bool_sum. rewrite filter_cons.
  destruct x; case_decide; try congruence; cbn [length Z.b2z]; lia.
Qed.

Lemma discarded_parity (a : list bool) : forall b,
  length a = length b ->
  exists k : Z,
    Z.of_nat (length a) - Z.of_nat (length (select a (zip_with Bool.eqb a b)))
    = bool_sum a - bool_sum b + 2 * k.
Proof.
  induction a as [|x a IH]; intros [|y b] Hlen; try discriminate Hlen.
  - exists 0. reflexivity.
  - injection Hlen as Hlen. destruct (IH b Hlen) as [k Hk].
    rewrite !bool_sum_cons. cbn [zip_with select].
    destruct x, y; cbn [Bool.eqb length Z.b2z].
    + exists k. lia.
    + exists k. lia.
    + exists (k + 1). lia.
    + exists k. lia.
Qed.

Lemma select_agree (a : list bool) : forall b,
  select a (zip_with Bool.eqb a b) = select b (zip_with Bool.eqb a b).
Proof.
  induction a as [|x a IH]; intros [|y b]; cbn [zip_with select]; auto.
  destruct (Bool.eqb x y) eqn:Hxy; [| apply IH].
  apply Bool.eqb_prop in Hxy. subst y. f_equal. apply IH.
Qed.

Lemma select_all_equal (a : list bool) :
  select a (zip_with Bool.eqb a a) = a.
Proof.
  induction a as [|x a IH]; cbn [zip_with select]; auto.
  rewrite Bool.eqb_reflx. f_equal. exact IH.
Qed.

(** X19.  On two strings of the same length [_reconcile] never raises.
    The bits it hashes are bits that both strings hold at the positions
    kept (after the parity flip of Bob's first bit, when there is one),
    the number of positions it discards is even, and when the two
    strings are equal the whole string is hashed. *)
Theorem reconcile_hashes_agreed_bits (bits_a bits_b : list bool) :
  length bits_a = length bits_b ->
  exists bits_b' : list bool,
    let aligned := select bits_a (zip_with Bool.eqb bits_a bits_b') in
    _reconcile sha3_256 bits_a bits_b = Ok (sha3_256 (map Z.b2z aligned))
    /\ (bits_b' = bits_b
        \/ exists b rest, bits_b = b :: rest /\ bits_b' = negb b :: rest)
    /\ aligned = select bits_b' (zip_with Bool.eqb bits_a bits_b')
    /\ Z.Even (Z.of_nat (length bits_a) - Z.of_nat (length aligned))
    /\ (bits_a = bits_b -> bits_b' = bits_b /\ aligned = bits_a).
Proof.
  intros Hlen. unfold _reconcile. cbv zeta.
  set (d := bool_sum bits_a - bool_sum bits_b).
  assert (Hpar : (d `mod` 2 ^ 64) `mod` 2 = d `mod` 2).
  { pose proof (Z.div_mod d (2 ^ 64) ltac:(lia)) as Hd.
    rewrite Hd at 2.
    replace (2 ^ 64 * (d `div` 2 ^ 64) + d `mod` 2 ^ 64)
      with (d `mod` 2 ^ 64 + (2 ^ 63 * (d `div` 2 ^ 64)) * 2) by lia.
    rewrite Z.mod_add by lia. reflexivity. }
  rewrite Hpar.
  destruct (d `mod` 2 =? 0) eqn:Hzero.
  - apply Z.eqb_eq in Hzero. exists bits_b. cbn [res_bind].
    split; [reflexivity |]. split; [left; reflexivity |].
    split; [apply select_agree |]. split.
    + destruct (discarded_parity bits_a bits_b Hlen) as [k Hk].
      fold d in Hk. rewrite Hk.
      pose proof (Z.div_mod d 2 ltac:(lia)) as Hd.
      exists (d `div` 2 + k). lia.
    + intros ->. split; [reflexivity |]. apply select_all_equal.
  - apply Z.eqb_neq in Hzero.
    destruct bits_b as [|y rest].
    + destruct bits_a; [| discriminate Hlen].
      exfalso. apply Hzero. reflexivity.
    + exists (negb y :: rest). cbn [res_bind].
      replace (xorb y true) with (negb y) by (destruct y; reflexivity).
      split; [reflexivity |]. split; [right; eauto |].
      split; [apply select_agree |]. split.
      * assert (Hlen' : length bits_a = length (negb y :: rest))
          by (rewrite Hlen; reflexivity).
        destruct (discarded_parity bits_a (negb y :: rest) Hlen') as [k Hk].
        rewrite Hk. unfold d in Hzero. rewrite !bool_sum_cons in *.
        set (e := bool_sum bits_a - (Z.b2z y + bool_sum rest)) in *.
        pose proof (Z.div_mod e 2 ltac:(lia)) as He.
        pose proof (Z.mod_pos_bound e 2 ltac:(lia)) as Hb.
        destruct y; cbn [negb Z.b2z] in *.
        -- exists (e `div` 2 + 1 + k). lia.
        -- exists (e `div` 2 + k). lia.
      * intros ->. exfalso. apply Hzero. unfold d.
        rewrite Z.sub_diag. reflexivity.
Qed.

Lemma take_indices_returns {A} (a : list A) (idx : list nat) :
  Forall (fun i => (i < length a)%nat) idx ->
  exists r, take_indices a idx = Ok r /\ length r = length idx.
Proof.
  induction 1 as [|i idx Hi _ [r [Hr Hlen]]]; cbn [take_indices].
  - exists []. auto.
  - destruct (lookup_lt_is_Some_2 a i Hi) as [x Hx]. rewrite Hx, Hr.
    exists (x :: r). cbn [res_bind length]. auto.
Qed.

Lemma set_indices_returns {A} (idx : list nat) (x : A) : forall a,
  Forall (fun i => (i < length a)%nat) idx ->
  exists r, set_indices a idx x = Ok r /\ length r = length a.
Proof.
  induction idx as [|i idx IH]; intros a Hidx; cbn [set_indices].
  - exists a. auto.
  - apply Forall_cons in Hidx as [Hi Hidx].
    destruct (lookup_lt_is_Some_2 a i Hi) as [y Hy]. rewrite Hy.
    destruct (IH (<[i := x]> a)) as [r [Hr Hlen]].
    + rewrite length_insert. exact Hidx.
    + exists r. rewrite length_insert in Hlen. auto.
Qed.

Lemma reconcile_returns (bits_a bits_b : list bool) :
  length bits_a = length bits_b ->
  exists key, _reconcile sha3_256 bits_a bits_b = Ok key.
Proof.
  intros Hlen. unfold _reconcile. cbv zeta.
  destruct (_ =? 0) eqn:Hzero; [cbn [res_bind]; eauto |].
  destruct bits_b as [|y rest]; [| cbn [res_bind]; eauto].
  destruct bits_a; [| discriminate Hlen]. discriminate Hzero.
Qed.

Lemma derive_key_returns (s : Sifted (F:=F)) (idx : list nat) :
  length (sift_A s) = length (sift_B s) ->
  Forall (fun i => (i < length (sift_A s))%nat) idx ->
  exists key, derive_key sha3_256 s idx = Ok key.
Proof.
  intros Hlen Hidx. unfold derive_key.
  destruct (set_indices_returns idx false (repeat true (length (sift_A s))))
    as [keep [Hkeep _]].
  { rewrite repeat_length. exact Hidx. }
  rewrite Hkeep. cbn [res_bind].
  apply reconcile_returns. apply length_select_eq. exact Hlen.
Qed.

(** X20.  Once sifting has returned and the generator has drawn the
    sample positions inside the sifted string, [run_bb84] returns its
    tuple: something was sifted, neither the sampling nor the
    reconciliation raises, the two yields are those of the sifting, and
    the third component is a key exactly when the session succeeded. *)
Theorem run_bb84_returns_after_sampling (n_qubits : Z) (p_noise : F)
  (pns : bool) (g g1 g2 : Gen) (s : Sifted) (idx : list nat) :
  sift n_qubits p_noise pns g = Ok (s, g1) ->
  np_choice (length (sift_A s)) (Z.to_nat (sample_len s)) g1 = Ok (idx, g2) ->
  Forall (fun i => (i < length (sift_A s))%nat) idx ->
  sift_A s <> []
  /\ exists session,
       run_bb84 sha3_256 format_3f n_qubits p_noise pns g = Ok (session, g2)
       /\ yield_signal session = y_sig s
       /\ yield_decoy session = y_dec s
       /\ if success session
          then exists key, key_or_msg session = inr key
          else exists msg, key_or_msg session = inl msg.
Proof.
  intros Hsift Hchoice Hidx.
  destruct (sift_returns_lengths _ _ _ _ _ _ Hsift) as (_ & Hlen & _).
  split.
  - intros Hempty. unfold np_choice, sample_len in Hchoice.
    rewrite Hempty in Hchoice. cbn [length] in Hchoice.
    assert (Hk : (0 <? Z.to_nat (Z.max 1 (f_trunc (f_mul (f_of_Z (Z.of_nat 0))
                                                    SAMPLE_FRAC))))%nat = true)
      by (apply Nat.ltb_lt; lia).
    rewrite Hk in Hchoice. discriminate Hchoice.
  - destruct (take_indices_returns (sift_A s) idx Hidx) as [a [Ha _]].
    destruct (take_indices_returns (sift_B s) idx) as [b [Hb _]].
    { rewrite <- Hlen. exact Hidx. }
    assert (Hsample : sample_qber s g1
                      = Ok ((idx, bool_mean
                                    (zip_with (fun x y => negb (Bool.eqb x y))
                                              a b)), g2)).
    { unfold sample_qber, bind at 1. rewrite Hchoice.
      unfold bind at 1, lift at 1. rewrite Ha.
      unfold bind at 1, lift at 1. rewrite Hb. reflexivity. }
    rewrite (run_bb84_outcomes sha3_256 format_3f _ _ _ _ _ _ _ _ _
               Hsift Hsample).
    destruct (f_ltb QBER_LIMIT _).
    + eexists. split; [reflexivity |]. cbn. eauto.
    + cbv zeta. destruct (f_ltb DELTA_Y_LIM _).
      * eexists. split; [reflexivity |]. cbn. eauto.
      * destruct (derive_key_returns s idx Hlen Hidx) as [key Hkey].
        rewrite Hkey. eexists. split; [reflexivity |]. cbn. eauto.
Qed.
End BB84Facts.

(** A session of minus one pulse raises; the session of two pulses
    sifts both of them. *)
Lemma sift_strings_aligned_witness :
  -1 < 0
  /\ BB84.sift (-1) (1 # 100)%Q false clean_samples = Raise ValueError
  /\ BB84.sift 2 (1 # 100)%Q false clean_samples
     = Ok ({| BB84.sift_A := [true; false]; BB84.sift_B := [true; false];
              BB84.y_sig := 1%Q; BB84.y_dec := 1%Q |},
           {| s_ints := []; s_bits := []; s_uniform := [];
              s_choice := [[0%nat]] |})
  /\ 0 <= 2
  /\ length [true; false] = length [true; false]
  /\ Z.of_nat (length [true; false]) <= 2.
Proof.
  split; [lia |].
  destruct (sift_strings_aligned (-1) (1 # 100)%Q false clean_samples)
    as [Hneg _].
  destruct (sift_strings_aligned 2 (1 # 100)%Q false clean_samples)
    as [_ Hpos].
  split; [apply Hneg; lia |].
  assert (Hrun : BB84.sift 2 (1 # 100)%Q false clean_samples
     = Ok ({| BB84.sift_A := [true; false]; BB84.sift_B := [true; false];
              BB84.y_sig := 1%Q; BB84.y_dec := 1%Q |},
           {| s_ints := []; s_bits := []; s_uniform := [];
              s_choice := [[0%nat]] |}))
    by (vm_compute; reflexivity).
  split; [exact Hrun |]. exact (Hpos _ _ Hrun).
Defined.

(** Alice holds 1 0 1 1, Bob 0 0 1 1: the sums differ by one, Bob's first
    bit is flipped and nothing is discarded. *)
Lemma reconcile_hashes_agreed_bits_witness :
  length [true; false; true; true] = length [false; false; true; true]
  /\ exists bits_b' : list bool,
       let aligned :=
         BB84.select [true; false; true; true]
           (zip_with Bool.eqb [true; false; true; true] bits_b') in
       BB84._reconcile (fun bytes => bytes) [true; false; true; true]
         [false; false; true; true]
       = Ok (map Z.b2z aligned)
       /\ (bits_b' = [false; false; true; true]
           \/ exists b rest,
                [false; false; true; true] = b :: rest
                /\ bits_b' = negb b :: rest)
       /\ aligned
          = BB84.select bits_b'
              (zip_with Bool.eqb [true; false; true; true] bits_b')
       /\ Z.Even (Z.of_nat (length [true; false; true; true])
                  - Z.of_nat (length aligned))
       /\ ([true; false; true; true] = [false; false; true; true] ->
           bits_b' = [false; false; true; true]
           /\ aligned = [true; false; true; true]).
Proof.
  split; [reflexivity |].
  apply (reconcile_hashes_agreed_bits (fun bytes => bytes)
           [true; false; true; true] [false; false; true; true]).
  reflexivity.
Defined.

(** The session of two pulses that runs to the end. *)
Lemma run_bb84_returns_after_sampling_witness :
  let s := {| BB84.sift_A := [true; false]; BB84.sift_B := [true; false];
              BB84.y_sig := 1%Q; BB84.y_dec := 1%Q |} in
  let g1 := {| s_ints := []; s_bits := []; s_uniform := [];
               s_choice := [[0%nat]] |} in
  let g2 := {| s_ints := []; s_bits := []; s_uniform := [];
               s_choice := [] |} in
  BB84.sift 2 (1 # 100)%Q false clean_samples = Ok (s, g1)
  /\ np_choice (length (BB84.sift_A s)) (Z.to_nat (BB84.sample_len s)) g1
     = Ok ([0%nat], g2)
  /\ Forall (fun i => (i < length (BB84.sift_A s))%nat) [0%nat]
  /\ BB84.sift_A s <> []
  /\ exists session,
       BB84.run_bb84 (fun bytes => bytes) (fun _ => "0.000") 2 (1 # 100)%Q
         false clean_samples = Ok (session, g2)
       /\ BB84.yield_signal session = BB84.y_sig s
       /\ BB84.yield_decoy session = BB84.y_dec s
       /\ if BB84.success session
          then exists key, BB84.key_or_msg session = inr key
          else exists msg, BB84.key_or_msg session = inl msg.
Proof.
  intros s g1 g2.
  assert (Hsift : BB84.sift 2 (1 # 100)%Q false clean_samples = Ok (s, g1))
    by (vm_compute; reflexivity).
  assert (Hchoice : np_choice (length (BB84.sift_A s))
                      (Z.to_nat (BB84.sample_len s)) g1 = Ok ([0%nat], g2))
    by (vm_compute; reflexivity).
  assert (Hidx : Forall (fun i => (i < length (BB84.sift_A s))%nat) [0%nat])
    by (repeat constructor).
  split; [exact Hsift |]. split; [exact Hchoice |]. split; [exact Hidx |].
  exact (run_bb84_returns_after_sampling (fun bytes => bytes)
           (fun _ => "0.000") 2 (1 # 100)%Q false clean_samples g1 g2 s
           [0%nat] Hsift Hchoice Hidx).
Defined.

(** ** network_builder.py: the graph that build_hybrid_graph returns *)

Section NetworkBuilderFacts.
Context {F Rng : Type} `{Float F} `{RandomSource F Rng}.
Variable round2 : F -> F.
Import NetworkBuilder.
Implicit Types (G : Graph F) (rng : Rng).

Lemma edges_get_add_node (n : Z) (q c : bool) G (u v : Z) :
  edges_get (nx_add_node n q c G) u v = edges_get G u v.
Proof.
  unfold edges_get, nx_add_node. cbn [adj].
  destruct (adj G !! n) as [row |] eqn:Hrow; [reflexivity |].
  destruct (decide (u = n)) as [-> | Hne].
  - rewrite lookup_insert_eq, Hrow. cbn. rewrite lookup_empty. reflexivity.
  - rewrite lookup_insert_ne by congruence. reflexivity.
Qed.

Lemma edges_get_add_edge (i j : Z) (q : bool) (d : F) G (u v : Z) :
  i <> j ->
  is_Some (nodes G !! i) -> is_Some (nodes G !! j) ->
  nodes (nx_add_edge i j q d G) = nodes G
  /\ edges_get (nx_add_edge i j q d G) u v
     = if bool_decide ((u = i /\ v = j) \/ (u = j /\ v = i))
       then Ok {| distance_km := d; quantum := q |}
       else edges_get G u v.
Proof.
  intros Hij [ni Hi] [nj Hj].
  unfold nx_add_edge, nx_touch_node. rewrite Hi. rewrite Hj. cbv zeta.
  split; [reflexivity |].
  unfold edges_get. cbn [adj].
  case_bool_decide as Hcase.
  - destruct Hcase as [[-> ->] | [-> ->]].
    + rewrite lookup_insert_ne by congruence. rewrite lookup_insert_eq.
      cbn. rewrite lookup_insert_eq. reflexivity.
    + rewrite lookup_insert_eq. cbn. rewrite lookup_insert_eq. reflexivity.
  - destruct (decide (u = j)) as [-> | Huj].
    + rewrite lookup_insert_eq. cbn.
      rewrite lookup_insert_ne by (intros ->; apply Hcase; auto).
      rewrite lookup_insert_ne by congruence.
      destruct (adj G !! j); cbn; [reflexivity | rewrite lookup_empty; reflexivity].
    + rewrite lookup_insert_ne by congruence.
      destruct (decide (u = i)) as [-> | Hui].
      * rewrite lookup_insert_eq. cbn.
        rewrite lookup_insert_ne by (intros ->; apply Hcase; auto).
        destruct (adj G !! i); cbn; [reflexivity | rewrite lookup_empty; reflexivity].
      * rewrite lookup_insert_ne by congruence. reflexivity.
Qed.

Lemma py_range_nil (a b : Z) : b <= a -> py_range a b = [].
Proof.
  intros Hle. unfold py_range.
  replace (Z.to_nat (b - a)) with 0%nat by lia. reflexivity.
Qed.

Lemma py_range_cons (a b : Z) :
  a < b -> py_range a b = a :: py_range (a + 1) b.
Proof.
  intros Hlt. unfold py_range.
  replace (Z.to_nat (b - a)) with (S (Z.to_nat (b - (a + 1)))) by lia.
  cbn [seq map]. rewrite <- seq_shift, map_map. f_equal; [lia |].
  apply map_ext. intros k. lia.
Qed.

Lemma py_range_bounds (k : nat) : forall a b,
  Z.to_nat (b - a) = k -> Forall (fun x => a <= x < b) (py_range a b).
Proof.
  induction k as [|k IH]; intros a b Hk.
  - rewrite py_range_nil by lia. constructor.
  - rewrite py_range_cons by lia. constructor; [lia |].
    eapply Forall_impl; [apply (IH (a + 1) b); lia |].
    cbn. intros x Hx. lia.
Qed.

Lemma add_nodes_builds (qr : F) (k : nat) : forall (a n : Z) G rng,
  Z.to_nat (n - a) = k -> 0 <= a ->
  built_graph a G -> (forall u v, edges_get G u v = Raise KeyError) ->
  exists G' rng',
    add_nodes (py_range a n) qr G rng = Ok (G', rng')
    /\ built_graph (Z.max a n) G'
    /\ (forall u v, edges_get G' u v = Raise KeyError).
Proof.
  induction k as [|k IH]; intros a n G rng Hk Ha HG Hno.
  - rewrite py_range_nil by lia. exists G, rng.
    replace (Z.max a n) with a by lia. auto.
  - rewrite py_range_cons by lia. cbn [add_nodes].
    unfold bind at 1, draw at 1. destruct (rng_random rng) as [r rng1].
    set (is_quantum := f_ltb r qr).
    assert (Hstep : forall c rng2,
              (c = true -> is_quantum = true) ->
              exists G' rng',
                add_nodes (py_range (a + 1) n) qr
                  (nx_add_node a is_quantum c G) rng2 = Ok (G', rng')
                /\ built_graph (Z.max a n) G'
                /\ (forall u v, edges_get G' u v = Raise KeyError)).
    { intros c rng2 Hc.
      replace (Z.max a n) with (Z.max (a + 1) n) by lia.
      apply IH; [lia | lia | |].
      - destruct HG as [Hnodes Hstore _]. split.
        + intros x. cbn [nx_add_node nodes].
          destruct (decide (x = a)) as [-> | Hne].
          * rewrite lookup_insert_eq. split; [lia | eauto].
          * rewrite lookup_insert_ne by congruence. rewrite Hnodes. lia.
        + intros x nd. cbn [nx_add_node nodes].
          destruct (decide (x = a)) as [-> | Hne].
          * rewrite lookup_insert_eq. intros [= <-]. cbn. exact Hc.
          * rewrite lookup_insert_ne by congruence. apply Hstore.
        + intros u v d. rewrite edges_get_add_node, Hno. discriminate.
      - intros u v. rewrite edges_get_add_node. apply Hno. }
    destruct is_quantum eqn:Hq.
    + unfold bind at 1. unfold bind at 1, draw at 1.
      destruct (rng_random rng1) as [r2 rng2]. unfold ret at 1.
      apply Hstep. auto.
    + unfold bind at 1, ret at 1. apply Hstep. discriminate.
Qed.

Lemma add_edge_built (n i j : Z) (d : F) G :
  built_graph n G -> 0 <= i < n -> 0 <= j < n -> i <> j ->
  exists q, is_quantum_link G i j = Ok q
            /\ built_graph n (nx_add_edge i j q d G).
Proof.
  intros [Hnodes Hstore Hedges] Hi Hj Hij.
  destruct (proj2 (Hnodes i) Hi) as [ni Hni].
  destruct (proj2 (Hnodes j) Hj) as [nj Hnj].
  exists (node_quantum ni && node_quantum nj). split.
  { unfold is_quantum_link, nodes_get, res_bind. rewrite Hni.
    destruct (node_quantum ni); [rewrite Hnj |]; reflexivity. }
  assert (Hget : forall u v,
            edges_get (nx_add_edge i j (node_quantum ni && node_quantum nj) d G)
              u v
            = if bool_decide ((u = i /\ v = j) \/ (u = j /\ v = i))
              then Ok {| distance_km := d;
                         quantum := node_quantum ni && node_quantum nj |}
              else edges_get G u v).
  { intros u v. apply edges_get_add_edge; eauto. }
  assert (Hsame : nodes (nx_add_edge i j (node_quantum ni && node_quantum nj)
                           d G) = nodes G).
  { apply (edges_get_add_edge i j _ d G 0 0); eauto. }
  split.
  - intros x. rewrite Hsame. apply Hnodes.
  - intros x nd. rewrite Hsame. apply Hstore.
  - intros u v e. rewrite Hsame, !Hget.
    case_bool_decide as Huv.
    + intros [= <-]. cbn [quantum].
      rewrite bool_decide_eq_true_2 by tauto.
      split; [destruct Huv as [[-> ->] | [-> ->]]; congruence |].
      split; [reflexivity |].
      destruct Huv as [[-> ->] | [-> ->]].
      * exists ni, nj. auto.
      * exists nj, ni. rewrite andb_comm. auto.
    + rewrite bool_decide_eq_false_2 by tauto. apply Hedges.
Qed.

Lemma add_edges_from_builds (n i : Z) (p : F) (dr : F * F) (js : list Z) :
  forall G rng,
  built_graph n G -> 0 <= i < n ->
  Forall (fun j => 0 <= j < n /\ j <> i) js ->
  exists G' rng',
    add_edges_from round2 i js p dr G rng = Ok (G', rng')
    /\ built_graph n G'.
Proof.
  induction js as [|j js IH]; intros G rng HG Hi Hjs; cbn [add_edges_from].
  - exists G, rng. auto.
  - apply Forall_cons in Hjs as [[Hj Hji] Hjs].
    unfold bind at 1, draw at 1. destruct (rng_random rng) as [r rng1].
    destruct (f_ltb r p); [| apply IH; auto].
    unfold bind at 1, rng_uniform, bind at 1, draw at 1.
    destruct (rng_random rng1) as [r2 rng2]. unfold ret at 1.
    destruct (add_edge_built n i j
                (round2 (f_add dr.1 (f_mul (f_sub dr.2 dr.1) r2))) G HG Hi Hj)
      as (q & Hq & HG'); [congruence |].
    unfold bind at 1, lift at 1. rewrite Hq. apply IH; auto.
Qed.

Lemma add_edges_builds (n : Z) (p : F) (dr : F * F) (is_ : list Z) :
  forall G rng,
  built_graph n G -> Forall (fun i => 0 <= i < n) is_ ->
  exists G' rng',
    add_edges round2 is_ n p dr G rng = Ok (G', rng') /\ built_graph n G'.
Proof.
  induction is_ as [|i is_ IH]; intros G rng HG His; cbn [add_edges].
  - exists G, rng. auto.
  - apply Forall_cons in His as [Hi His].
    destruct (add_edges_from_builds n i p dr (py_range (i + 1) n) G rng HG Hi)
      as (G1 & rng1 & Hrun & HG1).
    { eapply Forall_impl; [apply (py_range_bounds _ _ _ eq_refl) |].
      cbn. intros j Hj. lia. }
    unfold bind at 1. rewrite Hrun. apply IH; auto.
Qed.

(** X21.  [build_hybrid_graph] always returns a graph, whatever the
    generator draws: its nodes are exactly 0 .. num_nodes - 1, a node
    that can store entanglement is quantum-capable, no link joins a node
    to itself, every link is read the same from both ends, and a link is
    quantum exactly when both its end nodes are quantum-capable. *)
Theorem build_hybrid_graph_well_formed (num_nodes : Z)
  (quantum_ratio edge_prob : F) (dist_range_km : F * F) rng :
  exists G rng',
    build_hybrid_graph round2 num_nodes quantum_ratio edge_prob dist_range_km
      rng = Ok (G, rng')
    /\ built_graph num_nodes G.
Proof.
  unfold build_hybrid_graph.
  destruct (add_nodes_builds quantum_ratio _ 0 num_nodes
              {| nodes := ∅; adj := ∅ |} rng eq_refl)
    as (G1 & rng1 & Hnodes & HG1 & _).
  - lia.
  - split.
    + intros n. cbn [nodes]. rewrite lookup_empty. split; [| lia].
      intros [x Hx]. discriminate Hx.
    + intros n nd. cbn [nodes]. rewrite lookup_empty. discriminate.
    + intros u v d. unfold edges_get. cbn [adj]. rewrite lookup_empty.
      discriminate.
  - intros u v. unfold edges_get. cbn [adj]. rewrite lookup_empty.
    reflexivity.
  - unfold bind at 1. rewrite Hnodes.
    assert (HG1' : built_graph num_nodes G1).
    { destruct HG1 as [Hn Hs He]. split; auto.
      intros n. rewrite Hn. lia. }
    apply add_edges_builds; [exact HG1' |].
    apply (py_range_bounds _ _ _ eq_refl).
Qed.
End NetworkBuilderFacts.

(** ** plot_link_behavior.py: the composite cost of a path *)

Section CompositeCostFacts.
Local Open Scope R_scope.
Implicit Types (G : Graph R) (path : list Z).





End CompositeCostFacts.


(** ** Routing: the quantum-only policy *)

Section QuantumOnlyFacts.
Context {F Rng : Type} `{Float F} `{RandomSource F Rng} `{NetworkX F}.
Implicit Types (G : Graph F).
Import Routing.

Lemma quantum_subgraph_no_node G (n : Z) :
  (forall v d, edges_get G n v = Ok d -> quantum d = false) ->
  nodes (quantum_subgraph G) !! n = None.
Proof.
  intros Hlinks. unfold quantum_subgraph. cbn [nodes].
  apply map_lookup_filter_None_2. right. intros nd _ [row Hrow].
  cbn [fst] in Hrow. rewrite lookup_omap in Hrow.
  destruct (adj G !! n) as [row0 |] eqn:Hadj; [| discriminate Hrow].
  cbn in Hrow. case_decide as Hsize; [discriminate Hrow |].
  apply Hsize. apply map_size_empty_iff. apply map_empty. intros v.
  apply map_lookup_filter_None_2.
  destruct (row0 !! v) as [d |] eqn:Hv; [right | left; reflexivity].
  intros d' [= <-]. cbn [snd].
  rewrite (Hlinks v d); [discriminate |].
  unfold edges_get. rewrite Hadj. cbn. rewrite Hv. reflexivity.
Qed.

(** X23.  [quantum_only] answers None, whatever networkx would say, as
    soon as the source or the destination has no quantum link. *)
Theorem quantum_only_needs_quantum_links G (src dst : Z) :
  (forall v d, edges_get G src v = Ok d -> quantum d = false)
  \/ (forall v d, edges_get G dst v = Ok d -> quantum d = false) ->
  quantum_only G src dst = Ok None.
Proof.
  intros Hno. unfold quantum_only. cbv zeta.
  destruct Hno as [Hsrc | Hdst].
  - rewrite (quantum_subgraph_no_node G src Hsrc).
    rewrite bool_decide_eq_false_2 by (intros [x Hx]; discriminate Hx).
    reflexivity.
  - rewrite (quantum_subgraph_no_node G dst Hdst).
    rewrite (bool_decide_eq_false_2 (is_Some None))
      by (intros [x Hx]; discriminate Hx).
    cbn [negb]. rewrite orb_true_r. reflexivity.
Qed.
End QuantumOnlyFacts.

(** On the classical line no node has a quantum link. *)
Lemma quantum_only_needs_quantum_links_witness :
  ((forall v d, edges_get line_classical 0 v = Ok d -> quantum d = false)
   \/ (forall v d, edges_get line_classical 2 v = Ok d -> quantum d = false))
  /\ Routing.quantum_only line_classical 0 2 = Ok None.
Proof.
  assert (Hsrc : forall v d, edges_get line_classical 0 v = Ok d ->
                             quantum d = false).
  { intros v d. destruct (decide (v = 1)) as [-> | Hv].
    - intros Hd. vm_compute in Hd. injection Hd as <-. reflexivity.
    - unfold edges_get, line_classical, add_edge, add_node. cbn [adj].
      cbv zeta. intros Hd. exfalso. revert Hd.
      repeat first [ rewrite lookup_insert_ne by lia
                   | rewrite lookup_insert_eq
                   | rewrite lookup_empty
                   | progress cbn ].
      discriminate. }
  split; [left; exact Hsrc |].
  apply (quantum_only_needs_quantum_links line_classical 0 2).
  left. exact Hsrc.
Defined.
